(** * cypress-memory-tracker: the sample store, the aggregator and the reporter

    A shallow embedding of [dist/cypress-memory-tracker.js] (class
    [MemoryTracker]) and the properties of its store, statistics and reports.

    Modelling conventions.
    - A JavaScript object used as a map is the list of its own properties in
      own-key iteration order (the order of [Object.keys], [Object.values]
      and [Object.entries]): canonical array indices first, in ascending
      numeric order, then the other string keys in creation order.  A property
      read that misses the own properties falls back to [Object.prototype].
    - Millisecond timestamps are naturals ([N]); a byte count is a natural
      below 2^53, the integers a Number holds exactly ([Bytes]); an optional
      field of a JSON object is an [option].
    - A finite Number is the rational it denotes ([Q]).  The arithmetic of the
      aggregator is that of IEEE 754 doubles: [+], [*] and [/] return the
      double nearest to the exact result, a tie going to the even significand
      ([Number.toDouble]); [Math.round x] is [floor (x + 1/2)], which is
      exact.  A result beyond the largest double would be an infinity: the
      sum of fewer than 2^32 byte counts, the length an array can have, stays
      far below it.  The comparisons of the reports take the sign of a
      difference of two doubles, which is the sign of the exact difference.
    - The file on disk holds the JSON text of a snapshot or nothing; it is
      modelled by [option RunSnapshot], reads and writes of it succeed, and
      every call of [loadData] and [saveData] is entered in a journal.
    - [Date.now()] and [new Date()] read a clock that the world carries; the
      readings are a sequence the world is given, one consumed per call.
    - A [TypeError] is a [Throw] completion.
    - [logDebug] only prints, and only in debug mode; it is left out. *)

From Stdlib Require Import List String Ascii Bool Arith NArith ZArith Lia.
From Stdlib Require Import QArith Qround Qabs Qpower Lqa SpecFloat.
From Stdlib Require Import Permutation Sorted.
Import ListNotations.

Local Open Scope string_scope.
Local Open Scope list_scope.

(** ** JavaScript objects used as string-keyed maps *)

Module Js.

Definition obj (V : Type) : Type := list (string * V).

Definition digit (c : ascii) : option N :=
  let n := N_of_ascii c in
  if ((48 <=? n) && (n <=? 57))%N then Some (n - 48)%N else None.

Fixpoint digits (acc : N) (s : string) : option N :=
  match s with
  | EmptyString => Some acc
  | String c r =>
      match digit c with
      | Some d => digits (10 * acc + d)%N r
      | None => None
      end
  end.

(** A canonical array index: the decimal numeral, without leading zero, of
    an integer between 0 and 2^32 - 2. *)
Definition array_index (k : string) : option N :=
  match k with
  | EmptyString => None
  | String "0" EmptyString => Some 0%N
  | String "0" _ => None
  | _ =>
      match digits 0 k with
      | Some n => if (n <=? 4294967294)%N then Some n else None
      | None => None
      end
  end.

(** Own-property lookup. *)
Fixpoint get {V} (o : obj V) (k : string) : option V :=
  match o with
  | [] => None
  | (k', v) :: r => if String.eqb k k' then Some v else get r k
  end.

Fixpoint replace {V} (k : string) (v : V) (o : obj V) : obj V :=
  match o with
  | [] => []
  | (k', v') :: r =>
      if String.eqb k k' then (k, v) :: r else (k', v') :: replace k v r
  end.

Fixpoint insert_index {V} (i : N) (k : string) (v : V) (o : obj V) : obj V :=
  match o with
  | [] => [(k, v)]
  | (k', v') :: r =>
      match array_index k' with
      | Some j =>
          if (j <? i)%N then (k', v') :: insert_index i k v r
          else (k, v) :: (k', v') :: r
      | None => (k, v) :: (k', v') :: r
      end
  end.

(** [o[k] = v]: an existing own property keeps its place; a new one is
    created at the position its key has in the iteration order. *)
Definition set {V} (o : obj V) (k : string) (v : V) : obj V :=
  match get o k with
  | Some _ => replace k v o
  | None =>
      match array_index k with
      | Some i => insert_index i k v o
      | None => o ++ [(k, v)]
      end
  end.

Definition keys {V} (o : obj V) : list string := map fst o.
Definition values {V} (o : obj V) : list V := map snd o.
Definition entries {V} (o : obj V) : list (string * V) := o.

(** The property names every object inherits from [Object.prototype]; each
    of them reads as a function or an object, hence as a truthy value that
    has none of the fields of a record of the store. *)
Definition prototype_names : list string :=
  [ "constructor"; "__defineGetter__"; "__defineSetter__"; "hasOwnProperty";
    "__lookupGetter__"; "__lookupSetter__"; "isPrototypeOf";
    "propertyIsEnumerable"; "toString"; "valueOf"; "__proto__";
    "toLocaleString" ].

Definition inherited (k : string) : bool :=
  existsb (String.eqb k) prototype_names.

(** The value of the expression [o[k]]. *)
Inductive property (V : Type) : Type :=
| Own (v : V)
| Inherited
| Undefined.
Arguments Own {V} v.
Arguments Inherited {V}.
Arguments Undefined {V}.

Definition read {V} (o : obj V) (k : string) : property V :=
  match get o k with
  | Some v => Own v
  | None => if inherited k then Inherited else Undefined
  end.

End Js.

(** ** Numbers

    The double nearest to a rational: the significand has 53 bits, the
    exponent of the last bit is at least -1074 (below 2^-1022 the doubles are
    subnormal), and a tie goes to the even significand.  The Numbers of this
    file stay below 2^1024, where the doubles end. *)

Module Number.

Local Open Scope Q_scope.

(** The exponent of the last bit of the smallest doubles. *)
Definition emin : Z := -1074.

(** [floor (log2 x)] of a positive rational. *)
Definition ilog2 (x : Q) : Z :=
  if Qle_bool 1 x then Z.log2 (Qfloor x) else (- Z.log2_up (Qceiling (/ x)))%Z.

(** The nearest integer, a tie going to the even one. *)
Definition nearestEven (x : Q) : Z :=
  let f := Qfloor x in
  match Qcompare (x - inject_Z f) (1 # 2) with
  | Lt => f
  | Gt => (f + 1)%Z
  | Eq => if Z.even f then f else (f + 1)%Z
  end.

(** The exponent of the last bit of the doubles around [x]. *)
Definition ulpExp (x : Q) : Z := Z.max (ilog2 (Qabs x) - 52) emin.

Definition toDouble (x : Q) : Q :=
  if Qeq_bool x 0 then 0
  else let e := ulpExp x in inject_Z (nearestEven (x / 2 ^ e)) * 2 ^ e.

(** [x + y], [x * y] and [x / y] on Numbers. *)
Definition add (x y : Q) : Q := toDouble (x + y).
Definition mul (x y : Q) : Q := toDouble (x * y).
Definition div (x y : Q) : Q := toDouble (x / y).

End Number.

(** ** Data model *)

(** A byte count: an integer that a Number holds exactly. *)
Record Bytes : Type := mkBytes {
  byteCount : N;
  byteCount_safe : (byteCount <? 9007199254740992)%N = true
}.

Abbreviation bytes n := (mkBytes n%N eq_refl).

Record Sample : Type := mkSample {
  timestamp : option N;
  usedJSHeapSize : option Bytes;
  totalJSHeapSize : option Bytes;
  jsHeapSizeLimit : option Bytes
}.

(** The entry [specs[s].tests[t]]: [{ samples: [...] }]. *)
Record SpecTest : Type := mkSpecTest {
  st_samples : list Sample
}.

(** [startTime] is the reading of the clock whose ISO rendering the code
    stores; the spec entries created by [recordTestMemory] and
    [recordMemoryBatch] have none. *)
Record SpecRecord : Type := mkSpecRecord {
  sr_samples : list Sample;
  sr_tests : Js.obj SpecTest;
  sr_startTime : option N
}.

Record TestRecord : Type := mkTestRecord {
  specPath : string;
  testTitle : string;
  samples : list Sample;
  startTime : option N
}.

Record Config : Type := mkConfig {
  cfg_trackSpecOnly : bool;
  cfg_debug : bool
}.

Record RunSnapshot : Type := mkRunSnapshot {
  runStartTime : N;
  specs : Js.obj SpecRecord;
  tests : Js.obj TestRecord;
  config : Config
}.

(** ** Aggregator *)

Record Stats : Type := mkStats {
  s_min : Q;
  s_max : Q;
  s_avg : Q;
  s_count : nat
}.

Definition num (n : N) : Q := inject_Z (Z.of_N n).

(** [Math.round]: the nearest integer, a tie going up.  The result is an
    integer that a double holds: below 2^52 in size, or the argument itself. *)
Definition Math_round (x : Q) : Z := Qfloor (x + (1 # 2))%Q.

(** [x || 0] on an optional number: a missing field, [null] and [0] are
    falsy. *)
Definition or0 (x : option Bytes) : N :=
  match x with
  | Some v => byteCount v
  | None => 0%N
  end.

(** [Math.min(...values)] and [Math.max(...values)]; [calculateStats] calls
    them on a non-empty array only, the value on the empty one (an infinity)
    is not used. *)
Definition Math_min (values : list N) : N :=
  match values with
  | [] => 0%N
  | v :: vs => fold_left N.min vs v
  end.

Definition Math_max (values : list N) : N :=
  match values with
  | [] => 0%N
  | v :: vs => fold_left N.max vs v
  end.

Definition zeroStats : Stats :=
  {| s_min := 0%Q; s_max := 0%Q; s_avg := 0%Q; s_count := 0 |}.

Definition calculateStats (samples : option (list Sample)) : Stats :=
  match samples with
  | None => zeroStats
  | Some [] => zeroStats
  | Some samples =>
      let values := map (fun s => or0 (usedJSHeapSize s)) samples in
      let min := Math_min values in
      let max := Math_max values in
      let avg :=
        Number.div
          (fold_left (fun sum val => Number.add sum (num val)) values 0%Q)
          (inject_Z (Z.of_nat (List.length values))) in
      {| s_min :=
           Number.div
             (inject_Z (Math_round
                (Number.mul (Number.div (Number.div (num min) 1024) 1024) 100)))
             100;
         s_max :=
           Number.div
             (inject_Z (Math_round
                (Number.mul (Number.div (Number.div (num max) 1024) 1024) 100)))
             100;
         s_avg :=
           Number.div
             (inject_Z (Math_round
                (Number.mul (Number.div (Number.div avg 1024) 1024) 100)))
             100;
         s_count := List.length values |}
  end.

Definition aggregateSpecStats (specData : SpecRecord) : Stats :=
  let all :=
    fold_left (fun all td => all ++ st_samples td)
              (Js.values (sr_tests specData)) [] in
  let all := all ++ sr_samples specData in
  calculateStats (Some all).

Record Peak : Type := mkPeak {
  testName : string;
  memory : Q
}.

Definition Qgtb (x y : Q) : bool := negb (Qle_bool x y).

(** The callback of the [forEach] of [findMaxMemoryTest], on the pair of the
    variables [max] and [name]. *)
Definition peakStep (acc : Q * string) (entry : string * SpecTest) : Q * string :=
  let '(max, name) := acc in
  let '(t, td) := entry in
  let stats := calculateStats (Some (st_samples td)) in
  if Qgtb (s_max stats) max then (s_max stats, t) else (max, name).

Definition findMaxMemoryTest (specData : SpecRecord) : Peak :=
  let '(max, name) :=
    fold_left peakStep (Js.entries (sr_tests specData)) (0%Q, "") in
  {| testName := name; memory := max |}.

(** ** The world: the data file, the clock and a journal of store accesses *)

Inductive FsEvent : Type :=
| Load   (* a call of [loadData] *)
| Save   (* a call of [saveData] *)
| Unlink (* [cleanup] deleting the file *).

Record World : Type := mkWorld {
  file : option RunSnapshot;
  clock : nat -> N;
  ticks : nat;
  journal : list FsEvent
}.

Inductive completion (A : Type) : Type :=
| Normal (a : A)
| Throw.
Arguments Normal {A} a.
Arguments Throw {A}.

Definition M (A : Type) : Type := World -> completion A * World.

Definition ret {A} (a : A) : M A := fun w => (Normal a, w).

Definition throw {A} : M A := fun w => (Throw, w).

Definition bind {A B} (c : M A) (k : A -> M B) : M B :=
  fun w =>
    match c w with
    | (Normal a, w') => k a w'
    | (Throw, w') => (Throw, w')
    end.

Notation "x <- c ;; k" := (bind c (fun x => k))
  (at level 61, c at next level, right associativity).
Notation "c ;;; k" := (bind c (fun _ => k))
  (at level 61, right associativity).

(** One more reading of the clock. *)
Definition tick (w : World) : World :=
  {| file := file w; clock := clock w; ticks := S (ticks w);
     journal := journal w |}.

(** [Date.now()], and the instant of [new Date()]. *)
Definition Date_now : M N :=
  fun w => (Normal (clock w (ticks w)), tick w).

Definition logged (e : FsEvent) (w : World) : World :=
  {| file := file w; clock := clock w; ticks := ticks w;
     journal := journal w ++ [e] |}.

(** ** The tracker and its store *)

Record MemoryTracker : Type := mkTracker {
  isEnabled : bool;
  trackSpecOnly : bool;
  debugEnabled : bool
}.

(** [saveData]: the file is replaced by the JSON text of [data]. *)
Definition saveData (data : RunSnapshot) : M unit :=
  fun w =>
    (Normal tt,
     logged Save {| file := Some data; clock := clock w; ticks := ticks w;
                    journal := journal w |}).

(** [loadData]: the parsed file, or [null] ([None]) when there is none. *)
Definition loadData : M (option RunSnapshot) :=
  fun w => (Normal (file w), logged Load w).

Definition initializeData (this : MemoryTracker) : M unit :=
  if negb (isEnabled this) then ret tt
  else
    now <- Date_now ;;
    let initialData :=
      {| runStartTime := now;
         specs := [];
         tests := [];
         config := {| cfg_trackSpecOnly := trackSpecOnly this;
                      cfg_debug := debugEnabled this |} |} in
    saveData initialData.

Definition cleanup : M unit :=
  fun w =>
    match file w with
    | Some _ =>
        (Normal tt,
         logged Unlink {| file := None; clock := clock w; ticks := ticks w;
                          journal := journal w |})
    | None => (Normal tt, w)
    end.

(** ** Ingest API *)

(** The object literal the two single-sample entry points push:
    [{ timestamp: memoryData.timestamp || Date.now(), usedJSHeapSize: ..., ... }]. *)
Definition sampleOf (memoryData : Sample) : M Sample :=
  ts <- match timestamp memoryData with
        | Some t => if (t =? 0)%N then Date_now else ret t
        | None => Date_now
        end ;;
  ret {| timestamp := Some ts;
         usedJSHeapSize := usedJSHeapSize memoryData;
         totalJSHeapSize := totalJSHeapSize memoryData;
         jsHeapSizeLimit := jsHeapSizeLimit memoryData |}.

Definition with_specs (data : RunSnapshot) (s : Js.obj SpecRecord) : RunSnapshot :=
  {| runStartTime := runStartTime data; specs := s; tests := tests data;
     config := config data |}.

Definition with_tests (data : RunSnapshot) (t : Js.obj TestRecord) : RunSnapshot :=
  {| runStartTime := runStartTime data; specs := specs data; tests := t;
     config := config data |}.

(** [r.samples.push(s)] on the three kinds of record. *)
Definition push_spec (r : SpecRecord) (s : Sample) : SpecRecord :=
  {| sr_samples := sr_samples r ++ [s]; sr_tests := sr_tests r;
     sr_startTime := sr_startTime r |}.

Definition push_test (r : TestRecord) (s : Sample) : TestRecord :=
  {| specPath := specPath r; testTitle := testTitle r;
     samples := samples r ++ [s]; startTime := startTime r |}.

Definition push_specTest (r : SpecTest) (s : Sample) : SpecTest :=
  {| st_samples := st_samples r ++ [s] |}.

Definition with_sr_tests (r : SpecRecord) (t : Js.obj SpecTest) : SpecRecord :=
  {| sr_samples := sr_samples r; sr_tests := t; sr_startTime := sr_startTime r |}.

(** The statements of [recordSpecMemory] between [loadData] and [saveData]. *)
Definition specMemoryWrite (specName : string) (memoryData : Sample)
    (data : RunSnapshot) : M RunSnapshot :=
  (* if (!data.specs[specName]) data.specs[specName] = {...} *)
  specs1 <- match Js.read (specs data) specName with
            | Js.Undefined =>
                now <- Date_now ;;
                ret (Js.set (specs data) specName
                       {| sr_samples := []; sr_tests := [];
                          sr_startTime := Some now |})
            | _ => ret (specs data)
            end ;;
  (* data.specs[specName].samples.push({...}) *)
  match Js.read specs1 specName with
  | Js.Own sr =>
      s <- sampleOf memoryData ;;
      ret (with_specs data (Js.set specs1 specName (push_spec sr s)))
  | _ => throw
  end.

Definition recordSpecMemory (this : MemoryTracker) (specName : string)
    (memoryData : Sample) : M unit :=
  if negb (isEnabled this) then ret tt
  else
    data <- loadData ;;
    match data with
    | None => ret tt
    | Some data =>
        data' <- specMemoryWrite specName memoryData data ;;
        saveData data'
    end.

(** The statements of [recordTestMemory] between [loadData] and [saveData]:
    the write to [data.tests[testKey]], then the one to
    [data.specs[specName].tests[testTitle]]. *)
Definition testMemoryWrite (specName testTitle : string) (memoryData : Sample)
    (data : RunSnapshot) : M RunSnapshot :=
  let testKey := (specName ++ "::" ++ testTitle)%string in
  tests1 <- match Js.read (tests data) testKey with
            | Js.Undefined =>
                now <- Date_now ;;
                ret (Js.set (tests data) testKey
                       {| specPath := specName; testTitle := testTitle;
                          samples := []; startTime := Some now |})
            | _ => ret (tests data)
            end ;;
  match Js.read tests1 testKey with
  | Js.Own tr =>
      s <- sampleOf memoryData ;;
      let tests2 := Js.set tests1 testKey (push_test tr s) in
      let specs1 :=
        match Js.read (specs data) specName with
        | Js.Undefined =>
            Js.set (specs data) specName
              {| sr_samples := []; sr_tests := []; sr_startTime := None |}
        | _ => specs data
        end in
      match Js.read specs1 specName with
      | Js.Own sr =>
          let stests1 :=
            match Js.read (sr_tests sr) testTitle with
            | Js.Undefined =>
                Js.set (sr_tests sr) testTitle {| st_samples := [] |}
            | _ => sr_tests sr
            end in
          match Js.read stests1 testTitle with
          | Js.Own st =>
              s' <- sampleOf memoryData ;;
              ret {| runStartTime := runStartTime data;
                     specs := Js.set specs1 specName
                                (with_sr_tests sr
                                   (Js.set stests1 testTitle (push_specTest st s')));
                     tests := tests2;
                     config := config data |}
          | _ => throw
          end
      | _ => throw
      end
  | _ => throw
  end.

(** The fourth parameter, [specPath], is not used by the body. *)
Definition recordTestMemory (this : MemoryTracker) (specName testTitle : string)
    (memoryData : Sample) (specPath : option string) : M unit :=
  if negb (isEnabled this) then ret tt
  else
    data <- loadData ;;
    match data with
    | None => ret tt
    | Some data =>
        data' <- testMemoryWrite specName testTitle memoryData data ;;
        saveData data'
    end.

Record BatchItem : Type := mkBatchItem {
  bi_specName : string;
  bi_testTitle : string;
  bi_memory : Sample
}.

(** [batch] is [None] when [batchData.batch] is not an array. *)
Record BatchData : Type := mkBatchData {
  batch : option (list BatchItem);
  batchIndex : N;
  totalBatches : N
}.

(** The body of the [forEach] callback of [recordMemoryBatch]; it reads no
    clock. *)
Definition batchItemWrite (item : BatchItem) (data : RunSnapshot)
    : completion RunSnapshot :=
  let specName := bi_specName item in
  let testTitle := bi_testTitle item in
  let memory := bi_memory item in
  let testKey := (specName ++ "::" ++ testTitle)%string in
  let tests1 :=
    match Js.read (tests data) testKey with
    | Js.Undefined =>
        Js.set (tests data) testKey
          {| specPath := specName; testTitle := testTitle;
             samples := []; startTime := None |}
    | _ => tests data
    end in
  match Js.read tests1 testKey with
  | Js.Own tr =>
      let tests2 := Js.set tests1 testKey (push_test tr memory) in
      let specs1 :=
        match Js.read (specs data) specName with
        | Js.Undefined =>
            Js.set (specs data) specName
              {| sr_samples := []; sr_tests := []; sr_startTime := None |}
        | _ => specs data
        end in
      match Js.read specs1 specName with
      | Js.Own sr =>
          let stests1 :=
            match Js.read (sr_tests sr) testTitle with
            | Js.Undefined =>
                Js.set (sr_tests sr) testTitle {| st_samples := [] |}
            | _ => sr_tests sr
            end in
          match Js.read stests1 testTitle with
          | Js.Own st =>
              Normal {| runStartTime := runStartTime data;
                        specs := Js.set specs1 specName
                                   (with_sr_tests sr
                                      (Js.set stests1 testTitle
                                         (push_specTest st memory)));
                        tests := tests2;
                        config := config data |}
          | _ => Throw
          end
      | _ => Throw
      end
  | _ => Throw
  end.

(** [batchData.batch.forEach(item => ...)], threading [data] and the flag
    [modified]; an exception of the callback ends the loop. *)
Fixpoint batchForEach (items : list BatchItem) (data : RunSnapshot)
    (modified : bool) : completion (RunSnapshot * bool) :=
  match items with
  | [] => Normal (data, modified)
  | item :: rest =>
      match batchItemWrite item data with
      | Normal data' => batchForEach rest data' true
      | Throw => Throw
      end
  end.

Definition lift {A} (c : completion A) : M A := fun w => (c, w).

Definition recordMemoryBatch (this : MemoryTracker) (batchData : BatchData)
    : M unit :=
  match isEnabled this, batch batchData with
  | true, Some items =>
      data <- loadData ;;
      match data with
      | None => ret tt
      | Some data =>
          r <- lift (batchForEach items data false) ;;
          let '(data', modified) := r in
          if modified then saveData data' else ret tt
      end
  | _, _ => ret tt
  end.

(** ** Reporter

    The console is the list of the lines printed.  The rows of the two tables
    keep the numbers of the template as values ([Number.prototype.toString]
    is not modelled); [chalk] only colours its argument.  A character of a
    [string] stands for one UTF-16 code unit; the two captions and the title,
    the only texts outside ASCII, are not measured ([padStart(78)] adds 51
    blanks to the 27 code units of the title). *)

Inductive Line : Type :=
| Log (text : string)
| Totals (totalSpecs totalTests : nat)
| SpecRow (name : string) (min avg max : Q) (count : nat) (peak : string)
| TestRow (title spec : string) (min avg max : Q) (count : nat)
| MoreTests (omitted : nat).

Fixpoint repeat_string (s : string) (n : nat) : string :=
  match n with
  | O => EmptyString
  | S n' => (s ++ repeat_string s n')%string
  end.

Definition padEnd (s : string) (n : nat) : string :=
  (s ++ repeat_string " " (n - String.length s))%string.

(** [Array.prototype.sort(compare)]: a stable sort (ECMAScript 2019); [x] goes
    before an element [y] that followed it when [compare(x, y) <= 0]. *)
Fixpoint sort_insert {A} (compare : A -> A -> Q) (x : A) (l : list A) : list A :=
  match l with
  | [] => [x]
  | y :: r =>
      if Qle_bool (compare x y) 0 then x :: y :: r
      else y :: sort_insert compare x r
  end.

Definition Array_sort {A} (compare : A -> A -> Q) (l : list A) : list A :=
  fold_right (sort_insert compare) [] l.

Definition rule : Line := Log (repeat_string "-" 130).

Definition specRow (entry : string * SpecRecord) : Line :=
  let '(name, data) := entry in
  let stats := aggregateSpecStats data in
  let peak :=
    let n := testName (findMaxMemoryTest data) in
    if String.eqb n "" then "N/A" else n in
  SpecRow (padEnd name 48) (s_min stats) (s_avg stats) (s_max stats)
          (s_count stats) (padEnd (substring 0 20 peak) 20).

(** The caption, the rule, the column titles and the rule again. *)
Definition specReportHead : list Line :=
  [ Log "
♿️ Использование памяти [сьюиты]:";
    rule;
    Log (padEnd "| Spec File" 51 ++ padEnd "| Min (MB)" 13
         ++ padEnd "| Avg (MB)" 13 ++ padEnd "| Max (MB)" 13
         ++ padEnd "| Measurements " 16 ++ padEnd "| Peak Memory Test" 23
         ++ "|")%string;
    rule ].

Definition generateSpecReport (specs : Js.obj SpecRecord) : list Line :=
  specReportHead
  ++ map specRow
       (Array_sort
          (fun '(_, a) '(_, b) =>
             s_max (aggregateSpecStats b) - s_max (aggregateSpecStats a))%Q
          (Js.entries specs))
  ++ [ rule ].

Definition testRow (td : TestRecord) : Line :=
  let stats := calculateStats (Some (samples td)) in
  let title :=
    if (40 <? String.length (testTitle td))%nat
    then (substring 0 37 (testTitle td) ++ "...")%string
    else testTitle td in
  TestRow (padEnd title 48) (padEnd (specPath td) 24)
          (s_min stats) (s_avg stats) (s_max stats) (s_count stats).

Definition testReportHead : list Line :=
  [ Log "
♿️ Использование памяти [топ 50 тестов]:";
    rule;
    Log (padEnd "| Test Name" 51 ++ padEnd "| Spec File" 27
         ++ padEnd "| Min (MB)" 12 ++ padEnd "| Avg (MB)" 12
         ++ padEnd "| Max (MB)" 12 ++ padEnd "| Measurements " 12
         ++ "|")%string;
    rule ].

Definition generateTestReport (tests : Js.obj TestRecord) : list Line :=
  testReportHead
  ++ map testRow
       (firstn 50
          (Array_sort
             (fun a b =>
                s_max (calculateStats (Some (samples b)))
                - s_max (calculateStats (Some (samples a))))%Q
             (Js.values tests)))
  ++ (if (50 <? List.length (Js.keys tests))%nat
      then [ MoreTests (List.length (Js.keys tests) - 50) ]
      else [])
  ++ [ rule ].

Definition banner : Line := Log (repeat_string "=" 130).

Definition generateReport (this : MemoryTracker) : M (list Line) :=
  if negb (isEnabled this)
  then ret [ Log "Memory tracking was disabled for this run" ]
  else
    data <- loadData ;;
    match data with
    | None => ret [ Log "No memory data found for report generation." ]
    | Some data =>
        ret ([ Log (String "010" (repeat_string "=" 130));
               Log (repeat_string " " 51 ++ "🚔   MEMORY USAGE REPORT 🚔")%string;
               banner;
               Totals (List.length (Js.keys (specs data)))
                      (List.length (Js.keys (tests data))) ]
             ++ generateSpecReport (specs data)
             ++ (if negb (trackSpecOnly this)
                 then generateTestReport (tests data) else [])
             ++ [ Log (String "010" EmptyString); banner ])
    end.

(** ** Configuration *)

(** What a field of [config.env.memoryTracking] may hold, as far as
    [=== true] can tell. *)
Inductive JsValue : Type :=
| JUndefined
| JBoolean (b : bool)
| JOther.

Record MemoryConfig : Type := mkMemoryConfig {
  mc_enabled : JsValue;
  mc_trackSpecOnly : JsValue;
  mc_debug : JsValue
}.

(** [v === true]. *)
Definition strictTrue (v : JsValue) : bool :=
  match v with
  | JBoolean true => true
  | _ => false
  end.

(** [configure]; [memoryTracking] is [None] when [config.env.memoryTracking]
    is falsy or no object, in which case every field reads [undefined]. *)
Definition configure (this : MemoryTracker) (memoryTracking : option MemoryConfig)
    : MemoryTracker :=
  let memoryConfig :=
    match memoryTracking with
    | Some c => c
    | None => {| mc_enabled := JUndefined; mc_trackSpecOnly := JUndefined;
                 mc_debug := JUndefined |}
    end in
  {| isEnabled := strictTrue (mc_enabled memoryConfig);
     trackSpecOnly := strictTrue (mc_trackSpecOnly memoryConfig);
     debugEnabled := strictTrue (mc_debug memoryConfig) |}.

(** ** The flush of the sampling buffer ([stopMemoryTracking] of
    memory-commands.js)

    An entry of the buffer is modelled by the three fields
    [recordMemoryBatch] reads of it. *)

(** [l.slice(start, stop)] for [start <= stop]. *)
Definition Array_slice {A} (l : list A) (start stop : nat) : list A :=
  firstn (stop - start) (skipn start l).

(** [for (let i = ...; i < buffer.length; i += batchSize)
       batches.push(buffer.slice(i, i + batchSize))];
    [fuel] bounds the number of iterations. *)
Fixpoint splitLoop {A} (fuel batchSize : nat) (buffer : list A) (i : nat)
    (batches : list (list A)) : list (list A) :=
  match fuel with
  | O => batches
  | S fuel' =>
      if (i <? List.length buffer)%nat
      then splitLoop fuel' batchSize buffer (i + batchSize)
             (batches ++ [Array_slice buffer i (i + batchSize)])
      else batches
  end.

(** The loop advances by 50 entries a turn: [buffer.length] turns are enough. *)
Definition splitBatches {A} (buffer : list A) : list (list A) :=
  splitLoop (List.length buffer) 50 buffer 0 [].

(** The messages of [batches.forEach((batch, index) => cy.task(...))]. *)
Fixpoint batchMessagesFrom (index total : nat) (batches : list (list BatchItem))
    : list BatchData :=
  match batches with
  | [] => []
  | batch :: rest =>
      {| batch := Some batch; batchIndex := N.of_nat index;
         totalBatches := N.of_nat total |}
      :: batchMessagesFrom (S index) total rest
  end.

Definition batchMessages (buffer : list BatchItem) : list BatchData :=
  let batches := splitBatches buffer in
  batchMessagesFrom 0 (List.length batches) batches.

(** The tasks run one after the other, each handing its message to
    [recordMemoryBatch]. *)
Fixpoint runBatchTasks (this : MemoryTracker) (messages : list BatchData)
    : M unit :=
  match messages with
  | [] => ret tt
  | message :: rest =>
      recordMemoryBatch this message ;;; runBatchTasks this rest
  end.

(** * Vocabulary of the properties *)

Import Js.

(** ** Statistics *)

(** Bytes to mebibytes. *)
Definition MiB (bytes : Q) : Q := (bytes / 1024 / 1024)%Q.

(** The Number written with two decimals as [k / 100]: the double nearest to
    that quotient. *)
Definition hundredths (k : Z) : Q := Number.toDouble (inject_Z k / 100).

(** [r] is [x] rounded to two decimal places: a whole number of hundredths
    at distance at most one half of a hundredth, the upper one on a tie. *)
Definition rounded2 (x r : Q) : Prop :=
  exists k : Z,
    (r == hundredths k /\
     x * 100 - (1 # 2) < inject_Z k /\ inject_Z k <= x * 100 + (1 # 2))%Q.

(** [r] is a whole number of hundredths nearest to [x]: on a tie it may be
    either neighbour. *)
Definition nearest2 (x r : Q) : Prop :=
  exists k : Z,
    (r == hundredths k /\
     x * 100 - (1 # 2) <= inject_Z k /\ inject_Z k <= x * 100 + (1 # 2))%Q.

(** [m] is the least, respectively the greatest, of [values]. *)
Definition minimum_of (values : list N) (m : N) : Prop :=
  In m values /\ Forall (fun v => m <= v)%N values.

Definition maximum_of (values : list N) (m : N) : Prop :=
  In m values /\ Forall (fun v => v <= m)%N values.

Definition total (values : list N) : N := fold_right N.add 0%N values.

(** [a] is the arithmetic mean of [values]. *)
Definition mean_of (values : list N) (a : Q) : Prop :=
  (a * inject_Z (Z.of_nat (List.length values)) == num (total values))%Q.

(** The byte count the aggregator reads off a sample. *)
Definition heapOf (s : Sample) : N := or0 (usedJSHeapSize s).

(** The sum of byte counts as the aggregator accumulates it: from the left,
    each partial sum a double. *)
Definition floatSum (values : list N) : Q :=
  fold_left (fun sum val => Number.add sum (num val)) values 0%Q.

(** The conversion [Math.round((x / 1024 / 1024) * 100) / 100] of the
    aggregator. *)
Definition toMB (x : Q) : Q :=
  Number.div
    (inject_Z (Math_round (Number.mul (Number.div (Number.div x 1024) 1024) 100)))
    100.

(** The total of the byte counts of an optional sequence of samples. *)
Definition heapTotal (samples : option (list Sample)) : N :=
  match samples with
  | Some l => total (map heapOf l)
  | None => 0%N
  end.

(** What a double is: a significand below 2^53 on a grid that is not finer
    than the subnormal one. *)
Definition double (x : Q) : Prop :=
  exists m e : Z,
    (0 <= m < 2 ^ 53)%Z /\ (Number.emin <= e)%Z /\ (x == inject_Z m * 2 ^ e)%Q.

(** *** The aggregator on the binary64 of the Standard Library

    The same computation with the operations of [SpecFloat], the Standard
    Library's specification of IEEE 754 arithmetic, at precision 53 and
    maximal exponent 1024. *)

(** The rational a finite float denotes. *)
Definition SF2Q (f : spec_float) : Q :=
  match f with
  | S754_finite s m e => ((if s then -1 else 1) * inject_Z (Zpos m) * 2 ^ e)%Q
  | _ => 0%Q
  end.

(** The float nearest to an integer. *)
Definition Z2SF (z : Z) : spec_float := binary_normalize 53 1024 z 0 false.

Definition binary64_sum (values : list N) : spec_float :=
  fold_left (fun sum val => SFadd 53 1024 sum (Z2SF (Z.of_N val))) values (Z2SF 0).

Definition binary64_toMB (x : spec_float) : spec_float :=
  let scaled :=
    SFmul 53 1024
      (SFdiv 53 1024 (SFdiv 53 1024 x (Z2SF 1024)) (Z2SF 1024)) (Z2SF 100) in
  SFdiv 53 1024 (Z2SF (Math_round (SF2Q scaled))) (Z2SF 100).

(** [min], [max] and [avg] of a non-empty array of byte counts. *)
Definition binary64_stats (values : list N) : Q * Q * Q :=
  (SF2Q (binary64_toMB (Z2SF (Z.of_N (Math_min values)))),
   SF2Q (binary64_toMB (Z2SF (Z.of_N (Math_max values)))),
   SF2Q (binary64_toMB
           (SFdiv 53 1024 (binary64_sum values)
              (Z2SF (Z.of_nat (List.length values)))))).

(** Whether [calculateStats] returns these three columns. *)
Definition agrees_with_binary64 (samples : list Sample) : bool :=
  let st := calculateStats (Some samples) in
  let '(mn, mx, av) := binary64_stats (map heapOf samples) in
  Qeq_bool (s_min st) mn && Qeq_bool (s_max st) mx && Qeq_bool (s_avg st) av.

(** A sample of [n] bytes and nothing else. *)
Definition sampleOfBytes (b : Bytes) : Sample := mkSample None (Some b) None None.

(** The [max] of the statistics of one test of a spec. *)
Definition peakOf (entry : string * SpecTest) : Q :=
  s_max (calculateStats (Some (st_samples (snd entry)))).

(** The result of [findMaxMemoryTest] that names no test. *)
Definition noPeak : Peak := {| testName := ""; memory := 0%Q |}.

(** ** Orderings of the reports *)

(** The comparator of both reports: [(a, b) => key(b) - key(a)]. *)
Definition descending {A} (key : A -> Q) (a b : A) : Q := (key b - key a)%Q.

(** [a] may stand before [b] in a listing by descending key. *)
Definition notBelow {A} (key : A -> Q) (a b : A) : Prop := (key b <= key a)%Q.

(** Whether the key of [a] is [q]. *)
Definition sameKey {A} (key : A -> Q) (q : Q) (a : A) : bool :=
  Qeq_bool (key a) q.

(** The key of a row of the spec report and of one of the test report. *)
Definition specMax (entry : string * SpecRecord) : Q :=
  s_max (aggregateSpecStats (snd entry)).

Definition testMax (td : TestRecord) : Q :=
  s_max (calculateStats (Some (samples td))).

Definition isTestRow (l : Line) : bool :=
  match l with
  | TestRow _ _ _ _ _ _ => true
  | _ => false
  end.

(** ** The store *)

(** A change of the values that leaves the keys alone. *)
Definition map_values {V} (f : string -> V -> V) (o : obj V) : obj V :=
  map (fun e => (fst e, f (fst e) (snd e))) o.

(** [if (!o[k]) o[k] = init]. *)
Definition ensured {V} (o : obj V) (k : string) (init : V) : obj V :=
  match read o k with
  | Undefined => set o k init
  | _ => o
  end.

Definition testKeyOf (specName testTitle : string) : string :=
  (specName ++ "::" ++ testTitle)%string.

(** The samples recorded for a test in the two places the store keeps them. *)
Definition testSamples (data : RunSnapshot) (specName testTitle : string)
    : list Sample :=
  match get (tests data) (testKeyOf specName testTitle) with
  | Some r => samples r
  | None => []
  end.

Definition specTestSamples (data : RunSnapshot) (specName testTitle : string)
    : list Sample :=
  match get (specs data) specName with
  | Some sr =>
      match get (sr_tests sr) testTitle with
      | Some st => st_samples st
      | None => []
      end
  | None => []
  end.

(** The write to [data.tests] and to [data.specs] that both
    [recordTestMemory] and [recordMemoryBatch] perform, with what they differ
    in as parameters: the [startTime] given to a test record that has to be
    created, the sample pushed on the test record and the one pushed on the
    spec's entry for the test. *)
Definition dualWrite (created : option N) (specName testTitle : string)
    (s1 s2 : Sample) (data : RunSnapshot) : completion RunSnapshot :=
  let key := testKeyOf specName testTitle in
  let tests1 :=
    ensured (tests data) key
      {| specPath := specName; testTitle := testTitle;
         samples := []; startTime := created |} in
  let specs1 :=
    ensured (specs data) specName
      {| sr_samples := []; sr_tests := []; sr_startTime := None |} in
  match read tests1 key with
  | Own tr =>
      match read specs1 specName with
      | Own sr =>
          let stests1 :=
            ensured (sr_tests sr) testTitle {| st_samples := [] |} in
          match read stests1 testTitle with
          | Own st =>
              Normal {| runStartTime := runStartTime data;
                        specs := set specs1 specName
                                   (with_sr_tests sr
                                      (set stests1 testTitle (push_specTest st s2)));
                        tests := set tests1 key (push_test tr s1);
                        config := config data |}
          | _ => Throw
          end
      | _ => Throw
      end
  | _ => Throw
  end.

(** Whether an optional number is truthy. *)
Definition truthy (x : option N) : bool :=
  match x with
  | Some t => negb (t =? 0)%N
  | None => false
  end.

(** The sample pushed for [memoryData] when the clock shows [now]. *)
Definition stampWith (now : N) (memoryData : Sample) : Sample :=
  {| timestamp := Some (match timestamp memoryData with
                        | Some t => if (t =? 0)%N then now else t
                        | None => now
                        end);
     usedJSHeapSize := usedJSHeapSize memoryData;
     totalJSHeapSize := totalJSHeapSize memoryData;
     jsHeapSizeLimit := jsHeapSizeLimit memoryData |}.

(** Where the clock stands in [recordTestMemory] once the test record
    exists, and once the first sample is pushed. *)
Definition afterCreate (specName testTitle : string) (data : RunSnapshot)
    (w : World) : World :=
  match read (tests data) (testKeyOf specName testTitle) with
  | Undefined => tick w
  | _ => w
  end.

Definition afterFirst (specName testTitle : string) (memoryData : Sample)
    (data : RunSnapshot) (w : World) : World :=
  let w1 := afterCreate specName testTitle data w in
  if truthy (timestamp memoryData) then w1 else tick w1.

(** How many readings of the clock a write takes before it stamps its first
    sample: one, for the [startTime] of the record it has to create, or
    none. *)
Definition specReadings (specName : string) (data : RunSnapshot) : nat :=
  match read (specs data) specName with
  | Undefined => 1
  | _ => 0
  end.

Definition testReadings (specName testTitle : string) (data : RunSnapshot) : nat :=
  match read (tests data) (testKeyOf specName testTitle) with
  | Undefined => 1
  | _ => 0
  end.

(** How many readings stamping a sample takes. *)
Definition stampReadings (memoryData : Sample) : nat :=
  if truthy (timestamp memoryData) then 0 else 1.

Fixpoint has_colon (s : string) : bool :=
  match s with
  | EmptyString => false
  | String c r => Ascii.eqb c ":" || has_colon r
  end.

(** The sample of a batch item carries a timestamp other than 0. *)
Definition stamped (item : BatchItem) : Prop :=
  truthy (timestamp (bi_memory item)) = true.

(** The writes of [recordTestMemory], one per item of the batch, in the order
    of the batch. *)
Fixpoint testMemoryWriteAll (items : list BatchItem) (data : RunSnapshot)
    : M RunSnapshot :=
  match items with
  | [] => ret data
  | item :: rest =>
      data' <- testMemoryWrite (bi_specName item) (bi_testTitle item)
                 (bi_memory item) data ;;
      testMemoryWriteAll rest data'
  end.

Definition clearStart (r : TestRecord) : TestRecord :=
  {| specPath := specPath r; testTitle := testTitle r;
     samples := samples r; startTime := None |}.

(** A test record keeps its [startTime] if [before] already had a record
    under its key, and loses it otherwise. *)
Definition keepOld (before : RunSnapshot) (k : string) (r : TestRecord)
    : TestRecord :=
  match get (tests before) k with
  | Some _ => r
  | None => clearStart r
  end.

(** [data] without the [startTime] of the test records that [before] did not
    have. *)
Definition forgetCreated (before data : RunSnapshot) : RunSnapshot :=
  with_tests data (map_values (keepOld before) (tests data)).

(** [data] has a test record under every key of [before]. *)
Definition extends (before data : RunSnapshot) : Prop :=
  forall k, get (tests before) k <> None -> get (tests data) k <> None.

(** ** Concrete inputs *)

Definition falsy_sample : Sample := mkSample (Some 7%N) None (Some (bytes 9)) None.

Definition two_MiB_sample : Sample :=
  mkSample (Some 5%N) (Some (bytes 2097152)) None None.

(** A spec whose only test never measured more than 0 bytes. *)
Definition idleSpec : SpecRecord :=
  {| sr_samples := [];
     sr_tests := [("idle", {| st_samples := [mkSample (Some 5%N) (Some (bytes 0)) None None] |})];
     sr_startTime := None |}.

(** A spec whose only test holds one sample of [b] bytes. *)
Definition specOfBytes (b : Bytes) : SpecRecord :=
  {| sr_samples := [];
     sr_tests := [("t", {| st_samples := [mkSample (Some 1%N) (Some b) None None] |})];
     sr_startTime := None |}.

Definition specOf3MiB : SpecRecord := specOfBytes (bytes 3145728).

Definition trackerOn : MemoryTracker :=
  {| isEnabled := true; trackSpecOnly := false; debugEnabled := false |}.

Definition emptySnapshot : RunSnapshot :=
  {| runStartTime := 1700000000000%N; specs := []; tests := [];
     config := {| cfg_trackSpecOnly := false; cfg_debug := false |} |}.

(** A clock whose third reading falls in the next millisecond. *)
Definition clock1 (n : nat) : N :=
  if (n <? 2)%nat then 1700000000123%N else 1700000000124%N.

Definition world1 : World :=
  {| file := Some emptySnapshot; clock := clock1; ticks := 0; journal := [] |}.

Definition worldNoFile : World :=
  {| file := None; clock := clock1; ticks := 0; journal := [] |}.

(** The sample sent when a test starts: it carries no timestamp. *)
Definition startMemory : Sample :=
  {| timestamp := None; usedJSHeapSize := Some (bytes 20971520);
     totalJSHeapSize := Some (bytes 31457280);
     jsHeapSizeLimit := Some (bytes 4294705152) |}.

(** A sample of the sampling loop: it carries its timestamp. *)
Definition loopMemory : Sample :=
  {| timestamp := Some 1700000000500%N; usedJSHeapSize := Some (bytes 20971520);
     totalJSHeapSize := Some (bytes 31457280);
     jsHeapSizeLimit := Some (bytes 4294705152) |}.

Definition items1 : list BatchItem :=
  [ {| bi_specName := "login.cy.js"; bi_testTitle := "logs in";
       bi_memory := loopMemory |} ].

Definition batch1 : BatchData :=
  {| batch := Some items1; batchIndex := 0; totalBatches := 1 |}.

(** ** Vocabulary of the further properties *)

(** The direct samples of a spec. *)
Definition specSamples (data : RunSnapshot) (specName : string) : list Sample :=
  match get (specs data) specName with
  | Some sr => sr_samples sr
  | None => []
  end.

(** The number of measurements the spec report shows for a spec. *)
Definition specCount (data : RunSnapshot) (specName : string) : nat :=
  match get (specs data) specName with
  | Some sr => s_count (aggregateSpecStats sr)
  | None => 0
  end.

(** [l'] is [l] with samples appended. *)
Definition extendedBy (l l' : list Sample) : Prop :=
  exists tail, l' = l ++ tail.

(** No sequence of [data] lost a sample in [data']. *)
Definition grows (data data' : RunSnapshot) : Prop :=
  forall specName testTitle,
    extendedBy (testSamples data specName testTitle)
               (testSamples data' specName testTitle) /\
    extendedBy (specTestSamples data specName testTitle)
               (specTestSamples data' specName testTitle) /\
    extendedBy (specSamples data specName) (specSamples data' specName).

(** The two copies of the samples of every test agree, for the spec names
    that do not contain a colon. *)
Definition consistent (data : RunSnapshot) : Prop :=
  forall specName testTitle,
    has_colon specName = false ->
    testSamples data specName testTitle
    = specTestSamples data specName testTitle.

(** No key occurs twice: in [tests], in [specs], in the tests of a spec. *)
Definition uniqueKeys (data : RunSnapshot) : Prop :=
  NoDup (keys (tests data)) /\
  NoDup (keys (specs data)) /\
  Forall (fun e => NoDup (keys (sr_tests (snd e)))) (specs data).

(** What a property reads of the file of a world. *)
Definition onFile (P : RunSnapshot -> Prop) (w : World) : Prop :=
  match file w with
  | Some data => P data
  | None => True
  end.

(** The call of an entry point of the ingest API. *)
Inductive Call : Type :=
| SpecCall (specName : string) (memoryData : Sample)
| TestCall (specName testTitle : string) (memoryData : Sample)
| BatchCall (batchData : BatchData).

Definition runCall (this : MemoryTracker) (c : Call) : M unit :=
  match c with
  | SpecCall specName memoryData => recordSpecMemory this specName memoryData
  | TestCall specName testTitle memoryData =>
      recordTestMemory this specName testTitle memoryData None
  | BatchCall batchData => recordMemoryBatch this batchData
  end.

(** The world after a sequence of calls; a call that throws does not keep the
    next one from running. *)
Definition runCalls (this : MemoryTracker) (calls : list Call) (w : World)
    : World :=
  fold_left (fun w c => snd (runCall this c w)) calls w.

(** A call whose spec names contain no colon and, for [recordTestMemory],
    whose sample carries its timestamp. *)
Definition plainCall (c : Call) : Prop :=
  match c with
  | SpecCall _ _ => True
  | TestCall specName _ memoryData =>
      has_colon specName = false /\ truthy (timestamp memoryData) = true
  | BatchCall batchData =>
      match batch batchData with
      | Some items => Forall (fun item => has_colon (bi_specName item) = false) items
      | None => True
      end
  end.

(** A write of one entry point to the snapshot it loaded. *)
Inductive Write : Type :=
| WDual (created : option N) (specName testTitle : string) (s1 s2 : Sample)
| WSpec (created : N) (specName : string) (s : Sample).

(** The write of [recordSpecMemory] with its clock readings as parameters. *)
Definition specWrite (created : N) (specName : string) (s : Sample)
    (data : RunSnapshot) : completion RunSnapshot :=
  let specs1 :=
    ensured (specs data) specName
      {| sr_samples := []; sr_tests := []; sr_startTime := Some created |} in
  match read specs1 specName with
  | Own sr => Normal (with_specs data (set specs1 specName (push_spec sr s)))
  | _ => Throw
  end.

Definition applyWrite (wr : Write) (data : RunSnapshot)
    : completion RunSnapshot :=
  match wr with
  | WDual created specName testTitle s1 s2 =>
      dualWrite created specName testTitle s1 s2 data
  | WSpec created specName s => specWrite created specName s data
  end.

(** The writes a call may perform. *)
Definition writeOf (c : Call) (wr : Write) : Prop :=
  match c, wr with
  | SpecCall specName memoryData, WSpec _ specName' s =>
      specName' = specName /\ exists now, s = stampWith now memoryData
  | TestCall specName testTitle memoryData, WDual _ specName' testTitle' s1 s2 =>
      specName' = specName /\ testTitle' = testTitle /\
      (exists now, s1 = stampWith now memoryData) /\
      (exists now, s2 = stampWith now memoryData)
  | BatchCall batchData, WDual created specName testTitle s1 s2 =>
      created = None /\ s1 = s2 /\
      exists items, batch batchData = Some items /\
        In {| bi_specName := specName; bi_testTitle := testTitle;
              bi_memory := s1 |} items
  | _, _ => False
  end.

(** A snapshot reached from another by writes that all complete. *)
Inductive written (c : Call) : RunSnapshot -> RunSnapshot -> Prop :=
| written_refl data : written c data data
| written_step data data' data'' wr :
    writeOf c wr -> applyWrite wr data = Normal data' ->
    written c data' data'' -> written c data data''.

Definition item1 : BatchItem :=
  {| bi_specName := "login.cy.js"; bi_testTitle := "logs in";
     bi_memory := loopMemory |}.

(** The number of samples held by the tests of a spec. *)
Definition sampleCount (o : obj SpecTest) : nat :=
  List.length (List.concat (map st_samples (values o))).

(** No spec of [data] has an own test entry under [title]. *)
Definition titleUnused (title : string) (data : RunSnapshot) : Prop :=
  Forall (fun e => get (sr_tests (snd e)) title = None) (specs data).

(** A batch whose second item is a test titled like a property of
    [Object.prototype]. *)
Definition poisonedBatch : BatchData :=
  {| batch := Some [ item1;
                     {| bi_specName := "login.cy.js";
                        bi_testTitle := "toString";
                        bi_memory := loopMemory |} ];
     batchIndex := 0; totalBatches := 1 |}.

(** The writes of the items of a batch, one after the other. *)
Fixpoint batchFold (items : list BatchItem) (data : RunSnapshot)
    : completion RunSnapshot :=
  match items with
  | [] => Normal data
  | item :: rest =>
      match batchItemWrite item data with
      | Normal data' => batchFold rest data'
      | Throw => Throw
      end
  end.

(** Neither name of the item is a property of [Object.prototype]. *)
Definition plainItem (item : BatchItem) : Prop :=
  inherited (bi_specName item) = false /\ inherited (bi_testTitle item) = false.

(** The size of a batch of the flush. *)
Definition batchSized {A} (b : list A) : Prop :=
  (1 <= List.length b <= 50)%nat.

Definition isSpecRow (l : Line) : bool :=
  match l with
  | SpecRow _ _ _ _ _ _ => true
  | _ => false
  end.

(** The two text cells of a row of a report. *)
Definition textCells (l : Line) : list string :=
  match l with
  | SpecRow name _ _ _ _ peak => [name; peak]
  | TestRow title spec _ _ _ _ => [title; spec]
  | _ => []
  end.

(** A sequence of calls for the witnesses: a spec sample, a test sample that
    carries its timestamp, and a batch. *)
Definition calls1 : list Call :=
  [ SpecCall "login.cy.js" startMemory;
    TestCall "login.cy.js" "logs in" loopMemory;
    BatchCall batch1 ].

(** * Properties *)

(** ** Objects *)

Module JsFacts.
Import Js.

Section Lookup.
Context {V : Type}.
Implicit Types (o : obj V) (k : string) (v : V).

Lemma get_replace_same o k v :
  get o k <> None -> get (replace k v o) k = Some v.
Proof.
  induction o as [|[k' v'] r IH]; simpl; [congruence|].
  destruct (String.eqb k k') eqn:E; simpl.
  - now rewrite String.eqb_refl.
  - rewrite E. exact IH.
Qed.

Lemma get_replace_other o k k' v :
  k' <> k -> get (replace k v o) k' = get o k'.
Proof.
  intros Hne. induction o as [|[k0 v0] r IH]; simpl; [reflexivity|].
  destruct (String.eqb k k0) eqn:E; simpl.
  - apply String.eqb_eq in E. subst k0.
    apply String.eqb_neq in Hne. now rewrite Hne.
  - now rewrite IH.
Qed.

Lemma get_insert_index_same i o k v :
  get o k = None -> get (insert_index i k v o) k = Some v.
Proof.
  induction o as [|[k' v'] r IH]; simpl.
  - now rewrite String.eqb_refl.
  - destruct (String.eqb k k') eqn:E; [congruence|]. intros Hr.
    destruct (array_index k') as [j|]; [destruct (j <? i)%N|]; simpl;
      rewrite ?E, ?String.eqb_refl; auto.
Qed.

Lemma get_insert_index_other i o k k' v :
  k' <> k -> get (insert_index i k v o) k' = get o k'.
Proof.
  intros Hne. apply String.eqb_neq in Hne.
  induction o as [|[k0 v0] r IH]; simpl.
  - now rewrite Hne.
  - destruct (array_index k0) as [j|]; [destruct (j <? i)%N|]; simpl;
      rewrite ?Hne, ?IH; reflexivity.
Qed.

Lemma get_app o o' k :
  get (o ++ o') k = match get o k with Some v => Some v | None => get o' k end.
Proof.
  induction o as [|[k0 v0] r IH]; simpl; [reflexivity|].
  now destruct (String.eqb k k0).
Qed.

(** Reading back what was written. *)
Lemma get_set_same o k v : get (set o k v) k = Some v.
Proof.
  unfold set. destruct (get o k) eqn:G.
  - apply get_replace_same. congruence.
  - destruct (array_index k).
    + now apply get_insert_index_same.
    + rewrite get_app, G. simpl. now rewrite String.eqb_refl.
Qed.

(** A write leaves the other properties alone. *)
Lemma get_set_other o k k' v : k' <> k -> get (set o k v) k' = get o k'.
Proof.
  intros Hne. unfold set. destruct (get o k) eqn:G.
  - now apply get_replace_other.
  - destruct (array_index k).
    + now apply get_insert_index_other.
    + rewrite get_app. destruct (get o k'); [reflexivity|].
      simpl. apply String.eqb_neq in Hne. now rewrite Hne.
Qed.

(** A new key that is not an array index goes last: for such keys the
    iteration order is the order of creation. *)
Lemma set_fresh_last o k v :
  get o k = None -> array_index k = None -> set o k v = o ++ [(k, v)].
Proof. intros G A. unfold set. now rewrite G, A. Qed.

Lemma read_own o k v : get o k = Some v -> read o k = Own v.
Proof. intros G. unfold read. now rewrite G. Qed.

Lemma read_set_same o k v : read (set o k v) k = Own v.
Proof. apply read_own, get_set_same. Qed.

End Lookup.

End JsFacts.

(** ** Numbers *)

Module NumberFacts.

Import Number.

Local Open Scope Q_scope.

Section Pow2.

Lemma pow2_pos (e : Z) : 0 < 2 ^ e.
Proof. apply Qpower_0_lt. reflexivity. Qed.

Lemma pow2_add (a b : Z) : 2 ^ (a + b) == 2 ^ a * 2 ^ b.
Proof. apply Qpower_plus. discriminate. Qed.

Lemma pow2_le (a b : Z) : (a <= b)%Z -> 2 ^ a <= 2 ^ b.
Proof. intros H. apply Qpower_le_compat_l; [exact H | discriminate]. Qed.

Lemma pow2_lt (a b : Z) : (a < b)%Z -> 2 ^ a < 2 ^ b.
Proof. intros H. apply Qpower_lt_compat_l; [exact H | reflexivity]. Qed.

Lemma pow2_lt_inv (a b : Z) : 2 ^ a < 2 ^ b -> (a < b)%Z.
Proof. intros H. apply (Qpower_lt_compat_l_inv 2); [exact H | reflexivity]. Qed.

Lemma pow2_Z (n : Z) : (0 <= n)%Z -> inject_Z (2 ^ n) == 2 ^ n.
Proof. intros H. apply (Zpower_Qpower 2 n H). Qed.

Lemma pow2_div (x : Q) (e : Z) : x / 2 ^ e == x * 2 ^ (- e).
Proof. unfold Qdiv. rewrite Qpower_opp. reflexivity. Qed.

Lemma pow2_cancel (x : Q) (e : Z) : x / 2 ^ e * 2 ^ e == x.
Proof.
  unfold Qdiv. rewrite <- Qmult_assoc, (Qmult_comm (/ _)), Qmult_inv_r, Qmult_1_r.
  - reflexivity.
  - intros H. pose proof (pow2_pos e) as P. rewrite H in P. discriminate.
Qed.

Lemma pow2_div_le (x y : Q) (e : Z) : x <= y -> x / 2 ^ e <= y / 2 ^ e.
Proof.
  intros H. unfold Qdiv. apply Qmult_le_compat_r; [exact H|].
  apply Qlt_le_weak, Qinv_lt_0_compat, pow2_pos.
Qed.

Lemma pow2_div_pow2 (a e : Z) : 2 ^ a / 2 ^ e == 2 ^ (a - e).
Proof. rewrite pow2_div, <- pow2_add. reflexivity. Qed.

End Pow2.

Section Log2.

Lemma ilog2_spec (x : Q) : 0 < x -> 2 ^ ilog2 x <= x /\ x < 2 ^ (ilog2 x + 1).
Proof.
  intros Hx. unfold ilog2.
  destruct (Qle_bool 1 x) eqn:H1.
  - apply Qle_bool_iff in H1.
    assert (Hf : (1 <= Qfloor x)%Z).
    { change 1%Z with (Qfloor 1). apply Qfloor_resp_le, H1. }
    destruct (Z.log2_spec (Qfloor x)) as [L U]; [lia|].
    pose proof (Z.log2_nonneg (Qfloor x)) as Hl.
    split.
    + rewrite <- pow2_Z by exact Hl.
      apply Qle_trans with (inject_Z (Qfloor x)); [|apply Qfloor_le].
      rewrite <- Zle_Qle. exact L.
    + rewrite <- pow2_Z by lia.
      apply Qlt_le_trans with (inject_Z (Qfloor x + 1)); [apply Qlt_floor|].
      rewrite <- Zle_Qle. replace (Z.log2 (Qfloor x) + 1)%Z with (Z.succ (Z.log2 (Qfloor x))) by lia.
      lia.
  - assert (Hlt : x < 1).
    { apply Qnot_le_lt. intros H. apply Qle_bool_iff in H. congruence. }
    assert (Hi : 0 < / x) by (apply Qinv_lt_0_compat, Hx).
    assert (H1i : 1 < / x).
    { apply Qlt_shift_inv_l; [exact Hx|]. rewrite Qmult_1_l. exact Hlt. }
    set (c := Qceiling (/ x)).
    assert (Hc : (1 < c)%Z).
    { rewrite Zlt_Qlt. apply Qlt_le_trans with (/ x); [exact H1i|apply Qle_ceiling]. }
    destruct (Z.log2_up_spec c Hc) as [L U].
    pose proof (Z.log2_up_nonneg c) as Hk.
    assert (Hpos : Z.log2_up c <> 0%Z).
    { intros E. rewrite E in U. simpl in U. lia. }
    split.
    + rewrite Qpower_opp.
      apply Qle_shift_inv_r; [apply pow2_pos|].
      assert (B : / x <= 2 ^ Z.log2_up c).
      { rewrite <- pow2_Z by exact Hk.
        apply Qle_trans with (inject_Z c); [apply Qle_ceiling|].
        rewrite <- Zle_Qle. exact U. }
      apply Qmult_le_l with (z := / x); [exact Hi|].
      rewrite Qmult_1_r, Qmult_assoc, (Qmult_comm (/ x)), Qmult_inv_r, Qmult_1_l.
      * exact B.
      * intros E. rewrite E in Hx. discriminate.
    + replace (- Z.log2_up c + 1)%Z with (- (Z.log2_up c - 1))%Z by lia.
      rewrite Qpower_opp.
      assert (B : 2 ^ (Z.log2_up c - 1) < / x).
      { rewrite <- pow2_Z by lia.
        apply Qle_lt_trans with (inject_Z (c - 1)); [|apply Qceiling_lt].
        rewrite <- Zle_Qle. replace (Z.log2_up c - 1)%Z with (Z.pred (Z.log2_up c)) by lia.
        lia. }
      apply Qlt_shift_inv_l; [apply pow2_pos|].
      apply Qmult_lt_l with (z := / x); [exact Hi|].
      rewrite Qmult_1_r, Qmult_assoc, (Qmult_comm (/ x)), Qmult_inv_r, Qmult_1_l.
      * exact B.
      * intros E. rewrite E in Hx. discriminate.
Qed.

Lemma ilog2_le (x y : Q) : 0 < x -> x <= y -> (ilog2 x <= ilog2 y)%Z.
Proof.
  intros Hx Hxy.
  destruct (ilog2_spec x Hx) as [Lx _].
  destruct (ilog2_spec y) as [_ Uy]; [apply Qlt_le_trans with x; assumption|].
  assert (H : 2 ^ ilog2 x < 2 ^ (ilog2 y + 1)).
  { apply Qle_lt_trans with x; [exact Lx|]. apply Qle_lt_trans with y; assumption. }
  apply pow2_lt_inv in H. lia.
Qed.

Lemma ilog2_lt_pow2 (x : Q) (a : Z) : 0 < x -> x < 2 ^ a -> (ilog2 x < a)%Z.
Proof.
  intros Hx H. destruct (ilog2_spec x Hx) as [L _].
  apply pow2_lt_inv. apply Qle_lt_trans with x; assumption.
Qed.

Lemma ilog2_ge_pow2 (x : Q) (a : Z) : 2 ^ a <= x -> (a <= ilog2 x)%Z.
Proof.
  intros H.
  assert (Hx : 0 < x) by (apply Qlt_le_trans with (2 ^ a); [apply pow2_pos|exact H]).
  destruct (ilog2_spec x Hx) as [_ U].
  assert (H' : 2 ^ a < 2 ^ (ilog2 x + 1)) by (apply Qle_lt_trans with x; assumption).
  apply pow2_lt_inv in H'. lia.
Qed.

End Log2.

Section NearestEven.

Lemma Qfloor_spec (x : Q) : inject_Z (Qfloor x) <= x /\ x < inject_Z (Qfloor x) + 1.
Proof.
  split; [apply Qfloor_le|].
  pose proof (Qlt_floor x) as H. rewrite inject_Z_plus in H. exact H.
Qed.

Lemma nearestEven_floor (x : Q) :
  (Qfloor x <= nearestEven x <= Qfloor x + 1)%Z.
Proof.
  unfold nearestEven.
  destruct (Qcompare (x - inject_Z (Qfloor x)) (1 # 2)); [destruct (Z.even _)| |]; lia.
Qed.

Lemma nearestEven_near (x : Q) :
  x - (1 # 2) <= inject_Z (nearestEven x) /\ inject_Z (nearestEven x) <= x + (1 # 2).
Proof.
  unfold nearestEven. destruct (Qfloor_spec x) as [L U].
  destruct (Qcompare_spec (x - inject_Z (Qfloor x)) (1 # 2)) as [E|E|E];
    [destruct (Z.even _)| |]; rewrite ?inject_Z_plus; change (inject_Z 1) with 1; lra.
Qed.

Lemma nearestEven_Z (k : Z) : nearestEven (inject_Z k) = k.
Proof.
  unfold nearestEven. rewrite Qfloor_Z.
  destruct (Qcompare_spec (inject_Z k - inject_Z k) (1 # 2)) as [E|E|E].
  - exfalso. lra.
  - reflexivity.
  - exfalso. lra.
Qed.

Lemma nearestEven_le (x y : Q) : x <= y -> (nearestEven x <= nearestEven y)%Z.
Proof.
  intros H. pose proof (Qfloor_resp_le x y H) as F.
  destruct (Z.eq_dec (Qfloor x) (Qfloor y)) as [E|N].
  - unfold nearestEven. rewrite E.
    destruct (Qcompare_spec (x - inject_Z (Qfloor y)) (1 # 2)) as [Ex|Ex|Ex];
      destruct (Qcompare_spec (y - inject_Z (Qfloor y)) (1 # 2)) as [Ey|Ey|Ey];
      try destruct (Z.even _); try lia; exfalso; lra.
  - pose proof (nearestEven_floor x). pose proof (nearestEven_floor y). lia.
Qed.

#[global] Instance nearestEven_comp : Proper (Qeq ==> eq) nearestEven.
Proof.
  intros x y E. apply Z.le_antisymm; apply nearestEven_le; rewrite E; apply Qle_refl.
Qed.

End NearestEven.

Section Doubles.

#[global] Instance ilog2_comp : Proper (Qeq ==> eq) ilog2.
Proof.
  intros x y E. unfold ilog2.
  rewrite (Qleb_comp 1 1 (Qeq_refl 1) x y E), (Qfloor_comp x y E).
  rewrite (Qceiling_comp (/ x) (/ y)) by (rewrite E; reflexivity).
  reflexivity.
Qed.

#[global] Instance ulpExp_comp : Proper (Qeq ==> eq) ulpExp.
Proof.
  intros x y E. unfold ulpExp.
  rewrite (ilog2_comp (Qabs x) (Qabs y)) by (rewrite E; reflexivity).
  reflexivity.
Qed.

Lemma toDouble_compat (x y : Q) : x == y -> toDouble x = toDouble y.
Proof.
  intros E. unfold toDouble. rewrite (Qeqb_comp x y E 0 0 (Qeq_refl 0)).
  destruct (Qeq_bool y 0); [reflexivity|].
  cbv zeta. rewrite (ulpExp_comp x y E).
  rewrite (nearestEven_comp (x / 2 ^ ulpExp y) (y / 2 ^ ulpExp y)) by (rewrite E; reflexivity).
  reflexivity.
Qed.

#[global] Instance toDouble_comp : Proper (Qeq ==> Qeq) toDouble.
Proof. intros x y E. rewrite (toDouble_compat x y E). reflexivity. Qed.

Lemma toDouble_0 : toDouble 0 = 0.
Proof. reflexivity. Qed.

Lemma toDouble_pos_eq (x : Q) :
  0 < x -> toDouble x = inject_Z (nearestEven (x / 2 ^ ulpExp x)) * 2 ^ ulpExp x.
Proof.
  intros H. unfold toDouble. destruct (Qeq_bool x 0) eqn:E; [|reflexivity].
  apply Qeq_bool_iff in E. rewrite E in H. discriminate.
Qed.

Lemma ulpExp_pos (x : Q) : 0 < x -> ulpExp x = Z.max (ilog2 x - 52) emin.
Proof.
  intros H. unfold ulpExp. rewrite (Qabs_pos x) by (apply Qlt_le_weak, H). reflexivity.
Qed.

Lemma toDouble_nonneg (x : Q) : 0 <= x -> 0 <= toDouble x.
Proof.
  intros H. unfold toDouble. destruct (Qeq_bool x 0); [apply Qle_refl|].
  cbv zeta. apply Qmult_le_0_compat; [|apply Qlt_le_weak, pow2_pos].
  change 0 with (inject_Z 0). rewrite <- Zle_Qle.
  rewrite <- (nearestEven_Z 0). apply nearestEven_le.
  apply Qle_shift_div_l; [apply pow2_pos|]. rewrite Qmult_0_l. exact H.
Qed.

(** On one grid the rounding is monotone. *)
Lemma grid_le (x y : Q) (e : Z) :
  x <= y ->
  inject_Z (nearestEven (x / 2 ^ e)) * 2 ^ e <= inject_Z (nearestEven (y / 2 ^ e)) * 2 ^ e.
Proof.
  intros H. apply Qmult_le_compat_r; [|apply Qlt_le_weak, pow2_pos].
  rewrite <- Zle_Qle. apply nearestEven_le, pow2_div_le, H.
Qed.

(** A power of two on the grid of exponent [e] is its own rounding. *)
Lemma grid_pow2 (a e : Z) :
  (e <= a)%Z -> inject_Z (nearestEven (2 ^ a / 2 ^ e)) * 2 ^ e == 2 ^ a.
Proof.
  intros H. rewrite pow2_div_pow2, <- pow2_Z by lia.
  rewrite nearestEven_Z, pow2_Z by lia. rewrite <- pow2_add.
  replace (a - e + e)%Z with a by lia. reflexivity.
Qed.

Lemma toDouble_le (x y : Q) : 0 <= x -> x <= y -> toDouble x <= toDouble y.
Proof.
  intros Hx Hxy.
  destruct (Qeq_bool x 0) eqn:Ex.
  { apply Qeq_bool_iff in Ex. rewrite (toDouble_compat x 0 Ex), toDouble_0.
    apply toDouble_nonneg. apply Qle_trans with x; assumption. }
  assert (Px : 0 < x).
  { apply Qeq_bool_neq in Ex. apply Qle_lteq in Hx. destruct Hx as [H|H]; [exact H|].
    exfalso. apply Ex. symmetry. exact H. }
  assert (Py : 0 < y) by (apply Qlt_le_trans with x; assumption).
  rewrite (toDouble_pos_eq x Px), (toDouble_pos_eq y Py), (ulpExp_pos x Px), (ulpExp_pos y Py).
  pose proof (ilog2_le x y Px Hxy) as Hl.
  destruct (ilog2_spec x Px) as [_ Ux]. destruct (ilog2_spec y Py) as [Ly _].
  set (ex := Z.max (ilog2 x - 52) emin). set (ey := Z.max (ilog2 y - 52) emin).
  destruct (Z.eq_dec ex ey) as [E|N].
  - rewrite E. apply grid_le, Hxy.
  - assert (Hey : ey = (ilog2 y - 52)%Z) by (unfold ex, ey in *; lia).
    assert (Hlt : (ilog2 x + 1 <= ilog2 y)%Z) by (unfold ex, ey in *; lia).
    apply Qle_trans with (2 ^ ilog2 y).
    + rewrite <- (grid_pow2 (ilog2 y) ex) by (unfold ex, ey in *; lia).
      apply grid_le. apply Qlt_le_weak. apply Qlt_le_trans with (2 ^ (ilog2 x + 1)); [exact Ux|].
      apply pow2_le, Hlt.
    + rewrite <- (grid_pow2 (ilog2 y) ey) by lia.
      apply grid_le, Ly.
Qed.

Lemma toDouble_exact (m e : Z) :
  (0 <= m < 2 ^ 53)%Z -> (emin <= e)%Z -> toDouble (inject_Z m * 2 ^ e) == inject_Z m * 2 ^ e.
Proof.
  intros Hm He. set (x := inject_Z m * 2 ^ e).
  destruct (Z.eq_dec m 0) as [E0|N0].
  { subst m. unfold x. rewrite (toDouble_compat _ 0) by (rewrite Qmult_0_l; reflexivity).
    rewrite toDouble_0, Qmult_0_l. reflexivity. }
  assert (Px : 0 < x).
  { unfold x. apply Qmult_lt_0_compat; [|apply pow2_pos].
    change 0 with (inject_Z 0). rewrite <- Zlt_Qlt. lia. }
  rewrite (toDouble_pos_eq x Px), (ulpExp_pos x Px).
  assert (Hl : (ilog2 x < 53 + e)%Z).
  { apply ilog2_lt_pow2; [exact Px|]. unfold x.
    rewrite pow2_add. apply Qmult_lt_compat_r; [apply pow2_pos|].
    rewrite <- pow2_Z by lia. rewrite <- Zlt_Qlt. lia. }
  set (ex := Z.max (ilog2 x - 52) emin).
  assert (Hex : (ex <= e)%Z) by (unfold ex; lia).
  assert (Hq : x / 2 ^ ex == inject_Z (m * 2 ^ (e - ex))).
  { unfold x, Qdiv. rewrite inject_Z_mult, pow2_Z by lia.
    rewrite <- Qmult_assoc. apply Qmult_comp; [reflexivity|].
    rewrite <- Qpower_opp, <- pow2_add. reflexivity. }
  rewrite (nearestEven_comp _ _ Hq), nearestEven_Z.
  rewrite inject_Z_mult, pow2_Z by lia.
  rewrite <- Qmult_assoc, <- pow2_add.
  replace (e - ex + ex)%Z with e by lia. reflexivity.
Qed.

Lemma toDouble_Z (k : Z) : (0 <= k < 2 ^ 53)%Z -> toDouble (inject_Z k) == inject_Z k.
Proof.
  intros H. pose proof (toDouble_exact k 0 H) as E.
  assert (X : inject_Z k * 2 ^ 0 == inject_Z k) by (simpl; apply Qmult_1_r).
  rewrite <- X at 2. rewrite <- E by (unfold emin; lia).
  rewrite (toDouble_compat _ _ X). reflexivity.
Qed.

Lemma toDouble_pow2 (a : Z) : (emin <= a)%Z -> toDouble (2 ^ a) == 2 ^ a.
Proof.
  intros H. pose proof (toDouble_exact 1 a) as E.
  assert (X : inject_Z 1 * 2 ^ a == 2 ^ a) by apply Qmult_1_l.
  rewrite <- X at 2. rewrite <- E by lia.
  rewrite (toDouble_compat _ _ X). reflexivity.
Qed.

Lemma toDouble_double_exact (x : Q) : double x -> toDouble x == x.
Proof.
  intros (m & e & Hm & He & E). rewrite (toDouble_compat _ _ E), E. apply toDouble_exact; assumption.
Qed.

(** The result of a rounding is a double. *)
Lemma toDouble_double (x : Q) : 0 <= x -> double (toDouble x).
Proof.
  intros Hx.
  destruct (Qeq_bool x 0) eqn:Ex.
  { apply Qeq_bool_iff in Ex. rewrite (toDouble_compat x 0 Ex), toDouble_0.
    exists 0%Z, 0%Z. split; [lia|]. split; [unfold emin; lia|]. reflexivity. }
  assert (Px : 0 < x).
  { apply Qeq_bool_neq in Ex. apply Qle_lteq in Hx. destruct Hx as [H|H]; [exact H|].
    exfalso. apply Ex. symmetry. exact H. }
  rewrite (toDouble_pos_eq x Px), (ulpExp_pos x Px).
  destruct (ilog2_spec x Px) as [_ U].
  set (ex := Z.max (ilog2 x - 52) emin).
  set (m := nearestEven (x / 2 ^ ex)).
  assert (Hm0 : (0 <= m)%Z).
  { unfold m. rewrite <- (nearestEven_Z 0). apply nearestEven_le.
    apply Qle_shift_div_l; [apply pow2_pos|]. rewrite Qmult_0_l. exact Hx. }
  assert (Hm : (m <= 2 ^ 53)%Z).
  { unfold m. rewrite <- (nearestEven_Z (2 ^ 53)). apply nearestEven_le.
    rewrite pow2_Z by lia.
    apply Qle_trans with (2 ^ (53 + ex) / 2 ^ ex).
    - apply pow2_div_le. apply Qlt_le_weak.
      apply Qlt_le_trans with (2 ^ (ilog2 x + 1)); [exact U|].
      apply pow2_le. unfold ex. lia.
    - rewrite pow2_div_pow2. replace (53 + ex - ex)%Z with 53%Z by lia. apply Qle_refl. }
  destruct (Z.eq_dec m (2 ^ 53)) as [E|N].
  - exists (2 ^ 52)%Z, (ex + 1)%Z. split; [lia|]. split; [unfold ex; lia|].
    rewrite E, pow2_add.
    setoid_replace (inject_Z (2 ^ 53)) with (inject_Z (2 ^ 52) * 2 ^ 1) by reflexivity.
    ring.
  - exists m, ex. split; [lia|]. split; [unfold ex; lia|]. reflexivity.
Qed.

Lemma toDouble_idem (x : Q) : 0 <= x -> toDouble (toDouble x) == toDouble x.
Proof. intros H. apply toDouble_double_exact, toDouble_double, H. Qed.

(** In the normal range the relative error is at most 2^-53. *)
Lemma toDouble_error (x : Q) :
  2 ^ (-1022) <= x -> x * (1 - 2 ^ (-53)) <= toDouble x /\ toDouble x <= x * (1 + 2 ^ (-53)).
Proof.
  intros Hx.
  assert (Px : 0 < x) by (apply Qlt_le_trans with (2 ^ (-1022)); [apply pow2_pos|exact Hx]).
  pose proof (ilog2_ge_pow2 x _ Hx) as Hl.
  destruct (ilog2_spec x Px) as [L _].
  rewrite (toDouble_pos_eq x Px), (ulpExp_pos x Px).
  replace (Z.max (ilog2 x - 52) emin) with (ilog2 x - 52)%Z by (unfold emin; lia).
  set (e := (ilog2 x - 52)%Z).
  destruct (nearestEven_near (x / 2 ^ e)) as [A B].
  pose proof (pow2_pos e) as Pe.
  assert (H2 : 2 ^ e * (1 # 2) <= x * 2 ^ (-53)).
  { apply Qle_trans with (2 ^ ilog2 x * 2 ^ (-53)).
    - rewrite <- pow2_add. replace (ilog2 x + -53)%Z with (e + -1)%Z by (unfold e; lia).
      rewrite pow2_add. apply Qle_refl.
    - apply Qmult_le_compat_r; [exact L|]. apply Qlt_le_weak, pow2_pos. }
  assert (A' : (x / 2 ^ e - (1 # 2)) * 2 ^ e <= inject_Z (nearestEven (x / 2 ^ e)) * 2 ^ e).
  { apply Qmult_le_compat_r; [exact A|apply Qlt_le_weak, Pe]. }
  assert (B' : inject_Z (nearestEven (x / 2 ^ e)) * 2 ^ e <= (x / 2 ^ e + (1 # 2)) * 2 ^ e).
  { apply Qmult_le_compat_r; [exact B|apply Qlt_le_weak, Pe]. }
  pose proof (pow2_cancel x e) as C.
  set (r := inject_Z (nearestEven (x / 2 ^ e)) * 2 ^ e) in *.
  set (q := x / 2 ^ e) in *. set (p := 2 ^ e) in *. set (u := 2 ^ (-53)) in *.
  split; nra.
Qed.

End Doubles.

End NumberFacts.

(** ** Aggregator *)

Import NumberFacts.

Section Rounding.

Local Open Scope Q_scope.

Lemma Math_round_nearest (x : Q) :
  x - (1 # 2) < inject_Z (Math_round x) /\ inject_Z (Math_round x) <= x + (1 # 2).
Proof.
  unfold Math_round. split.
  - pose proof (Qlt_floor (x + (1 # 2))) as H.
    rewrite inject_Z_plus in H. change (inject_Z 1) with 1 in H. lra.
  - apply Qfloor_le.
Qed.

Lemma Math_round_nonneg (x : Q) : 0 <= x -> (0 <= Math_round x)%Z.
Proof.
  intros Hx. unfold Math_round.
  change 0%Z with (Qfloor 0). apply Qfloor_resp_le. lra.
Qed.

Lemma Math_round_le (x y : Q) : x <= y -> (Math_round x <= Math_round y)%Z.
Proof.
  intros H. unfold Math_round. apply Qfloor_resp_le. lra.
Qed.

Lemma Math_round_compat (x y : Q) : x == y -> Math_round x = Math_round y.
Proof.
  intros E. apply Z.le_antisymm; apply Math_round_le; rewrite E; apply Qle_refl.
Qed.

Lemma num_nonneg (n : N) : 0 <= num n.
Proof.
  unfold num. change 0 with (inject_Z 0). rewrite <- Zle_Qle. lia.
Qed.

Lemma num_le (a b : N) : (a <= b)%N -> num a <= num b.
Proof. intros H. unfold num. rewrite <- Zle_Qle. lia. Qed.

Lemma num_add (a b : N) : num (a + b) == num a + num b.
Proof. unfold num. rewrite N2Z.inj_add, inject_Z_plus. reflexivity. Qed.

(** *** The operations on non-negative Numbers *)

Lemma div_le (x y c : Q) :
  0 < c -> 0 <= x -> x <= y -> 0 <= Number.div x c /\ Number.div x c <= Number.div y c.
Proof.
  intros Hc Hx Hxy. unfold Number.div.
  assert (H0 : 0 <= x / c) by (apply Qle_shift_div_l; [exact Hc|]; lra).
  split; [apply toDouble_nonneg, H0|].
  apply toDouble_le; [exact H0|].
  unfold Qdiv. apply Qmult_le_compat_r; [exact Hxy|].
  apply Qlt_le_weak, Qinv_lt_0_compat, Hc.
Qed.

Lemma mul_le (x y c : Q) :
  0 <= c -> 0 <= x -> x <= y -> 0 <= Number.mul x c /\ Number.mul x c <= Number.mul y c.
Proof.
  intros Hc Hx Hxy. unfold Number.mul.
  assert (H0 : 0 <= x * c) by (apply Qmult_le_0_compat; assumption).
  split; [apply toDouble_nonneg, H0|].
  apply toDouble_le; [exact H0|].
  apply Qmult_le_compat_r; assumption.
Qed.

Lemma div_compat (x y c : Q) : x == y -> Number.div x c = Number.div y c.
Proof. intros E. apply toDouble_compat. rewrite E. reflexivity. Qed.

Lemma mul_compat (x y c : Q) : x == y -> Number.mul x c = Number.mul y c.
Proof. intros E. apply toDouble_compat. rewrite E. reflexivity. Qed.

Lemma Qeq_div_compat (x y c : Q) : x == y -> Number.div x c == Number.div y c.
Proof. intros E. rewrite (div_compat x y c E). reflexivity. Qed.

Lemma add_compat (x y c : Q) : x == y -> Number.add x c = Number.add y c.
Proof. intros E. apply toDouble_compat. rewrite E. reflexivity. Qed.

(** *** The conversion to mebibytes *)

Lemma toMB_compat (x y : Q) : x == y -> toMB x = toMB y.
Proof.
  intros E. unfold toMB. now rewrite (div_compat x y 1024 E).
Qed.

Lemma toMB_le (x y : Q) : 0 <= x -> x <= y -> toMB x <= toMB y.
Proof.
  intros Hx Hxy. unfold toMB.
  destruct (div_le x y 1024) as [A0 A]; [reflexivity|exact Hx|exact Hxy|].
  destruct (div_le _ _ 1024 eq_refl A0 A) as [B0 B].
  destruct (mul_le _ _ 100 ltac:(discriminate) B0 B) as [C0 C].
  apply div_le; [reflexivity| |].
  - change 0 with (inject_Z 0). rewrite <- Zle_Qle. apply Math_round_nonneg, C0.
  - rewrite <- Zle_Qle. apply Math_round_le, C.
Qed.

Lemma toMB_nonneg (x : Q) : 0 <= x -> 0 <= toMB x.
Proof.
  intros Hx. unfold toMB.
  destruct (div_le x x 1024) as [A0 _]; [reflexivity|exact Hx|apply Qle_refl|].
  destruct (div_le _ _ 1024 eq_refl A0 (Qle_refl _)) as [B0 _].
  destruct (mul_le _ _ 100 ltac:(discriminate) B0 (Qle_refl _)) as [C0 _].
  apply div_le with (y := inject_Z (Math_round (Number.mul (Number.div (Number.div x 1024) 1024) 100)));
    [reflexivity| |apply Qle_refl].
  change 0 with (inject_Z 0). rewrite <- Zle_Qle. apply Math_round_nonneg, C0.
Qed.

(** Below 2^53 / 100 bytes the conversion of a byte count is exact up to
    [Math.round]. *)
Lemma toMB_exact (v : N) :
  (100 * v < 2 ^ 53)%N ->
  toMB (num v) = hundredths (Math_round (MiB (num v) * 100)).
Proof.
  intros Hv. unfold toMB, hundredths.
  assert (Hz : (0 <= Z.of_N v)%Z) by lia.
  assert (Hb : (100 * Z.of_N v < 2 ^ 53)%Z).
  { change (2 ^ 53)%Z with (Z.of_N (2 ^ 53)). lia. }
  assert (E1 : Number.div (num v) 1024 == num v / 1024).
  { unfold Number.div.
    assert (X : num v / 1024 == inject_Z (Z.of_N v) * 2 ^ (-10)) by reflexivity.
    rewrite (toDouble_compat _ _ X), X.
    apply toDouble_exact; [lia|unfold Number.emin; lia]. }
  assert (E2 : Number.div (Number.div (num v) 1024) 1024 == num v / 1024 / 1024).
  { unfold Number.div at 1.
    assert (X : Number.div (num v) 1024 / 1024 == inject_Z (Z.of_N v) * 2 ^ (-20)).
    { rewrite E1. unfold num. change (2 ^ (-20)) with (1 # 1048576). field. }
    rewrite (toDouble_compat _ _ X).
    assert (X' : num v / 1024 / 1024 == inject_Z (Z.of_N v) * 2 ^ (-20)).
    { unfold num. change (2 ^ (-20)) with (1 # 1048576). field. }
    rewrite X'.
    apply toDouble_exact; [lia|unfold Number.emin; lia]. }
  assert (E3 : Number.mul (Number.div (Number.div (num v) 1024) 1024) 100
               == MiB (num v) * 100).
  { unfold Number.mul.
    assert (X : Number.div (Number.div (num v) 1024) 1024 * 100
                == inject_Z (100 * Z.of_N v) * 2 ^ (-20)).
    { rewrite E2, inject_Z_mult. unfold num. change (2 ^ (-20)) with (1 # 1048576). field. }
    rewrite (toDouble_compat _ _ X).
    assert (X' : MiB (num v) * 100 == inject_Z (100 * Z.of_N v) * 2 ^ (-20)).
    { rewrite inject_Z_mult. unfold MiB, num. change (2 ^ (-20)) with (1 # 1048576). field. }
    rewrite X'.
    apply toDouble_exact; [lia|unfold Number.emin; lia]. }
  unfold Number.div at 1. now rewrite (Math_round_compat _ _ E3).
Qed.

Lemma toMB_rounded2 (v : N) :
  (100 * v < 2 ^ 53)%N -> rounded2 (MiB (num v)) (toMB (num v)).
Proof.
  intros Hv. rewrite (toMB_exact v Hv).
  exists (Math_round (MiB (num v) * 100)). split; [reflexivity|].
  apply Math_round_nearest.
Qed.

End Rounding.

Section Extremes.

Local Open Scope N_scope.

Lemma fold_min_spec (vs : list N) :
  forall v, minimum_of (v :: vs) (fold_left N.min vs v).
Proof.
  induction vs as [|a vs IH]; intros v; simpl.
  - split; [now left|]. constructor; [lia|constructor].
  - destruct (IH (N.min v a)) as [Hin Hall].
    inversion Hall as [|? ? Hhd Htl]; subst. split.
    + destruct Hin as [Hin|Hin]; [|now right; right].
      rewrite <- Hin. destruct (N.min_spec v a) as [[_ ->]|[_ ->]]; simpl; auto.
    + constructor; [lia|]. constructor; [lia|exact Htl].
Qed.

Lemma fold_max_spec (vs : list N) :
  forall v, maximum_of (v :: vs) (fold_left N.max vs v).
Proof.
  induction vs as [|a vs IH]; intros v; simpl.
  - split; [now left|]. constructor; [lia|constructor].
  - destruct (IH (N.max v a)) as [Hin Hall].
    inversion Hall as [|? ? Hhd Htl]; subst. split.
    + destruct Hin as [Hin|Hin]; [|now right; right].
      rewrite <- Hin. destruct (N.max_spec v a) as [[_ ->]|[_ ->]]; simpl; auto.
    + constructor; [lia|]. constructor; [lia|exact Htl].
Qed.

Lemma total_app (l l' : list N) : total (l ++ l') = total l + total l'.
Proof. induction l; simpl; lia. Qed.

End Extremes.

Section Sums.

Local Open Scope Q_scope.

Local Abbreviation step := (fun (sum : Q) (val : N) => Number.add sum (num val)).

Lemma fold_sum_compat (vs : list N) :
  forall acc acc', acc == acc' -> fold_left step vs acc == fold_left step vs acc'.
Proof.
  induction vs as [|v vs IH]; intros acc acc' E; cbn [fold_left]; [exact E|].
  apply IH. rewrite (add_compat acc acc' (num v) E). reflexivity.
Qed.

(** While the total stays below 2^53 every partial sum is exact. *)
Lemma fold_sum_exact (vs : list N) :
  forall (acc : Q) (a : N),
    acc == num a -> (a + total vs < 2 ^ 53)%N ->
    fold_left step vs acc == num (a + total vs).
Proof.
  induction vs as [|v vs IH]; intros acc a E Hb; cbn [fold_left total fold_right].
  - rewrite N.add_0_r. exact E.
  - fold (total vs). cbn [total fold_right] in Hb. fold (total vs) in Hb.
    rewrite N.add_assoc. apply IH; [|lia].
    unfold Number.add.
    assert (X : acc + num v == inject_Z (Z.of_N (a + v))).
    { rewrite E. symmetry. apply num_add. }
    rewrite (toDouble_compat _ _ X). apply toDouble_Z.
    change (2 ^ 53)%Z with (Z.of_N (2 ^ 53)). lia.
Qed.

Lemma floatSum_exact (values : list N) :
  (total values < 2 ^ 53)%N -> floatSum values == num (total values).
Proof.
  intros H. unfold floatSum.
  rewrite (fold_sum_exact values 0 0%N); [reflexivity|reflexivity|exact H].
Qed.

(** Every partial sum is a non-negative double. *)
Lemma fold_sum_double (vs : list N) :
  forall acc, 0 <= acc -> double acc ->
    0 <= fold_left step vs acc /\ double (fold_left step vs acc).
Proof.
  induction vs as [|v vs IH]; intros acc H0 Hd; cbn [fold_left]; [now split|].
  assert (Hs : 0 <= acc + num v) by (pose proof (num_nonneg v); lra).
  apply IH; [apply toDouble_nonneg, Hs|apply toDouble_double, Hs].
Qed.

Lemma double_0 : double 0.
Proof.
  exists 0%Z, 0%Z. split; [lia|]. split; [unfold Number.emin; lia|reflexivity].
Qed.

(** A zero among the values leaves the sum as it is. *)
Lemma floatSum_skip_zero (l l' : list N) :
  floatSum (l ++ 0%N :: l') == floatSum (l ++ l').
Proof.
  unfold floatSum. rewrite !fold_left_app. cbn [fold_left].
  apply fold_sum_compat.
  destruct (fold_sum_double l 0 (Qle_refl 0) double_0) as [H0 Hd].
  cbv beta. set (acc := fold_left step l 0) in *. unfold Number.add.
  assert (X : acc + num 0 == acc).
  { change (num 0) with 0. apply Qplus_0_r. }
  rewrite (toDouble_compat _ _ X). apply toDouble_double_exact, Hd.
Qed.

Lemma floatSum_nonneg (values : list N) : 0 <= floatSum values.
Proof. apply (fold_sum_double values 0 (Qle_refl 0) double_0). Qed.

End Sums.

Lemma calculateStats_cons (s : Sample) (rest : list Sample) :
  let values := map heapOf (s :: rest) in
  calculateStats (Some (s :: rest)) =
  {| s_min := toMB (num (Math_min values));
     s_max := toMB (num (Math_max values));
     s_avg := toMB (Number.div (floatSum values)
                      (inject_Z (Z.of_nat (List.length values))));
     s_count := List.length values |}.
Proof.
  cbv beta iota zeta delta [calculateStats toMB floatSum heapOf]. reflexivity.
Qed.

Lemma calculateStats_nonempty (samples : list Sample) :
  samples <> [] ->
  let values := map heapOf samples in
  calculateStats (Some samples) =
  {| s_min := toMB (num (Math_min values));
     s_max := toMB (num (Math_max values));
     s_avg := toMB (Number.div (floatSum values)
                      (inject_Z (Z.of_nat (List.length values))));
     s_count := List.length values |}.
Proof.
  destruct samples as [|s rest]; [congruence|]. intros _.
  apply calculateStats_cons.
Qed.

(** The maximum column is never negative. *)
Lemma s_max_nonneg (samples : option (list Sample)) :
  (0 <= s_max (calculateStats samples))%Q.
Proof.
  destruct samples as [[|s rest]|]; try (simpl; lra).
  rewrite calculateStats_cons. cbv zeta. cbn [s_max].
  apply toMB_nonneg, num_nonneg.
Qed.

Lemma Math_min_spec (values : list N) :
  values <> [] -> minimum_of values (Math_min values).
Proof.
  destruct values as [|v vs]; [congruence|]. intros _. apply fold_min_spec.
Qed.

Lemma Math_max_spec (values : list N) :
  values <> [] -> maximum_of values (Math_max values).
Proof.
  destruct values as [|v vs]; [congruence|]. intros _. apply fold_max_spec.
Qed.

Lemma mean_of_quotient (values : list N) :
  values <> [] ->
  mean_of values (num (total values) / inject_Z (Z.of_nat (List.length values)))%Q.
Proof.
  intros Hne. unfold mean_of. rewrite Qmult_comm. apply Qmult_div_r.
  change 0%Q with (inject_Z 0). rewrite inject_Z_injective.
  destruct values; [congruence|]. simpl List.length. lia.
Qed.

Lemma heapOf_safe (s : Sample) : (heapOf s < 2 ^ 53)%N.
Proof.
  unfold heapOf, or0. destruct (usedJSHeapSize s) as [b|]; [|reflexivity].
  apply N.ltb_lt, byteCount_safe.
Qed.

Section Average.

Local Open Scope Q_scope.

Local Abbreviation u := (1 # 9007199254740992).

(** In the normal range a rounding keeps a power-of-two lower bound and has a
    relative error of at most 2^-53. *)
Lemma toDouble_rel (x lo : Q) (a : Z) :
  (-1022 <= a)%Z -> lo == 2 ^ a -> lo <= x ->
  lo <= Number.toDouble x /\
  x * (1 - u) <= Number.toDouble x /\ Number.toDouble x <= x * (1 + u).
Proof.
  intros Ha Elo Hx. rewrite Elo in Hx.
  assert (Hn : 2 ^ (-1022) <= x).
  { apply Qle_trans with (2 ^ a); [apply pow2_le, Ha|exact Hx]. }
  destruct (toDouble_error x Hn) as [L U].
  change (2 ^ (-53)) with u in L, U.
  split; [|split; assumption].
  rewrite Elo, <- (toDouble_pow2 a) by (unfold Number.emin; lia).
  apply toDouble_le; [apply Qlt_le_weak, pow2_pos|exact Hx].
Qed.

(** Below a power of two a rounding stays below it. *)
Lemma toDouble_below (x hi : Q) (a : Z) :
  (Number.emin <= a)%Z -> hi == 2 ^ a -> 0 <= x -> x <= hi ->
  0 <= Number.toDouble x /\ Number.toDouble x <= hi.
Proof.
  intros Ha Ehi H0 Hx. split; [apply toDouble_nonneg, H0|].
  rewrite Ehi in *. rewrite <- (toDouble_pow2 a Ha).
  apply toDouble_le; assumption.
Qed.

(** The average column: the quotient of an exact sum below 2^46 by the length
    is converted to a nearest whole number of hundredths. *)
Lemma avg_nearest2 (S : N) (n : nat) :
  (0 < n)%nat -> (S < 2 ^ 46)%N ->
  nearest2 (MiB (num S / inject_Z (Z.of_nat n)))
           (toMB (Number.div (num S) (inject_Z (Z.of_nat n)))).
Proof.
  intros Hn HS.
  set (nz := Z.of_nat n). set (Sz := Z.of_N S).
  assert (Hnz : (1 <= nz)%Z) by (unfold nz; lia).
  assert (HSz : (0 <= Sz < 2 ^ 46)%Z).
  { unfold Sz. change (2 ^ 46)%Z with (Z.of_N (2 ^ 46)). lia. }
  set (N' := inject_Z nz).
  assert (HN : 1 <= N') by (unfold N'; change 1 with (inject_Z 1); rewrite <- Zle_Qle; exact Hnz).
  set (Sq := num S).
  assert (ESq : Sq = inject_Z Sz) by reflexivity.
  assert (HSq : 0 <= Sq /\ Sq < 70368744177664).
  { rewrite ESq. split.
    - change 0 with (inject_Z 0). rewrite <- Zle_Qle. lia.
    - change 70368744177664 with (inject_Z (2 ^ 46)). rewrite <- Zlt_Qlt. lia. }
  set (a0 := Sq / N').
  assert (E0 : a0 * N' == Sq).
  { unfold a0. field. intros E. rewrite E in HN. lra. }
  assert (H0 : 0 <= a0).
  { unfold a0. apply Qle_shift_div_l; [lra|]. lra. }
  unfold toMB, Number.div at 3, Number.mul. fold a0.
  unfold Number.div at 2 3, MiB, Qdiv. change (/ 1024) with (1 # 1024).
  set (a1 := Number.toDouble a0).
  set (a2 := Number.toDouble (a1 * (1 # 1024))).
  set (a3 := Number.toDouble (a2 * (1 # 1024))).
  set (a4 := Number.toDouble (a3 * 100)).
  set (k := Math_round a4).
  exists k. split; [unfold hundredths, Qdiv; apply Qeq_refl|].
  destruct (Math_round_nearest a4) as [KL KU]. fold k in KL, KU.
  set (K := inject_Z k) in *.
  destruct (Qlt_le_dec a0 (1 # 16384)) as [Small|Big].
  - (* the quotient is tiny: the result is 0 *)
    destruct (toDouble_below a0 (1 # 16384) (-14)) as [A0 A1];
      [unfold Number.emin; lia|reflexivity|exact H0|lra|]. fold a1 in A0, A1.
    destruct (toDouble_below (a1 * (1 # 1024)) (1 # 16777216) (-24)) as [B0 B1];
      [unfold Number.emin; lia|reflexivity|lra|lra|]. fold a2 in B0, B1.
    destruct (toDouble_below (a2 * (1 # 1024)) (1 # 17179869184) (-34)) as [C0 C1];
      [unfold Number.emin; lia|reflexivity|lra|lra|]. fold a3 in C0, C1.
    destruct (toDouble_below (a3 * 100) (1 # 134217728) (-27)) as [D0 D1];
      [unfold Number.emin; lia|reflexivity|lra|lra|]. fold a4 in D0, D1.
    assert (Hk : k = 0%Z).
    { assert (X : (-1 < k)%Z).
      { rewrite Zlt_Qlt. fold K. change (inject_Z (-1)) with (-1). lra. }
      assert (X' : (k < 1)%Z).
      { rewrite Zlt_Qlt. fold K. change (inject_Z 1) with 1. lra. }
      lia. }
    unfold K. rewrite Hk. change (inject_Z 0) with 0. split; lra.
  - (* the quotient is normal: four roundings of relative error 2^-53 *)
    destruct (toDouble_rel a0 (1 # 16384) (-14)) as (A0 & AL & AU);
      [lia|reflexivity|exact Big|]. fold a1 in A0, AL, AU.
    destruct (toDouble_rel (a1 * (1 # 1024)) (1 # 16777216) (-24)) as (B0 & BL & BU);
      [lia|reflexivity|lra|]. fold a2 in B0, BL, BU.
    destruct (toDouble_rel (a2 * (1 # 1024)) (1 # 17179869184) (-34)) as (C0 & CL & CU);
      [lia|reflexivity|lra|]. fold a3 in C0, CL, CU.
    destruct (toDouble_rel (a3 * 100) (1 # 17179869184) (-34)) as (D0 & DL & DU);
      [lia|reflexivity|lra|]. fold a4 in D0, DL, DU.
    assert (UP : a4 <= a0 * ((1 + u) * (1 + u) * (1 + u) * (1 + u) * (100 # 1048576))) by lra.
    assert (LO : a0 * ((1 - u) * (1 - u) * (1 - u) * (1 - u) * (100 # 1048576)) <= a4) by lra.
    split.
    + (* not more than half a hundredth below *)
      apply Qnot_lt_le. intros Hlt.
      set (P := ((2 * k + 1) * nz)%Z).
      assert (F1 : inject_Z P == (2 * K + 1) * N').
      { unfold P, K, N'. rewrite inject_Z_mult, inject_Z_plus, inject_Z_mult. reflexivity. }
      assert (G : K * N' < (a0 * (1 # 1024) * (1 # 1024) * 100 - (1 # 2)) * N').
      { apply Qmult_lt_compat_r; [lra|exact Hlt]. }
      assert (GZ : (P * 1048576 < 200 * Sz)%Z).
      { rewrite Zlt_Qlt, !inject_Z_mult, F1, <- ESq.
        change (inject_Z 1048576) with 1048576. change (inject_Z 200) with 200.
        lra. }
      assert (GZ' : (P * 131072 + 1 <= 25 * Sz)%Z) by lia.
      assert (GQ : inject_Z P * 131072 + 1 <= 25 * Sq).
      { rewrite ESq. change 131072 with (inject_Z 131072). change 1 with (inject_Z 1).
        change 25 with (inject_Z 25).
        rewrite <- !inject_Z_mult, <- inject_Z_plus, <- Zle_Qle. exact GZ'. }
      assert (M : a0 * ((1 - u) * (1 - u) * (1 - u) * (1 - u) * (100 # 1048576)) * N'
                  < (K + (1 # 2)) * N').
      { apply Qmult_lt_compat_r; lra. }
      rewrite F1 in GQ. lra.
    + (* not more than half a hundredth above *)
      apply Qnot_lt_le. intros Hlt.
      set (P := ((2 * k - 1) * nz)%Z).
      assert (F1 : inject_Z P == (2 * K - 1) * N').
      { unfold P, K, N'. replace (2 * k - 1)%Z with (2 * k + -1)%Z by lia.
        rewrite inject_Z_mult, inject_Z_plus, inject_Z_mult. reflexivity. }
      assert (G : (a0 * (1 # 1024) * (1 # 1024) * 100 + (1 # 2)) * N' < K * N').
      { apply Qmult_lt_compat_r; [lra|exact Hlt]. }
      assert (GZ : (200 * Sz < P * 1048576)%Z).
      { rewrite Zlt_Qlt, !inject_Z_mult, F1, <- ESq.
        change (inject_Z 1048576) with 1048576. change (inject_Z 200) with 200.
        lra. }
      assert (GZ' : (25 * Sz + 1 <= P * 131072)%Z) by lia.
      assert (GQ : 25 * Sq + 1 <= inject_Z P * 131072).
      { rewrite ESq. change 131072 with (inject_Z 131072). change 1 with (inject_Z 1).
        change 25 with (inject_Z 25).
        rewrite <- !inject_Z_mult, <- inject_Z_plus, <- Zle_Qle. exact GZ'. }
      assert (M : (K - (1 # 2)) * N'
                  <= a0 * ((1 + u) * (1 + u) * (1 + u) * (1 + u) * (100 # 1048576)) * N').
      { apply Qmult_le_compat_r; lra. }
      rewrite F1 in GQ. lra.
Qed.

End Average.

Lemma in_le_total (values : list N) (v : N) : In v values -> (v <= total values)%N.
Proof.
  induction values as [|a values IH]; intros Hin; [destruct Hin|].
  cbn [total fold_right]. fold (total values).
  destruct Hin as [->|Hin]; [lia|]. specialize (IH Hin). lia.
Qed.

Lemma length_pos_Q (values : list N) :
  values <> [] -> (0 < inject_Z (Z.of_nat (List.length values)))%Q.
Proof.
  intros Hne. change 0%Q with (inject_Z 0). rewrite <- Zlt_Qlt.
  destruct values; [congruence|]. simpl List.length. lia.
Qed.

(** With an exact sum the average column is the conversion of the rounded
    quotient of the total by the length. *)
Lemma s_avg_exact_sum (samples : list Sample) :
  samples <> [] ->
  (total (map heapOf samples) < 2 ^ 53)%N ->
  s_avg (calculateStats (Some samples)) =
  toMB (Number.div (num (total (map heapOf samples)))
          (inject_Z (Z.of_nat (List.length samples)))).
Proof.
  intros Hne Hb. rewrite (calculateStats_nonempty _ Hne). cbv zeta. cbn [s_avg].
  rewrite length_map. apply toMB_compat.
  rewrite (div_compat _ _ _ (floatSum_exact _ Hb)). reflexivity.
Qed.

(** C2, as amended. [calculateStats] (the spec's [statsOf]) returns zeros with
    count 0 for an absent or empty sequence; for any other sequence its
    [count] is the length of the sequence, its [min] and [max] are the
    minimum and the maximum of the samples' [usedJSHeapSize], converted to
    mebibytes and rounded to two decimal places, as long as that reading is
    below 2^53 / 100 bytes, and its [avg] is a two-decimal value nearest to
    the arithmetic mean in mebibytes, which on a tie may be the lower one, as
    long as the readings sum to less than 2^46 bytes; on the byte counts
    1048576, 2097152, 3145728 it returns min 1, max 3, avg 2, count 3. *)
Theorem calculateStats_spec :
  calculateStats None = zeroStats /\
  calculateStats (Some []) = zeroStats /\
  (forall (s : Sample) (rest : list Sample),
     let samples := s :: rest in
     let st := calculateStats (Some samples) in
     exists (mn mx : N) (mean : Q),
       minimum_of (map heapOf samples) mn /\
       maximum_of (map heapOf samples) mx /\
       mean_of (map heapOf samples) mean /\
       ((100 * mn < 2 ^ 53)%N -> rounded2 (MiB (num mn)) (s_min st)) /\
       ((100 * mx < 2 ^ 53)%N -> rounded2 (MiB (num mx)) (s_max st)) /\
       ((total (map heapOf samples) < 2 ^ 46)%N -> nearest2 (MiB mean) (s_avg st)) /\
       s_count st = List.length samples) /\
  (forall (t1 t2 t3 : option N) (u1 u2 u3 l1 l2 l3 : option Bytes),
     let st := calculateStats
                 (Some [ mkSample t1 (Some (bytes 1048576)) u1 l1;
                         mkSample t2 (Some (bytes 2097152)) u2 l2;
                         mkSample t3 (Some (bytes 3145728)) u3 l3 ]) in
     (s_min st == 1 /\ s_max st == 3 /\ s_avg st == 2)%Q /\ s_count st = 3%nat).
Proof.
  split; [reflexivity|]. split; [reflexivity|]. split.
  - intros s rest samples st.
    assert (Hs : samples <> []) by (subst samples; congruence).
    assert (Hne : map heapOf samples <> []) by (subst samples; simpl; congruence).
    exists (Math_min (map heapOf samples)), (Math_max (map heapOf samples)),
      (num (total (map heapOf samples))
       / inject_Z (Z.of_nat (List.length (map heapOf samples))))%Q.
    split; [apply Math_min_spec, Hne|]. split; [apply Math_max_spec, Hne|].
    split; [apply mean_of_quotient, Hne|].
    subst st samples. rewrite calculateStats_cons. cbv zeta.
    cbn [s_min s_max s_avg s_count].
    split; [apply toMB_rounded2|]. split; [apply toMB_rounded2|].
    split; [|apply length_map].
    intros Hb.
    assert (Hb' : (total (map heapOf (s :: rest)) < 2 ^ 53)%N) by lia.
    rewrite (toMB_compat _ _ (Qeq_div_compat _ _ _ (floatSum_exact _ Hb'))).
    apply avg_nearest2; [simpl; lia|exact Hb].
  - intros. vm_compute. repeat split.
Qed.

Lemma hundredths_57_58 : ~ (hundredths 57 == hundredths 58)%Q.
Proof. vm_compute. discriminate. Qed.

(** Five readings of mean 602931.2 bytes, which is 0.575 MiB exactly: the
    quotient of the sum by 5 is not a double, its rounding falls below the
    tie, and the [avg] returned is 0.57 where the mean rounded to two decimal
    places is 0.58. *)
Lemma calculateStats_avg_tie_rounds_down :
  let samples := [ sampleOfBytes (bytes 602932); sampleOfBytes (bytes 602931);
                   sampleOfBytes (bytes 602931); sampleOfBytes (bytes 602931);
                   sampleOfBytes (bytes 602931) ] in
  let st := calculateStats (Some samples) in
  exists mean : Q,
    mean_of (map heapOf samples) mean /\
    (MiB mean * 100 == 115 # 2)%Q /\
    s_avg st = hundredths 57 /\
    ~ rounded2 (MiB mean) (s_avg st).
Proof.
  intros samples st. exists (3014656 # 5)%Q.
  assert (E : (MiB (3014656 # 5) * 100 == 115 # 2)%Q) by reflexivity.
  assert (Ha : s_avg st = hundredths 57) by (vm_compute; reflexivity).
  split; [reflexivity|]. split; [exact E|]. split; [exact Ha|].
  rewrite Ha. clear Ha st samples. intros (k & Hr & Hlo & Hhi).
  rewrite E in Hlo, Hhi. clear E.
  assert (Hk : k = 58%Z).
  { assert (L : (57 < k)%Z).
    { rewrite Zlt_Qlt. change (inject_Z 57) with 57%Q. lra. }
    assert (U : (k <= 58)%Z).
    { rewrite Zle_Qle. change (inject_Z 58) with 58%Q. lra. }
    lia. }
  subst k. exact (hundredths_57_58 Hr).
Qed.

(** Above 2^53 / 100 bytes the conversion of a single reading leaves the
    rounding to two decimal places as well: the product by 100 is not a
    double, and 3746704560.0349998 MiB become 3746704560.04. *)
Lemma calculateStats_max_beyond_precision :
  let st := calculateStats (Some [sampleOfBytes (bytes 3928704480743260)]) in
  (MiB (num 3928704480743260) * 100 == 24554403004645375 # 65536)%Q /\
  s_max st = hundredths 374670456004 /\
  ~ nearest2 (MiB (num 3928704480743260)) (s_max st).
Proof.
  intros st.
  assert (E : (MiB (num 3928704480743260) * 100
               == 24554403004645375 # 65536)%Q) by reflexivity.
  assert (Ha : s_max st = hundredths 374670456004) by (vm_compute; reflexivity).
  split; [exact E|]. split; [exact Ha|].
  rewrite Ha. clear Ha st. intros (k & Hr & Hlo & Hhi).
  rewrite E in Hlo, Hhi. clear E.
  assert (Hk : k = 374670456003%Z).
  { assert (L : (374670456002 < k)%Z).
    { clear Hr. rewrite Zlt_Qlt. change (inject_Z 374670456002) with 374670456002%Q. lra. }
    assert (U : (k < 374670456004)%Z).
    { clear Hr. rewrite Zlt_Qlt. change (inject_Z 374670456004) with 374670456004%Q. lra. }
    lia. }
  subst k. revert Hr. vm_compute. discriminate.
Qed.

(** C2, counterexample. The [avg] of five readings of mean 0.575 MiB is 0.57
    and not the 0.58 of the rounding to two decimal places, and the [max] of
    one reading of 3928704480743260 bytes, 3746704560.0349998 MiB, is
    3746704560.04 and not 3746704560.03. *)
Lemma calculateStats_not_rounded :
  (let samples := [ sampleOfBytes (bytes 602932); sampleOfBytes (bytes 602931);
                    sampleOfBytes (bytes 602931); sampleOfBytes (bytes 602931);
                    sampleOfBytes (bytes 602931) ] in
   let st := calculateStats (Some samples) in
   exists mean : Q,
     mean_of (map heapOf samples) mean /\
     (MiB mean * 100 == 115 # 2)%Q /\
     s_avg st = hundredths 57 /\
     ~ rounded2 (MiB mean) (s_avg st)) /\
  (let st := calculateStats (Some [sampleOfBytes (bytes 3928704480743260)]) in
   (MiB (num 3928704480743260) * 100 == 24554403004645375 # 65536)%Q /\
   s_max st = hundredths 374670456004 /\
   ~ nearest2 (MiB (num 3928704480743260)) (s_max st)).
Proof.
  split; [exact calculateStats_avg_tie_rounds_down
         | exact calculateStats_max_beyond_precision].
Qed.

(** On the runs of this section the columns are those that the binary64
    arithmetic of the Standard Library gives. *)
Lemma calculateStats_agrees_with_binary64 :
  forallb agrees_with_binary64
    [ [ sampleOfBytes (bytes 602932); sampleOfBytes (bytes 602931);
        sampleOfBytes (bytes 602931); sampleOfBytes (bytes 602931);
        sampleOfBytes (bytes 602931) ];
      [ sampleOfBytes (bytes 0); sampleOfBytes (bytes 753664);
        sampleOfBytes (bytes 753664); sampleOfBytes (bytes 753664);
        sampleOfBytes (bytes 753664) ];
      [ sampleOfBytes (bytes 1048576); sampleOfBytes (bytes 2097152);
        sampleOfBytes (bytes 3145728) ];
      [ sampleOfBytes (bytes 1048576); sampleOfBytes (bytes 3145728);
        sampleOfBytes (bytes 3145728) ];
      [ sampleOfBytes (bytes 3928704480743260) ];
      [ sampleOfBytes (bytes 8997770933327671); sampleOfBytes (bytes 8997770933327671);
        sampleOfBytes (bytes 8997770933327671); sampleOfBytes (bytes 960621) ];
      [ sampleOfBytes (bytes 960621); sampleOfBytes (bytes 8997770933327671);
        sampleOfBytes (bytes 8997770933327671); sampleOfBytes (bytes 8997770933327671) ];
      [ two_MiB_sample; falsy_sample ];
      [ startMemory; loopMemory ] ]
  = true.
Proof. vm_compute. reflexivity. Qed.

Lemma calculateStats_spec_witness :
  let samples := [ mkSample None (Some (bytes 602932)) None None;
                   mkSample None (Some (bytes 602931)) None None ] in
  (total (map heapOf samples) < 2 ^ 46)%N /\
  exists (mn mx : N) (mean : Q),
    minimum_of (map heapOf samples) mn /\
    maximum_of (map heapOf samples) mx /\
    mean_of (map heapOf samples) mean /\
    rounded2 (MiB (num mn)) (s_min (calculateStats (Some samples))) /\
    rounded2 (MiB (num mx)) (s_max (calculateStats (Some samples))) /\
    nearest2 (MiB mean) (s_avg (calculateStats (Some samples))).
Proof.
  intros samples.
  assert (Hb : (total (map heapOf samples) < 2 ^ 46)%N) by reflexivity.
  split; [exact Hb|].
  destruct calculateStats_spec as (_ & _ & H & _).
  destruct (H (mkSample None (Some (bytes 602932)) None None)
              [mkSample None (Some (bytes 602931)) None None])
    as (mn & mx & mean & Hmn & Hmx & Hmean & Rmn & Rmx & Ravg & _).
  exists mn, mx, mean.
  pose proof (in_le_total _ _ (proj1 Hmn)) as Lmn.
  pose proof (in_le_total _ _ (proj1 Hmx)) as Lmx.
  fold samples in Lmn, Lmx.
  assert (Hs : (total (map heapOf samples) = 1205863)%N) by reflexivity.
  repeat split; try apply Hmn; try apply Hmx; try exact Hmean.
  - apply Rmn. lia.
  - apply Rmx. lia.
  - apply Ravg. exact Hb.
Defined.

(** C10. In a non-empty sequence, a sample whose [usedJSHeapSize] is missing,
    null or 0 counts as 0 bytes and is not skipped: the statistics are those
    of the sequence with an explicit 0 in its place, [min] is 0, [count] is
    the full length, and [avg] is the conversion of the quotient of the sum
    of the other samples by the full length; when the other readings sum to
    less than 2^46 bytes it is a two-decimal value nearest to that quotient
    of the total by the full length, in mebibytes. *)
Theorem calculateStats_falsy_heap_is_zero
    (before after : list Sample) (s : Sample) :
  usedJSHeapSize s = None \/ option_map byteCount (usedJSHeapSize s) = Some 0%N ->
  let samples := before ++ s :: after in
  let st := calculateStats (Some samples) in
  st = calculateStats
         (Some (before
                ++ mkSample (timestamp s) (Some (bytes 0)) (totalJSHeapSize s)
                     (jsHeapSizeLimit s) :: after)) /\
  (s_min st == 0)%Q /\
  s_count st = List.length samples /\
  s_avg st = toMB (Number.div (floatSum (map heapOf (before ++ after)))
                     (inject_Z (Z.of_nat (List.length samples)))) /\
  ((total (map heapOf (before ++ after)) < 2 ^ 46)%N ->
   nearest2 (MiB (num (total (map heapOf (before ++ after)))
                  / inject_Z (Z.of_nat (List.length samples))))
            (s_avg st)).
Proof.
  intros Hs samples st.
  assert (H0 : heapOf s = 0%N).
  { unfold heapOf, or0. destruct Hs as [-> | Hs]; [reflexivity|].
    destruct (usedJSHeapSize s); simpl in Hs; congruence. }
  assert (Hne : samples <> []) by (subst samples; destruct before; simpl; congruence).
  assert (Hv : map heapOf samples
               = map heapOf before ++ 0%N :: map heapOf after)
    by (subst samples; rewrite map_app; simpl; now rewrite H0).
  assert (Ht : total (map heapOf samples) = total (map heapOf (before ++ after))).
  { rewrite Hv, map_app, !total_app. reflexivity. }
  assert (Havg : s_avg st
                 = toMB (Number.div (floatSum (map heapOf (before ++ after)))
                           (inject_Z (Z.of_nat (List.length samples))))).
  { subst st. rewrite (calculateStats_nonempty _ Hne). cbv zeta. cbn [s_avg].
    rewrite length_map. apply toMB_compat.
    rewrite Hv, map_app.
    rewrite (div_compat _ _ _ (floatSum_skip_zero _ _)). reflexivity. }
  split; [|split; [|split; [|split]]].
  - subst st. rewrite (calculateStats_nonempty _ Hne).
    rewrite calculateStats_nonempty by (destruct before; simpl; congruence).
    cbv zeta. rewrite Hv. rewrite map_app. reflexivity.
  - subst st. rewrite (calculateStats_nonempty _ Hne). cbv zeta. cbn [s_min].
    assert (Hm : Math_min (map heapOf samples) = 0%N).
    { destruct (Math_min_spec (map heapOf samples)) as [_ Hall].
      - rewrite Hv. destruct (map heapOf before); simpl; congruence.
      - rewrite Forall_forall in Hall.
        specialize (Hall 0%N). rewrite Hv in Hall at 1.
        specialize (Hall (in_elt _ _ _)). lia. }
    rewrite Hm. reflexivity.
  - subst st. rewrite (calculateStats_nonempty _ Hne). apply length_map.
  - exact Havg.
  - intros Hb. rewrite <- Ht in *.
    subst st. rewrite (s_avg_exact_sum samples Hne) by lia.
    apply avg_nearest2; [|exact Hb].
    subst samples. rewrite length_app. simpl. lia.
Qed.

(** A zero and four readings of 753664 bytes: the quotient 3014656 / 5 is
    taken over the five samples and the [avg] is 0.57, at the tie 0.575. *)
Lemma calculateStats_falsy_tie :
  let samples := [ sampleOfBytes (bytes 0); sampleOfBytes (bytes 753664);
                   sampleOfBytes (bytes 753664); sampleOfBytes (bytes 753664);
                   sampleOfBytes (bytes 753664) ] in
  let st := calculateStats (Some samples) in
  (s_min st == 0)%Q /\ s_avg st = hundredths 57 /\ s_count st = 5%nat /\
  (MiB (num (total (map heapOf samples)) / 5) * 100 == 115 # 2)%Q.
Proof. vm_compute. repeat split. Qed.

Lemma calculateStats_falsy_heap_is_zero_witness :
  (usedJSHeapSize falsy_sample = None
   \/ option_map byteCount (usedJSHeapSize falsy_sample) = Some 0%N) /\
  (s_min (calculateStats (Some ([two_MiB_sample] ++ [falsy_sample]))) == 0)%Q /\
  s_count (calculateStats (Some ([two_MiB_sample] ++ [falsy_sample]))) = 2%nat /\
  s_avg (calculateStats (Some ([two_MiB_sample] ++ [falsy_sample])))
  = toMB (Number.div (floatSum (map heapOf ([two_MiB_sample] ++ [])))
            (inject_Z (Z.of_nat (List.length ([two_MiB_sample] ++ [falsy_sample]))))).
Proof.
  split; [left; reflexivity|].
  destruct (calculateStats_falsy_heap_is_zero [two_MiB_sample] [] falsy_sample)
    as (_ & Hmin & Hcount & Havg & _).
  - left; reflexivity.
  - split; [exact Hmin|]. split; [exact Hcount | exact Havg].
Defined.

Lemma fold_push_concat {A B} (f : A -> list B) (l : list A) :
  forall acc, fold_left (fun all td => all ++ f td) l acc = acc ++ List.concat (map f l).
Proof.
  induction l as [|a l IH]; intros acc; simpl.
  - now rewrite app_nil_r.
  - rewrite IH. now rewrite <- app_assoc.
Qed.

(** C3. [aggregateSpecStats] (the spec's [aggregateSpec]) is [calculateStats]
    of the concatenation of the samples of every test of the spec, in
    iteration order, followed by the spec's own samples; for one test holding
    [[x]] and direct samples [[y]] it is [calculateStats [x; y]].  It is not a
    statistic of the per-test statistics: with tests holding 1 MiB and
    3, 3 MiB the average is 2.33, not the average 2 of the averages 1 and 3. *)
Theorem aggregateSpecStats_spec :
  (forall specData : SpecRecord,
     aggregateSpecStats specData =
     calculateStats
       (Some (List.concat (map st_samples (Js.values (sr_tests specData)))
              ++ sr_samples specData))) /\
  (forall (x y : Sample) (title : string) (started : option N),
     aggregateSpecStats
       {| sr_samples := [y];
          sr_tests := [(title, {| st_samples := [x] |})];
          sr_startTime := started |}
     = calculateStats (Some [x; y])) /\
  (let one := mkSample None (Some (bytes 1048576)) None None in
   let three := mkSample None (Some (bytes 3145728)) None None in
   let st := aggregateSpecStats
               {| sr_samples := [];
                  sr_tests := [("a", {| st_samples := [one] |});
                               ("b", {| st_samples := [three; three] |})];
                  sr_startTime := None |} in
   s_avg st = hundredths 233 /\ ~ (s_avg st == 2)%Q).
Proof.
  split; [|split].
  - intros specData. unfold aggregateSpecStats.
    now rewrite fold_push_concat.
  - reflexivity.
  - split; [vm_compute; reflexivity|vm_compute; discriminate].
Qed.

(** *** The peak test *)

Lemma findMaxMemoryTest_fold (specData : SpecRecord) :
  findMaxMemoryTest specData =
  let r := fold_left peakStep (Js.entries (sr_tests specData)) (0%Q, "") in
  {| testName := snd r; memory := fst r |}.
Proof.
  unfold findMaxMemoryTest.
  now destruct (fold_left peakStep (Js.entries (sr_tests specData)) (0%Q, "")).
Qed.

Lemma Qgtb_true (x y : Q) : Qgtb x y = true <-> (y < x)%Q.
Proof.
  unfold Qgtb. rewrite negb_true_iff. split.
  - intros H. apply Qnot_le_lt. intros Hle.
    apply Qle_bool_iff in Hle. congruence.
  - intros H. destruct (Qle_bool x y) eqn:E; [|reflexivity].
    apply Qle_bool_iff in E. lra.
Qed.

Lemma Qgtb_false (x y : Q) : Qgtb x y = false <-> (x <= y)%Q.
Proof.
  unfold Qgtb. rewrite negb_false_iff. apply Qle_bool_iff.
Qed.

Lemma peakStep_eq (m : Q) (n : string) (e : string * SpecTest) :
  peakStep (m, n) e = if Qgtb (peakOf e) m then (peakOf e, fst e) else (m, n).
Proof. now destruct e. Qed.

(** What the loop of [findMaxMemoryTest] computes from any starting pair:
    either no entry beats the start, or the result is the first entry that
    attains the greatest value. *)
Lemma peak_fold (l : list (string * SpecTest)) :
  forall (m : Q) (n : string),
    (fold_left peakStep l (m, n) = (m, n) /\
     Forall (fun e => peakOf e <= m)%Q l) \/
    (exists l1 e l2,
        l = l1 ++ e :: l2 /\
        fold_left peakStep l (m, n) = (peakOf e, fst e) /\
        (m < peakOf e)%Q /\
        Forall (fun e' => peakOf e' < peakOf e)%Q l1 /\
        Forall (fun e' => peakOf e' <= peakOf e)%Q l2).
Proof.
  induction l as [|[t td] l IH]; intros m n.
  - left. split; [reflexivity|constructor].
  - cbn [fold_left]. rewrite peakStep_eq.
    destruct (Qgtb (peakOf (t, td)) m) eqn:E.
    + apply Qgtb_true in E.
      destruct (IH (peakOf (t, td)) t)
        as [[Hfold Hall] | (l1 & e & l2 & Hl & Hfold & Hlt & H1 & H2)].
      * right. exists [], (t, td), l. split; [reflexivity|].
        split; [exact Hfold|]. split; [exact E|]. split; [constructor|exact Hall].
      * right. exists ((t, td) :: l1), e, l2. subst l.
        split; [reflexivity|]. split; [exact Hfold|].
        split; [lra|]. split; [|exact H2].
        constructor; [exact Hlt | exact H1].
    + apply Qgtb_false in E.
      destruct (IH m n)
        as [[Hfold Hall] | (l1 & e & l2 & Hl & Hfold & Hlt & H1 & H2)].
      * left. split; [exact Hfold|]. constructor; [exact E | exact Hall].
      * right. exists ((t, td) :: l1), e, l2. subst l.
        split; [reflexivity|]. split; [exact Hfold|].
        split; [exact Hlt|]. split; [|exact H2].
        constructor; [|exact H1]. lra.
Qed.

(** C4, as amended. [findMaxMemoryTest] (the spec's [peakTest]) returns the
    title and the [max] of the first test, in the iteration order of the
    spec's tests, that attains the greatest [calculateStats(test.samples).max]
    (every earlier test is strictly below it, no later test is above it) when
    that greatest [max] is above 0; it returns the empty title with 0 exactly
    when the spec has no test or the [max] of every test is 0. *)
Theorem findMaxMemoryTest_spec (specData : SpecRecord) :
  let tests := Js.entries (sr_tests specData) in
  let r := findMaxMemoryTest specData in
  ((r = noPeak /\ Forall (fun e => peakOf e == 0)%Q tests) \/
   (exists l1 e l2,
       tests = l1 ++ e :: l2 /\
       r = {| testName := fst e; memory := peakOf e |} /\
       (0 < peakOf e)%Q /\
       Forall (fun e' => peakOf e' < peakOf e)%Q l1 /\
       Forall (fun e' => peakOf e' <= peakOf e)%Q l2)) /\
  (r = noPeak <-> Forall (fun e => peakOf e == 0)%Q tests).
Proof.
  intros tests r.
  assert (Hcases :
    (r = noPeak /\ Forall (fun e => peakOf e == 0)%Q tests) \/
    (exists l1 e l2,
        tests = l1 ++ e :: l2 /\
        r = {| testName := fst e; memory := peakOf e |} /\
        (0 < peakOf e)%Q /\
        Forall (fun e' => peakOf e' < peakOf e)%Q l1 /\
        Forall (fun e' => peakOf e' <= peakOf e)%Q l2)).
  { subst r. rewrite findMaxMemoryTest_fold. fold tests. cbv zeta.
    destruct (peak_fold tests 0%Q "")
      as [[Hfold Hall] | (l1 & e & l2 & Hl & Hfold & Hlt & H1 & H2)].
    - left. rewrite Hfold. split; [reflexivity|].
      eapply Forall_impl; [|exact Hall]. intros e He. cbv beta in He.
      pose proof (s_max_nonneg (Some (st_samples (snd e)))) as Hge.
      fold (peakOf e) in Hge. lra.
    - right. exists l1, e, l2. rewrite Hfold. auto. }
  split; [exact Hcases|].
  destruct Hcases as [[Hr Hall] | (l1 & e & l2 & Hl & Hr & Hlt & H1 & H2)].
  - tauto.
  - split.
    + intros Hr'. rewrite Hr in Hr'. inversion Hr' as [[Hname Hmem]].
      rewrite Hmem in Hlt. lra.
    + intros Hall. rewrite Forall_forall in Hall.
      assert (Hin : In e tests) by (rewrite Hl; apply in_elt).
      specialize (Hall e Hin). cbv beta in Hall. lra.
Qed.

(** C4, counterexample. A spec whose only test never measured more than 0
    bytes has a test, and yet the result is the empty title with 0. *)
Lemma findMaxMemoryTest_noPeak_with_tests :
  ~ (findMaxMemoryTest idleSpec = noPeak <-> sr_tests idleSpec = []).
Proof.
  intros [Hto _]. specialize (Hto eq_refl). discriminate Hto.
Qed.

(** ** Reporter *)

Section SortByKey.

Context {A : Type} (key : A -> Q).

Local Abbreviation descending := (descending key).
Local Abbreviation notBelow := (notBelow key).
Local Abbreviation sameKey := (sameKey key).

Lemma descending_le (x y : A) :
  Qle_bool (descending x y) 0 = true <-> (key y <= key x)%Q.
Proof.
  unfold descending. rewrite Qle_bool_iff. split; intros H; lra.
Qed.

Lemma sort_insert_perm (x : A) (l : list A) :
  Permutation (sort_insert descending x l) (x :: l).
Proof.
  induction l as [|y r IH]; simpl; [reflexivity|].
  destruct (Qle_bool (descending x y) 0); [reflexivity|].
  rewrite IH. apply perm_swap.
Qed.

Lemma Array_sort_perm (l : list A) : Permutation (Array_sort descending l) l.
Proof.
  induction l as [|x l IH]; simpl; [reflexivity|].
  rewrite sort_insert_perm. now constructor.
Qed.

Lemma sort_insert_sorted (x : A) (l : list A) :
  StronglySorted notBelow l -> StronglySorted notBelow (sort_insert descending x l).
Proof.
  induction 1 as [|y r Hr IH Hy]; simpl.
  - repeat constructor.
  - destruct (Qle_bool (descending x y) 0) eqn:E.
    + apply descending_le in E.
      constructor; [now constructor|].
      constructor; [exact E|].
      eapply Forall_impl; [|exact Hy]. unfold notBelow. intros z Hz. lra.
    + constructor; [exact IH|].
      assert (Hxy : (key x <= key y)%Q).
      { destruct (Qlt_le_dec (key y) (key x)) as [Hlt|Hle]; [|exact Hle].
        assert (Qle_bool (descending x y) 0 = true)
          by (apply descending_le; lra).
        congruence. }
      apply (Permutation_Forall (x := x :: r)).
      * symmetry. apply sort_insert_perm.
      * constructor; [exact Hxy | exact Hy].
Qed.

Lemma Array_sort_sorted (l : list A) :
  StronglySorted notBelow (Array_sort descending l).
Proof.
  induction l as [|x l IH]; simpl; [constructor|].
  now apply sort_insert_sorted.
Qed.

Lemma sort_insert_filter (q : Q) (x : A) (l : list A) :
  filter (sameKey q) (sort_insert descending x l) = filter (sameKey q) (x :: l).
Proof.
  induction l as [|y r IH]; [reflexivity|].
  cbn [sort_insert].
  destruct (Qle_bool (descending x y) 0) eqn:E; [reflexivity|].
  assert (Hlt : (key x < key y)%Q).
  { apply Qnot_le_lt. intros Hle. apply descending_le in Hle. congruence. }
  cbn [filter] in *. rewrite IH.
  destruct (sameKey q y) eqn:Ey; [|reflexivity].
  destruct (sameKey q x) eqn:Ex; [|reflexivity].
  unfold sameKey in Ex, Ey. apply Qeq_bool_iff in Ex, Ey. lra.
Qed.

(** The sort is stable: the entries that share a key keep their order. *)
Lemma Array_sort_stable (q : Q) (l : list A) :
  filter (sameKey q) (Array_sort descending l) = filter (sameKey q) l.
Proof.
  induction l as [|x l IH]; [reflexivity|].
  cbn [Array_sort fold_right]. fold (Array_sort descending l).
  rewrite sort_insert_filter. cbn [filter]. now rewrite IH.
Qed.

End SortByKey.

Lemma sort_insert_ext {A} (c1 c2 : A -> A -> Q) (x : A) (l : list A) :
  (forall a b, c1 a b = c2 a b) -> sort_insert c1 x l = sort_insert c2 x l.
Proof.
  intros H. induction l as [|y r IH]; simpl; [reflexivity|].
  now rewrite H, IH.
Qed.

Lemma Array_sort_ext {A} (c1 c2 : A -> A -> Q) (l : list A) :
  (forall a b, c1 a b = c2 a b) -> Array_sort c1 l = Array_sort c2 l.
Proof.
  intros H. induction l as [|x l IH]; simpl; [reflexivity|].
  fold (Array_sort c1 l). fold (Array_sort c2 l).
  rewrite IH. now apply sort_insert_ext.
Qed.

Lemma generateSpecReport_rows (specs : Js.obj SpecRecord) :
  generateSpecReport specs =
  specReportHead
  ++ map specRow (Array_sort (descending specMax) (Js.entries specs))
  ++ [rule].
Proof.
  unfold generateSpecReport. do 3 f_equal.
  apply Array_sort_ext. now intros [? a] [? b].
Qed.

Lemma generateTestReport_rows (tests : Js.obj TestRecord) :
  generateTestReport tests =
  testReportHead
  ++ map testRow (firstn 50 (Array_sort (descending testMax) (Js.values tests)))
  ++ (if (50 <? List.length (Js.keys tests))%nat
      then [ MoreTests (List.length (Js.keys tests) - 50) ] else [])
  ++ [rule].
Proof. reflexivity. Qed.



Lemma filter_isTestRow_rows (l : list TestRecord) :
  filter isTestRow (map testRow l) = map testRow l.
Proof.
  induction l as [|td l IH]; [reflexivity|].
  cbn [map filter]. unfold testRow at 1. cbn [isTestRow]. now rewrite IH.
Qed.

(** C8. The test report prints, after its head, one row per test of the
    first 50 of all the tests sorted by descending [calculateStats(...).max]
    (stably), so [min 50 total] rows; the line telling that [total - 50] more
    tests exist is printed, between the rows and the closing rule, exactly
    when [total] exceeds 50. *)
Theorem generateTestReport_top50 (tests : Js.obj TestRecord) :
  let total := List.length (Js.values tests) in
  let out := generateTestReport tests in
  (exists sorted : list TestRecord,
      Permutation sorted (Js.values tests) /\
      StronglySorted (notBelow testMax) sorted /\
      (forall q : Q,
          filter (sameKey testMax q) sorted
          = filter (sameKey testMax q) (Js.values tests)) /\
      out = testReportHead
            ++ map testRow (firstn 50 sorted)
            ++ (if (50 <? total)%nat then [MoreTests (total - 50)] else [])
            ++ [rule]) /\
  List.length (filter isTestRow out) = Nat.min 50 total /\
  (forall n : nat, In (MoreTests n) out <-> (50 < total)%nat /\ n = (total - 50)%nat).
Proof.
  intros total out.
  assert (Hkeys : List.length (Js.keys tests) = total)
    by (unfold total, Js.keys, Js.values; now rewrite !length_map).
  assert (Hout : out = testReportHead
            ++ map testRow (firstn 50 (Array_sort (descending testMax) (Js.values tests)))
            ++ (if (50 <? total)%nat then [MoreTests (total - 50)] else [])
            ++ [rule])
    by (subst out; rewrite generateTestReport_rows, Hkeys; reflexivity).
  split; [|split].
  - exists (Array_sort (descending testMax) (Js.values tests)).
    split; [apply Array_sort_perm|].
    split; [apply Array_sort_sorted|].
    split; [intros q; apply Array_sort_stable | exact Hout].
  - rewrite Hout, !filter_app, filter_isTestRow_rows.
    replace (filter isTestRow testReportHead) with (@nil Line) by reflexivity.
    replace (filter isTestRow
               (if (50 <? total)%nat then [MoreTests (total - 50)] else []))
      with (@nil Line) by (now destruct (50 <? total)%nat).
    cbn [filter rule isTestRow app]. rewrite app_nil_r, length_map, length_firstn.
    now rewrite (Permutation_length (Array_sort_perm testMax (Js.values tests))).
  - intros n. rewrite Hout, !in_app_iff, in_map_iff.
    split.
    + intros [H | [H | [H | H]]].
      * unfold testReportHead, rule in H. cbn [In] in H.
        destruct H as [H | [H | [H | [H | []]]]]; discriminate H.
      * destruct H as (td & H & _). discriminate H.
      * destruct (50 <? total)%nat eqn:E; [|destruct H].
        apply Nat.ltb_lt in E. destruct H as [H | []].
        inversion H. auto.
      * destruct H as [H | []]. discriminate H.
    + intros [Hlt ->]. right. right. left.
      apply Nat.ltb_lt in Hlt. rewrite Hlt. now left.
Qed.

(** An array index is listed before the keys created before it. *)
Lemma set_array_index_first {V} (a b : V) :
  Js.set (Js.set [] "logs in" a) "404" b = [("404", b); ("logs in", a)].
Proof. reflexivity. Qed.

(** ** Ingest API *)

Module JsMapFacts.
Import Js JsFacts.

Section MapValues.

Context {V : Type} (f : string -> V -> V).

Local Abbreviation map_values := (map_values f).

Lemma get_map_values (o : obj V) (k : string) :
  get (map_values o) k = option_map (f k) (get o k).
Proof.
  induction o as [|[k' v] r IH]; simpl; [reflexivity|].
  destruct (String.eqb k k') eqn:E; [|exact IH].
  apply String.eqb_eq in E. now subst.
Qed.

Lemma read_map_values (o : obj V) (k : string) :
  read (map_values o) k =
  match read o k with
  | Own v => Own (f k v)
  | Inherited => Inherited
  | Undefined => Undefined
  end.
Proof.
  unfold read. rewrite get_map_values.
  destruct (get o k); simpl; [reflexivity|]. now destruct (inherited k).
Qed.

Lemma replace_map_values (o : obj V) (k : string) (v : V) :
  replace k (f k v) (map_values o) = map_values (replace k v o).
Proof.
  induction o as [|[k' v'] r IH]; simpl; [reflexivity|].
  destruct (String.eqb k k'); simpl; [reflexivity|]. now rewrite IH.
Qed.

Lemma insert_index_map_values (i : N) (o : obj V) (k : string) (v : V) :
  insert_index i k (f k v) (map_values o) = map_values (insert_index i k v o).
Proof.
  induction o as [|[k' v'] r IH]; simpl; [reflexivity|].
  destruct (array_index k') as [j|]; [destruct (j <? i)%N|]; simpl;
    rewrite ?IH; reflexivity.
Qed.

Lemma set_map_values (o : obj V) (k : string) (v : V) :
  set (map_values o) k (f k v) = map_values (set o k v).
Proof.
  unfold set. rewrite get_map_values.
  destruct (get o k); simpl.
  - apply replace_map_values.
  - destruct (array_index k).
    + apply insert_index_map_values.
    + unfold map_values. now rewrite map_app.
Qed.

End MapValues.

End JsMapFacts.

Import Js JsFacts JsMapFacts.

(** *** The two writes of an ingest call as one pure function *)

Lemma batchItemWrite_dualWrite (item : BatchItem) (data : RunSnapshot) :
  batchItemWrite item data =
  dualWrite None (bi_specName item) (bi_testTitle item)
    (bi_memory item) (bi_memory item) data.
Proof. reflexivity. Qed.

Lemma sampleOf_run (memoryData : Sample) (w : World) :
  sampleOf memoryData w =
  (Normal (stampWith (clock w (ticks w)) memoryData),
   if truthy (timestamp memoryData) then w else tick w).
Proof.
  unfold sampleOf, stampWith, truthy, bind.
  destruct (timestamp memoryData) as [t|]; [destruct (t =? 0)%N|]; reflexivity.
Qed.

Lemma stampWith_truthy (now : N) (memoryData : Sample) :
  truthy (timestamp memoryData) = true -> stampWith now memoryData = memoryData.
Proof.
  destruct memoryData as [[t|] u tot lim]; unfold stampWith, truthy; simpl;
    [|discriminate].
  now destruct (t =? 0)%N.
Qed.

(** [testMemoryWrite] is the dual write whose creation time and whose two
    samples are read off the clock, one reading after the other; it touches
    neither the file nor the journal. *)
Lemma testMemoryWrite_dualWrite (specName testTitle : string)
    (memoryData : Sample) (data : RunSnapshot) (w : World) :
  let w1 := afterCreate specName testTitle data w in
  let w2 := afterFirst specName testTitle memoryData data w in
  exists w',
    testMemoryWrite specName testTitle memoryData data w =
    (dualWrite (Some (clock w (ticks w))) specName testTitle
       (stampWith (clock w1 (ticks w1)) memoryData)
       (stampWith (clock w2 (ticks w2)) memoryData) data, w') /\
    file w' = file w /\ journal w' = journal w.
Proof.
  intros w1 w2. subst w1 w2.
  unfold testMemoryWrite, dualWrite, ensured, afterFirst, afterCreate.
  fold (testKeyOf specName testTitle).
  set (key := testKeyOf specName testTitle).
  unfold bind, ret, throw, Date_now.
  set (specs1 := match read (specs data) specName with
                 | Undefined => _ | _ => _ end).
  destruct (read (tests data) key) as [tr| |] eqn:R;
    cbn beta iota; rewrite ?R, ?read_set_same; rewrite ?sampleOf_run.
  2: { eexists; split; [reflexivity|]. now split. }
  all: destruct (read specs1 specName) as [sr| |];
    [|eexists; (split; [reflexivity|]);
      destruct (truthy (timestamp memoryData)); now split ..].
  all: set (stests1 := match read (sr_tests sr) testTitle with
                       | Undefined => _ | _ => _ end);
    destruct (read stests1 testTitle) as [st| |];
    [|eexists; (split; [reflexivity|]);
      destruct (truthy (timestamp memoryData)); now split ..].
  all: rewrite sampleOf_run; eexists; (split; [reflexivity|]);
    destruct (truthy (timestamp memoryData)); now split.
Qed.

Section ReadFacts.

Context {V : Type}.
Implicit Types (o : obj V) (k : string) (v : V).

Lemma read_Own_get o k v : read o k = Own v -> get o k = Some v.
Proof.
  unfold read. destruct (get o k); [congruence|].
  destruct (inherited k); discriminate.
Qed.

Lemma read_Undefined_get o k : read o k = Undefined -> get o k = None.
Proof. unfold read. now destruct (get o k). Qed.

Lemma read_Undefined_inherited o k : read o k = Undefined -> inherited k = false.
Proof.
  unfold read. destruct (get o k); [discriminate|].
  now destruct (inherited k).
Qed.

Lemma read_Inherited_get o k : read o k = Inherited -> get o k = None.
Proof. unfold read. now destruct (get o k). Qed.

Lemma read_ensured o k init :
  read (ensured o k init) k =
  match read o k with
  | Undefined => Own init
  | p => p
  end.
Proof.
  unfold ensured. destruct (read o k) eqn:R; try exact R.
  apply read_set_same.
Qed.

Lemma get_ensured_other o k k' init :
  k' <> k -> get (ensured o k init) k' = get o k'.
Proof.
  intros Hne. unfold ensured. destruct (read o k); try reflexivity.
  now apply get_set_other.
Qed.

Lemma read_not_inherited o k :
  inherited k = false -> read o k <> Inherited.
Proof.
  intros H. unfold read. destruct (get o k); [discriminate|].
  rewrite H. discriminate.
Qed.

End ReadFacts.

(** A dual write that completes has appended [s1] to the samples of the test
    record and [s2] to the samples of the spec's entry for the test. *)
Lemma dualWrite_appends (created : option N) (specName testTitle : string)
    (s1 s2 : Sample) (data data' : RunSnapshot) :
  dualWrite created specName testTitle s1 s2 data = Normal data' ->
  testSamples data' specName testTitle
  = testSamples data specName testTitle ++ [s1] /\
  specTestSamples data' specName testTitle
  = specTestSamples data specName testTitle ++ [s2].
Proof.
  unfold dualWrite. cbv zeta.
  rewrite !read_ensured. unfold testSamples, specTestSamples.
  destruct (read (tests data) (testKeyOf specName testTitle)) as [tr| |] eqn:Rt;
    try discriminate.
  - destruct (read (specs data) specName) as [sr| |] eqn:Rs; try discriminate.
    + rewrite read_ensured.
      destruct (read (sr_tests sr) testTitle) as [st| |] eqn:Rst; try discriminate.
      * intros [= <-]. cbn [tests specs]. rewrite !get_set_same.
        cbn [sr_tests with_sr_tests]. rewrite get_set_same.
        rewrite (read_Own_get _ _ _ Rt), (read_Own_get _ _ _ Rs),
          (read_Own_get _ _ _ Rst). split; reflexivity.
      * intros [= <-]. cbn [tests specs]. rewrite !get_set_same.
        cbn [sr_tests with_sr_tests]. rewrite get_set_same.
        rewrite (read_Own_get _ _ _ Rt), (read_Own_get _ _ _ Rs),
          (read_Undefined_get _ _ Rst). split; reflexivity.
    + rewrite read_ensured. cbn [sr_tests].
      replace (read [] testTitle) with
        (if inherited testTitle then @Inherited SpecTest else Undefined)
        by reflexivity.
      destruct (inherited testTitle); try discriminate.
      intros [= <-]. cbn [tests specs]. rewrite !get_set_same.
      cbn [sr_tests with_sr_tests]. rewrite get_set_same.
      rewrite (read_Own_get _ _ _ Rt), (read_Undefined_get _ _ Rs).
      split; reflexivity.
  - destruct (read (specs data) specName) as [sr| |] eqn:Rs; try discriminate.
    + rewrite read_ensured.
      destruct (read (sr_tests sr) testTitle) as [st| |] eqn:Rst; try discriminate.
      * intros [= <-]. cbn [tests specs]. rewrite !get_set_same.
        cbn [sr_tests with_sr_tests]. rewrite get_set_same.
        rewrite (read_Undefined_get _ _ Rt), (read_Own_get _ _ _ Rs),
          (read_Own_get _ _ _ Rst). split; reflexivity.
      * intros [= <-]. cbn [tests specs]. rewrite !get_set_same.
        cbn [sr_tests with_sr_tests]. rewrite get_set_same.
        rewrite (read_Undefined_get _ _ Rt), (read_Own_get _ _ _ Rs),
          (read_Undefined_get _ _ Rst). split; reflexivity.
    + rewrite read_ensured. cbn [sr_tests].
      replace (read [] testTitle) with
        (if inherited testTitle then @Inherited SpecTest else Undefined)
        by reflexivity.
      destruct (inherited testTitle); try discriminate.
      intros [= <-]. cbn [tests specs]. rewrite !get_set_same.
      cbn [sr_tests with_sr_tests]. rewrite get_set_same.
      rewrite (read_Undefined_get _ _ Rt), (read_Undefined_get _ _ Rs).
      split; reflexivity.
Qed.

(** *** Names that hit [Object.prototype] *)

Lemma has_colon_testKey (specName testTitle : string) :
  has_colon (testKeyOf specName testTitle) = true.
Proof.
  unfold testKeyOf. induction specName as [|c r IH]; [reflexivity|].
  change (has_colon (String c (r ++ "::" ++ testTitle)) = true).
  cbn [has_colon]. rewrite IH. apply orb_true_r.
Qed.

(** No composite key is the name of a property of [Object.prototype]. *)
Lemma inherited_testKey (specName testTitle : string) :
  inherited (testKeyOf specName testTitle) = false.
Proof.
  destruct (inherited (testKeyOf specName testTitle)) eqn:E; [|reflexivity].
  unfold inherited in E. apply existsb_exists in E.
  destruct E as (name & Hin & Heq). apply String.eqb_eq in Heq.
  pose proof (has_colon_testKey specName testTitle) as Hc. rewrite Heq in Hc.
  unfold prototype_names in Hin. simpl in Hin.
  repeat (destruct Hin as [<- | Hin]; [discriminate Hc|]). destruct Hin.
Qed.

(** A dual write throws only on a spec name or a test title that reads as a
    property inherited from [Object.prototype]. *)
Lemma dualWrite_normal (created : option N) (specName testTitle : string)
    (s1 s2 : Sample) (data : RunSnapshot) :
  inherited specName = false -> inherited testTitle = false ->
  exists data', dualWrite created specName testTitle s1 s2 data = Normal data'.
Proof.
  intros Hs Ht. unfold dualWrite. cbv zeta. rewrite !read_ensured.
  pose proof (read_not_inherited (tests data) _
                (inherited_testKey specName testTitle)) as H1.
  pose proof (read_not_inherited (specs data) _ Hs) as H2.
  destruct (read (tests data) (testKeyOf specName testTitle)); try congruence;
    destruct (read (specs data) specName) as [sr| |]; try congruence;
    rewrite read_ensured;
    match goal with
    | |- context [read ?o testTitle] =>
        pose proof (read_not_inherited o _ Ht) as H3;
        destruct (read o testTitle); try congruence
    end; eexists; reflexivity.
Qed.

(** *** Batches against repeated single writes *)

Lemma keepOld_push (before : RunSnapshot) (k : string) (r : TestRecord)
    (s : Sample) :
  push_test (keepOld before k r) s = keepOld before k (push_test r s).
Proof. unfold keepOld. now destruct (get (tests before) k). Qed.

Lemma forgetCreated_self (data : RunSnapshot) : forgetCreated data data = data.
Proof.
  destruct data as [rs sp ts cf]. unfold forgetCreated, with_tests. cbn.
  f_equal. unfold map_values.
  rewrite <- (map_id ts) at 2. apply map_ext_in.
  intros [k r] Hin. cbn. f_equal. unfold keepOld. cbn [tests].
  destruct (get ts k) eqn:G; [reflexivity|]. exfalso.
  clear - Hin G. induction ts as [|[k' r'] ts IH]; [destruct Hin|].
  simpl in G. destruct (String.eqb k k') eqn:E; [discriminate|].
  destruct Hin as [Hin|Hin]; [|now apply IH].
  inversion Hin; subst. now rewrite String.eqb_refl in E.
Qed.

(** The write of a batch item commutes with forgetting the creation times. *)
Lemma dualWrite_forgetCreated (before data : RunSnapshot) (created : option N)
    (specName testTitle : string) (s1 s2 : Sample) :
  extends before data ->
  dualWrite None specName testTitle s1 s2 (forgetCreated before data) =
  match dualWrite created specName testTitle s1 s2 data with
  | Normal data' => Normal (forgetCreated before data')
  | Throw => Throw
  end /\
  (forall data',
      dualWrite created specName testTitle s1 s2 data = Normal data' ->
      extends before data').
Proof.
  intros Hext. unfold dualWrite. cbv zeta.
  set (key := testKeyOf specName testTitle).
  set (fresh := {| specPath := specName; testTitle := testTitle;
                   samples := []; startTime := created |}).
  assert (HA : ensured (tests (forgetCreated before data)) key
                 {| specPath := specName; testTitle := testTitle;
                    samples := []; startTime := None |}
               = map_values (keepOld before) (ensured (tests data) key fresh)).
  { unfold forgetCreated, ensured. cbn [tests with_tests].
    rewrite read_map_values.
    destruct (read (tests data) key) eqn:R; try reflexivity.
    assert (Hnone : get (tests before) key = None).
    { destruct (get (tests before) key) eqn:G; [|reflexivity].
      exfalso. apply (Hext key); [congruence|].
      now apply read_Undefined_get. }
    rewrite <- set_map_values. f_equal.
    unfold keepOld. now rewrite Hnone. }
  rewrite HA, read_map_values.
  replace (specs (forgetCreated before data)) with (specs data) by reflexivity.
  set (tests1 := ensured (tests data) key fresh).
  set (specs1 := ensured (specs data) specName
                   {| sr_samples := []; sr_tests := []; sr_startTime := None |}).
  split.
  - destruct (read tests1 key) as [tr| |]; try reflexivity.
    destruct (read specs1 specName) as [sr| |]; try reflexivity.
    destruct (read (ensured (sr_tests sr) testTitle {| st_samples := [] |})
                testTitle) as [st| |]; try reflexivity.
    unfold forgetCreated, with_tests. cbn. f_equal. f_equal.
    rewrite keepOld_push. apply set_map_values.
  - intros data' H.
    destruct (read tests1 key) as [tr| |]; try discriminate.
    destruct (read specs1 specName) as [sr| |]; try discriminate.
    destruct (read (ensured (sr_tests sr) testTitle {| st_samples := [] |})
                testTitle) as [st| |]; try discriminate.
    injection H as <-. intros k Hk. cbn [tests].
    destruct (String.eqb_spec k key) as [->|Hne].
    + rewrite get_set_same. discriminate.
    + rewrite get_set_other by exact Hne. unfold tests1.
      rewrite get_ensured_other by exact Hne. now apply Hext.
Qed.

Lemma extends_refl (data : RunSnapshot) : extends data data.
Proof. now intros k. Qed.

Lemma testMemoryWrite_stamped (item : BatchItem) (data : RunSnapshot) (w : World) :
  stamped item ->
  exists w',
    testMemoryWrite (bi_specName item) (bi_testTitle item) (bi_memory item) data w
    = (dualWrite (Some (clock w (ticks w))) (bi_specName item)
         (bi_testTitle item) (bi_memory item) (bi_memory item) data, w') /\
    file w' = file w /\ journal w' = journal w.
Proof.
  intros Hst.
  destruct (testMemoryWrite_dualWrite (bi_specName item) (bi_testTitle item)
              (bi_memory item) data w) as (w' & Hrun & Hfile & Hjournal).
  exists w'. rewrite !(stampWith_truthy _ _ Hst) in Hrun. auto.
Qed.

(** Item by item, the loop of [recordMemoryBatch] computes what the writes of
    [recordTestMemory] compute, less the creation times; the two throw on the
    same item. *)
Lemma batchForEach_testMemoryWriteAll (before : RunSnapshot)
    (items : list BatchItem) :
  Forall stamped items ->
  forall (data : RunSnapshot) (w : World) (modified : bool),
    extends before data ->
    batchForEach items (forgetCreated before data) modified =
    match fst (testMemoryWriteAll items data w) with
    | Normal data' =>
        Normal (forgetCreated before data',
                match items with [] => modified | _ => true end)
    | Throw => Throw
    end.
Proof.
  induction 1 as [|item rest Hst Hrest IH]; intros data w modified Hext.
  - reflexivity.
  - cbn [batchForEach testMemoryWriteAll]. unfold bind.
    destruct (testMemoryWrite_stamped item data w Hst) as (w' & -> & _ & _).
    rewrite batchItemWrite_dualWrite.
    destruct (dualWrite_forgetCreated before data (Some (clock w (ticks w)))
                (bi_specName item) (bi_testTitle item)
                (bi_memory item) (bi_memory item) Hext) as [-> Hext'].
    destruct (dualWrite (Some (clock w (ticks w))) (bi_specName item)
                (bi_testTitle item) (bi_memory item) (bi_memory item) data)
      as [data'|]; [|reflexivity].
    rewrite (IH data' w' true (Hext' data' eq_refl)).
    now destruct rest.
Qed.

(** Unless a name of the batch hits [Object.prototype], no write throws. *)
Lemma testMemoryWriteAll_normal (items : list BatchItem) :
  Forall (fun item => inherited (bi_specName item) = false /\
                      inherited (bi_testTitle item) = false) items ->
  forall (data : RunSnapshot) (w : World),
    exists data', fst (testMemoryWriteAll items data w) = Normal data'.
Proof.
  induction 1 as [|item rest [Hs Ht] Hrest IH]; intros data w.
  - now exists data.
  - cbn [testMemoryWriteAll]. unfold bind.
    destruct (testMemoryWrite_dualWrite (bi_specName item) (bi_testTitle item)
                (bi_memory item) data w) as (w' & -> & _ & _).
    match goal with
    | |- context [dualWrite ?c ?s ?t ?a ?b data] =>
        destruct (dualWrite_normal c s t a b data Hs Ht) as [data' ->]
    end.
    apply IH.
Qed.

(** *** Concrete runs *)

(** C1, the failing run. With a snapshot present, [recordTestMemory] for a
    sample without timestamp reads the clock once for each of its two pushes:
    when the clock moves between the two readings, the sample of the test
    record and the sample under [specs[specName].tests[testTitle]] carry
    different timestamps, and the two sequences are not equal. *)
Theorem recordTestMemory_copies_differ :
  exists data : RunSnapshot,
    recordTestMemory trackerOn "login.cy.js" "logs in" startMemory None world1
    = (Normal tt,
       {| file := Some data; clock := clock1; ticks := 3;
          journal := [Load; Save] |}) /\
    testSamples data "login.cy.js" "logs in"
    = [ stampWith 1700000000123%N startMemory ] /\
    specTestSamples data "login.cy.js" "logs in"
    = [ stampWith 1700000000124%N startMemory ] /\
    testSamples data "login.cy.js" "logs in"
    <> specTestSamples data "login.cy.js" "logs in".
Proof.
  eexists. split; [reflexivity|].
  split; [reflexivity|]. split; [reflexivity|].
  discriminate.
Qed.

(** The composite key does not tell the spec name from the test title when
    they contain the separator: two different tests then share one test
    record, which holds the samples of both, while each spec entry holds its
    own. *)
Lemma composite_key_collision :
  testKeyOf "a" "b::c" = testKeyOf "a::b" "c" /\
  exists data1 data2 : RunSnapshot,
    dualWrite None "a" "b::c" loopMemory loopMemory emptySnapshot = Normal data1 /\
    dualWrite None "a::b" "c" loopMemory loopMemory data1 = Normal data2 /\
    testSamples data2 "a::b" "c" = [loopMemory; loopMemory] /\
    specTestSamples data2 "a::b" "c" = [loopMemory].
Proof.
  split; [reflexivity|].
  do 2 eexists. repeat split; reflexivity.
Qed.

(** The write of a batch item pushes one sample on both sequences: if they
    were equal before, they are equal after. *)
Lemma batchItemWrite_keeps_equal (item : BatchItem) (data data' : RunSnapshot) :
  batchItemWrite item data = Normal data' ->
  testSamples data (bi_specName item) (bi_testTitle item)
  = specTestSamples data (bi_specName item) (bi_testTitle item) ->
  testSamples data' (bi_specName item) (bi_testTitle item)
  = specTestSamples data' (bi_specName item) (bi_testTitle item).
Proof.
  rewrite batchItemWrite_dualWrite. intros H Heq.
  destruct (dualWrite_appends _ _ _ _ _ _ _ H) as [-> ->]. now rewrite Heq.
Qed.

(** So does [recordTestMemory] for a sample that carries its timestamp. *)
Lemma testMemoryWrite_keeps_equal (specName testTitle : string)
    (memoryData : Sample) (data data' : RunSnapshot) (w : World) :
  truthy (timestamp memoryData) = true ->
  fst (testMemoryWrite specName testTitle memoryData data w) = Normal data' ->
  testSamples data specName testTitle = specTestSamples data specName testTitle ->
  testSamples data' specName testTitle = specTestSamples data' specName testTitle
  /\ testSamples data' specName testTitle
     = testSamples data specName testTitle ++ [memoryData].
Proof.
  intros Hts.
  destruct (testMemoryWrite_dualWrite specName testTitle memoryData data w)
    as (w' & -> & _ & _).
  rewrite !(stampWith_truthy _ _ Hts). cbn [fst]. intros H Heq.
  destruct (dualWrite_appends _ _ _ _ _ _ _ H) as [-> ->]. now rewrite Heq.
Qed.

(** A batch item is stored as it is, without the timestamp it lacks. *)
Lemma batchItemWrite_keeps_missing_timestamp :
  exists data' : RunSnapshot,
    batchItemWrite
      {| bi_specName := "login.cy.js"; bi_testTitle := "logs in";
         bi_memory := startMemory |} emptySnapshot = Normal data' /\
    testSamples data' "login.cy.js" "logs in" = [startMemory] /\
    specTestSamples data' "login.cy.js" "logs in" = [startMemory].
Proof. eexists. repeat split; reflexivity. Qed.

(** A test title that names a property of [Object.prototype] makes both
    entry points throw after the load, before any save. *)
Lemma ingest_throws_on_prototype_name :
  recordTestMemory trackerOn "login.cy.js" "constructor" loopMemory None world1
  = (Throw, tick (logged Load world1)) /\
  recordMemoryBatch trackerOn
    {| batch := Some [ {| bi_specName := "login.cy.js";
                          bi_testTitle := "constructor";
                          bi_memory := loopMemory |} ];
       batchIndex := 0; totalBatches := 1 |} world1
  = (Throw, logged Load world1).
Proof. split; reflexivity. Qed.

Lemma recordMemoryBatch_run (this : MemoryTracker) (batchData : BatchData)
    (items : list BatchItem) (data : RunSnapshot) (w : World) :
  isEnabled this = true -> batch batchData = Some items -> file w = Some data ->
  recordMemoryBatch this batchData w =
  match batchForEach items data false with
  | Normal (data', true) => saveData data' (logged Load w)
  | Normal (_, false) => (Normal tt, logged Load w)
  | Throw => (Throw, logged Load w)
  end.
Proof.
  intros He Hb Hf. unfold recordMemoryBatch. rewrite He, Hb.
  unfold bind, loadData, lift. rewrite Hf.
  destruct (batchForEach items data false) as [[data' [|]]|]; reflexivity.
Qed.

(** How far the batch follows the writes of [recordTestMemory].  For a
    non-empty batch whose samples carry a timestamp other than 0 and a
    snapshot that is present, [recordMemoryBatch] loads the snapshot once;
    when the writes of [recordTestMemory], applied to the items in the order
    of the batch, complete, it saves once, at the end, and the snapshot saved
    is the one those writes produce with the [startTime] of the test records
    they create taken away; when one of those writes throws,
    [recordMemoryBatch] throws as well, without a save. *)
Lemma recordMemoryBatch_refines_testMemoryWrite
    (this : MemoryTracker) (batchData : BatchData) (items : list BatchItem)
    (data : RunSnapshot) (w w1 : World) :
  isEnabled this = true ->
  batch batchData = Some items ->
  items <> [] ->
  file w = Some data ->
  Forall stamped items ->
  exists w' : World,
    match fst (testMemoryWriteAll items data w1) with
    | Normal data' =>
        recordMemoryBatch this batchData w = (Normal tt, w') /\
        journal w' = journal w ++ [Load; Save] /\
        file w' = Some (forgetCreated data data')
    | Throw =>
        recordMemoryBatch this batchData w = (Throw, w') /\
        journal w' = journal w ++ [Load] /\
        file w' = Some data
    end.
Proof.
  intros He Hb Hne Hf Hst.
  rewrite (recordMemoryBatch_run this batchData items data w He Hb Hf).
  pose proof (batchForEach_testMemoryWriteAll data items Hst data w1 false
                (extends_refl data)) as Hloop.
  rewrite forgetCreated_self in Hloop. rewrite Hloop.
  destruct (fst (testMemoryWriteAll items data w1)) as [data'|].
  - destruct items as [|item rest]; [congruence|].
    eexists. split; [reflexivity|]. cbn.
    split; [now rewrite <- app_assoc | reflexivity].
  - eexists. split; [reflexivity|]. cbn. split; [reflexivity | exact Hf].
Qed.

Lemma recordMemoryBatch_refines_testMemoryWrite_witness :
  isEnabled trackerOn = true /\
  batch batch1 = Some items1 /\
  items1 <> [] /\
  file world1 = Some emptySnapshot /\
  Forall stamped items1 /\
  exists w' : World,
    match fst (testMemoryWriteAll items1 emptySnapshot world1) with
    | Normal data' =>
        recordMemoryBatch trackerOn batch1 world1 = (Normal tt, w') /\
        journal w' = journal world1 ++ [Load; Save] /\
        file w' = Some (forgetCreated emptySnapshot data')
    | Throw =>
        recordMemoryBatch trackerOn batch1 world1 = (Throw, w') /\
        journal w' = journal world1 ++ [Load] /\
        file w' = Some emptySnapshot
    end.
Proof.
  assert (Hst : Forall stamped items1) by (repeat constructor).
  assert (Hne : items1 <> []) by discriminate.
  repeat split; try assumption.
  exact (recordMemoryBatch_refines_testMemoryWrite trackerOn batch1 items1
           emptySnapshot world1 world1 eq_refl eq_refl Hne eq_refl Hst).
Defined.

(** C7, the failing run. On the empty snapshot, [recordMemoryBatch] of the
    batch of one sample of test "logs in" of spec "login.cy.js" loads once and
    saves once; the test record it creates holds the sample and has no
    [startTime], where the write of [recordTestMemory] for the same item
    creates the record with the reading of the clock and the same sample: the
    snapshot saved is not the one the write of [recordTestMemory] produces. *)
Theorem recordMemoryBatch_omits_startTime :
  exists (w' : World) (saved written : RunSnapshot) (r r' : TestRecord),
    recordMemoryBatch trackerOn batch1 world1 = (Normal tt, w') /\
    journal w' = [Load; Save] /\
    file w' = Some saved /\
    fst (testMemoryWriteAll items1 emptySnapshot (logged Load world1))
    = Normal written /\
    get (tests saved) (testKeyOf "login.cy.js" "logs in") = Some r /\
    get (tests written) (testKeyOf "login.cy.js" "logs in") = Some r' /\
    startTime r = None /\
    startTime r' = Some 1700000000123%N /\
    samples r = [loopMemory] /\
    samples r' = [loopMemory] /\
    specs saved = specs written /\
    saved <> written.
Proof.
  do 5 eexists. repeat split; try reflexivity. discriminate.
Qed.

(** C5, as amended. A batch that is not an array leaves the world as it is:
    no load, no save.  An empty batch is loaded for, when tracking is
    enabled, and never saved for; the file is unchanged. *)
Theorem recordMemoryBatch_empty_or_malformed
    (this : MemoryTracker) (w : World) (index total : N) :
  recordMemoryBatch this
    {| batch := None; batchIndex := index; totalBatches := total |} w
  = (Normal tt, w) /\
  recordMemoryBatch this
    {| batch := Some []; batchIndex := index; totalBatches := total |} w
  = (Normal tt, if isEnabled this then logged Load w else w) /\
  file (if isEnabled this then logged Load w else w) = file w.
Proof.
  unfold recordMemoryBatch. cbn [batch].
  destruct (isEnabled this).
  - split; [reflexivity|]. split; [|reflexivity].
    unfold bind, loadData, lift. now destruct (file w).
  - repeat split.
Qed.

(** C5, counterexample. With tracking enabled, the call for an empty batch
    performs one load. *)
Lemma recordMemoryBatch_empty_loads :
  journal (snd (recordMemoryBatch trackerOn
                  {| batch := Some []; batchIndex := 0; totalBatches := 1 |}
                  world1))
  = journal world1 ++ [Load] /\
  journal (snd (recordMemoryBatch trackerOn
                  {| batch := Some []; batchIndex := 0; totalBatches := 1 |}
                  world1))
  <> journal world1.
Proof.
  split; [reflexivity | discriminate].
Qed.

(** C6. While no snapshot is present, [recordSpecMemory], [recordTestMemory]
    and [recordMemoryBatch] complete normally, whatever their arguments and
    whether tracking is enabled or not, and leave no snapshot behind; the most
    they do is the one load that finds nothing. *)
Theorem ingest_without_snapshot (this : MemoryTracker) (w : World) :
  file w = None ->
  let w' := if isEnabled this then logged Load w else w in
  file w' = None /\
  (forall specName memoryData,
      recordSpecMemory this specName memoryData w = (Normal tt, w')) /\
  (forall specName testTitle memoryData specPath,
      recordTestMemory this specName testTitle memoryData specPath w
      = (Normal tt, w')) /\
  (forall batchData,
      exists w'', recordMemoryBatch this batchData w = (Normal tt, w'') /\
                  file w'' = None /\ (w'' = w \/ w'' = logged Load w)).
Proof.
  intros Hf w'. subst w'.
  unfold recordSpecMemory, recordTestMemory, recordMemoryBatch.
  destruct (isEnabled this); cbn [negb].
  - split; [exact Hf|].
    unfold bind, loadData. rewrite Hf.
    split; [reflexivity|]. split; [reflexivity|].
    intros batchData. destruct (batch batchData).
    + exists (logged Load w). rewrite Hf.
      split; [reflexivity|]. split; [exact Hf | now right].
    + exists w. split; [reflexivity|]. split; [exact Hf | now left].
  - split; [exact Hf|]. split; [reflexivity|]. split; [reflexivity|].
    intros batchData. exists w. split; [|split; [exact Hf | now left]].
    now destruct (batch batchData).
Qed.

Lemma ingest_without_snapshot_witness :
  file worldNoFile = None /\
  recordTestMemory trackerOn "login.cy.js" "logs in" startMemory None worldNoFile
  = (Normal tt, logged Load worldNoFile) /\
  file (logged Load worldNoFile) = None.
Proof.
  destruct (ingest_without_snapshot trackerOn worldNoFile eq_refl)
    as (Hfile & _ & Htest & _).
  split; [reflexivity|]. split; [apply Htest | exact Hfile].
Defined.

(** * Further properties *)

(** ** Statistics *)

Lemma scaled_total_bounds (values : list N) (m : N) :
  (Forall (fun v => m <= v)%N values ->
   Z.of_N m * Z.of_nat (List.length values) <= Z.of_N (total values))%Z /\
  (Forall (fun v => v <= m)%N values ->
   Z.of_N (total values) <= Z.of_N m * Z.of_nat (List.length values))%Z.
Proof.
  split; induction 1 as [|v vs Hv Hvs IH].
  - cbn. lia.
  - change (total (v :: vs)) with (v + total vs)%N.
    change (List.length (v :: vs)) with (S (List.length vs)).
    rewrite Nat2Z.inj_succ, N2Z.inj_add. nia.
  - cbn. lia.
  - change (total (v :: vs)) with (v + total vs)%N.
    change (List.length (v :: vs)) with (S (List.length vs)).
    rewrite Nat2Z.inj_succ, N2Z.inj_add. nia.
Qed.

Lemma Math_min_le_max (values : list N) :
  values <> [] -> (Math_min values <= Math_max values)%N.
Proof.
  intros Hne. destruct (Math_min_spec values Hne) as [Hin _].
  destruct (Math_max_spec values Hne) as [_ Hall].
  rewrite Forall_forall in Hall. now apply Hall.
Qed.

Lemma num_safe (v : N) :
  (v < 2 ^ 53)%N -> (Number.toDouble (num v) == num v)%Q.
Proof.
  intros H. unfold num. apply toDouble_Z.
  change (2 ^ 53)%Z with (Z.of_N (2 ^ 53)). lia.
Qed.

(** X1. The columns [calculateStats] computes are ordered, also after the
    rounding: [0 <= min <= max] for every sequence of samples, and
    [min <= avg <= max] when the readings sum to less than 2^53 bytes, the
    range in which the sum the code accumulates is exact. *)
Theorem calculateStats_ordered (samples : option (list Sample)) :
  (0 <= s_min (calculateStats samples) /\
   s_min (calculateStats samples) <= s_max (calculateStats samples))%Q /\
  ((heapTotal samples < 2 ^ 53)%N ->
   (s_min (calculateStats samples) <= s_avg (calculateStats samples) /\
    s_avg (calculateStats samples) <= s_max (calculateStats samples))%Q).
Proof.
  destruct samples as [[|s rest]|]; try (cbn; repeat split; lra).
  set (values := map heapOf (s :: rest)).
  assert (Hs : s :: rest <> []) by congruence.
  assert (Hne : values <> []) by (subst values; simpl; congruence).
  destruct (Math_min_spec values Hne) as [Imin Hmin].
  destruct (Math_max_spec values Hne) as [Imax Hmax].
  split.
  - rewrite calculateStats_cons. cbv zeta. cbn [s_min s_max]. fold values. split.
    + apply toMB_nonneg, num_nonneg.
    + apply toMB_le; [apply num_nonneg|]. apply num_le, Math_min_le_max, Hne.
  - cbn [heapTotal]. fold values. intros Hb.
    rewrite (s_avg_exact_sum _ Hs) by exact Hb.
    rewrite calculateStats_cons. cbv zeta. cbn [s_min s_max]. fold values.
    rewrite <- (length_map heapOf (s :: rest)). fold values.
    pose proof (length_pos_Q values Hne) as Hlen.
    pose proof (in_le_total _ _ Imin) as Lmin.
    pose proof (in_le_total _ _ Imax) as Lmax.
    unfold Number.div. split.
    + apply toMB_le; [apply num_nonneg|].
      rewrite <- (num_safe (Math_min values)) by lia.
      apply toDouble_le; [apply num_nonneg|].
      apply Qle_shift_div_l; [exact Hlen|].
      unfold num. rewrite <- inject_Z_mult, <- Zle_Qle.
      now apply scaled_total_bounds.
    + assert (H0 : (0 <= num (total values) / inject_Z (Z.of_nat (List.length values)))%Q).
      { apply Qle_shift_div_l; [exact Hlen|]. rewrite Qmult_0_l. apply num_nonneg. }
      apply toMB_le; [apply toDouble_nonneg, H0|].
      rewrite <- (num_safe (Math_max values)) by lia.
      apply toDouble_le; [exact H0|].
      apply Qle_shift_div_r; [exact Hlen|].
      unfold num. rewrite <- inject_Z_mult, <- Zle_Qle.
      now apply scaled_total_bounds.
Qed.

Lemma calculateStats_ordered_witness :
  (heapTotal (Some [two_MiB_sample; falsy_sample]) < 2 ^ 53)%N /\
  (s_min (calculateStats (Some [two_MiB_sample; falsy_sample]))
   <= s_avg (calculateStats (Some [two_MiB_sample; falsy_sample])) /\
   s_avg (calculateStats (Some [two_MiB_sample; falsy_sample]))
   <= s_max (calculateStats (Some [two_MiB_sample; falsy_sample])))%Q.
Proof.
  split; [reflexivity|].
  apply (proj2 (calculateStats_ordered (Some [two_MiB_sample; falsy_sample]))).
  reflexivity.
Defined.

(** Beyond that range the sum is rounded and the average can leave the
    interval: thirteen equal readings of 9006428472459916 bytes have an
    [avg] above their [max]. *)
Lemma calculateStats_avg_above_max :
  let s := mkSample None (Some (bytes 9006428472459916)) None None in
  let st := calculateStats (Some [s; s; s; s; s; s; s; s; s; s; s; s; s]) in
  (s_max st < s_avg st)%Q.
Proof. vm_compute. reflexivity. Qed.

Lemma minimum_of_unique (values : list N) (m m' : N) :
  minimum_of values m -> minimum_of values m' -> m = m'.
Proof.
  intros [Hin Hall] [Hin' Hall']. rewrite Forall_forall in Hall, Hall'.
  specialize (Hall m' Hin'). specialize (Hall' m Hin). lia.
Qed.

Lemma maximum_of_unique (values : list N) (m m' : N) :
  maximum_of values m -> maximum_of values m' -> m = m'.
Proof.
  intros [Hin Hall] [Hin' Hall']. rewrite Forall_forall in Hall, Hall'.
  specialize (Hall m' Hin'). specialize (Hall' m Hin). lia.
Qed.

Lemma total_permutation (l l' : list N) :
  Permutation l l' -> total l = total l'.
Proof.
  induction 1 as [|x l l' _ IH|x y l|l l' l'' _ IH1 _ IH2]; cbn [total fold_right].
  - reflexivity.
  - fold (total l) (total l'). now rewrite IH.
  - lia.
  - congruence.
Qed.

(** X2. The statistics do not depend on the order of the samples: two
    sequences that are permutations of each other have the same [min], [max]
    and [count], and the same [calculateStats] altogether when the readings
    sum to less than 2^53 bytes, the range in which the sum the code
    accumulates is exact. *)
Theorem calculateStats_permutation (samples samples' : list Sample) :
  Permutation samples samples' ->
  (s_min (calculateStats (Some samples)) = s_min (calculateStats (Some samples')) /\
   s_max (calculateStats (Some samples)) = s_max (calculateStats (Some samples')) /\
   s_count (calculateStats (Some samples)) = s_count (calculateStats (Some samples'))) /\
  ((total (map heapOf samples) < 2 ^ 53)%N ->
   calculateStats (Some samples) = calculateStats (Some samples')).
Proof.
  intros Hperm.
  destruct samples as [|s rest].
  - apply Permutation_nil in Hperm. now subst.
  - assert (Hne : s :: rest <> []) by congruence.
    assert (Hne' : samples' <> []).
    { intros ->. apply Permutation_sym, Permutation_nil in Hperm. congruence. }
    rewrite (calculateStats_nonempty _ Hne), (calculateStats_nonempty _ Hne').
    cbv zeta. cbn [s_min s_max s_count].
    set (values := map heapOf (s :: rest)).
    set (values' := map heapOf samples').
    assert (Hv : Permutation values values') by now apply Permutation_map.
    assert (Hvne : values <> []) by (subst values; simpl; congruence).
    assert (Hvne' : values' <> []).
    { subst values'. destruct samples'; [congruence|]. simpl. congruence. }
    assert (Hmin : Math_min values = Math_min values').
    { destruct (Math_min_spec values Hvne) as [Hin Hall].
      apply (minimum_of_unique values'); [|now apply Math_min_spec].
      split; [now apply (Permutation_in _ Hv)|].
      now apply (Permutation_Forall Hv). }
    assert (Hmax : Math_max values = Math_max values').
    { destruct (Math_max_spec values Hvne) as [Hin Hall].
      apply (maximum_of_unique values'); [|now apply Math_max_spec].
      split; [now apply (Permutation_in _ Hv)|].
      now apply (Permutation_Forall Hv). }
    rewrite Hmin, Hmax, (Permutation_length Hv).
    split; [repeat split|].
    intros Hb. f_equal. apply toMB_compat.
    assert (E : (floatSum values == floatSum values')%Q).
    { rewrite (floatSum_exact values Hb).
      rewrite (floatSum_exact values') by (now rewrite <- (total_permutation _ _ Hv)).
      now rewrite (total_permutation _ _ Hv). }
    rewrite (div_compat _ _ _ E). reflexivity.
Qed.

Lemma calculateStats_permutation_witness :
  Permutation [two_MiB_sample; falsy_sample] [falsy_sample; two_MiB_sample] /\
  (total (map heapOf [two_MiB_sample; falsy_sample]) < 2 ^ 53)%N /\
  calculateStats (Some [two_MiB_sample; falsy_sample])
  = calculateStats (Some [falsy_sample; two_MiB_sample]).
Proof.
  split; [apply perm_swap|]. split; [reflexivity|].
  apply (proj2 (calculateStats_permutation _ _ (perm_swap _ _ _))).
  reflexivity.
Defined.

(** Beyond that range the sum depends on the order in which it is taken:
    three readings of 8997770933327671 bytes and one of 960621 have one [avg]
    with the small reading last and another with it first. *)
Lemma calculateStats_order_beyond_precision :
  let v := mkSample None (Some (bytes 8997770933327671)) None None in
  let w := mkSample None (Some (bytes 960621)) None None in
  s_avg (calculateStats (Some [v; v; v; w])) = hundredths 643570728324 /\
  s_avg (calculateStats (Some [w; v; v; v])) = hundredths 643570728325.
Proof. split; vm_compute; reflexivity. Qed.

(** The [max] column grows with the set of samples. *)
Lemma s_max_incl (l l' : list Sample) :
  incl l l' ->
  (s_max (calculateStats (Some l)) <= s_max (calculateStats (Some l')))%Q.
Proof.
  intros Hincl. destruct l as [|s rest]; [apply s_max_nonneg|].
  assert (Hne : s :: rest <> []) by congruence.
  assert (Hne' : l' <> []).
  { intros ->. apply (Hincl s). now left. }
  rewrite (calculateStats_nonempty _ Hne), (calculateStats_nonempty _ Hne').
  cbv zeta. cbn [s_max]. apply toMB_le; [apply num_nonneg|]. apply num_le.
  destruct (Math_max_spec (map heapOf (s :: rest))) as [Hin _];
    [simpl; congruence|].
  destruct (Math_max_spec (map heapOf l')) as [_ Hall].
  { destruct l'; [congruence|]. simpl. congruence. }
  rewrite Forall_forall in Hall. apply Hall.
  apply in_map_iff in Hin. destruct Hin as (x & <- & Hx).
  apply in_map, Hincl, Hx.
Qed.

(** Every test of a spec is at most the peak [findMaxMemoryTest] returns. *)
Lemma peakOf_le_memory (specData : SpecRecord) (e : string * SpecTest) :
  In e (Js.entries (sr_tests specData)) ->
  (peakOf e <= memory (findMaxMemoryTest specData))%Q.
Proof.
  intros Hin. rewrite findMaxMemoryTest_fold. cbv zeta. cbn [memory].
  destruct (peak_fold (Js.entries (sr_tests specData)) 0%Q "")
    as [[Hfold Hall] | (l1 & e' & l2 & Hl & Hfold & Hlt & H1 & H2)];
    rewrite Hfold; cbn [fst].
  - rewrite Forall_forall in Hall. now apply Hall.
  - rewrite Hl in Hin. apply in_app_or in Hin.
    rewrite Forall_forall in H1, H2.
    destruct Hin as [Hin | [<- | Hin]].
    + apply Qlt_le_weak. now apply H1.
    + apply Qle_refl.
    + now apply H2.
Qed.

Lemma aggregateSpecStats_all (specData : SpecRecord) :
  aggregateSpecStats specData =
  calculateStats
    (Some (List.concat (map st_samples (Js.values (sr_tests specData)))
           ++ sr_samples specData)).
Proof. unfold aggregateSpecStats. now rewrite fold_push_concat. Qed.

Lemma in_test_in_all (specData : SpecRecord) (e : string * SpecTest) (x : Sample) :
  In e (Js.entries (sr_tests specData)) -> In x (st_samples (snd e)) ->
  In x (List.concat (map st_samples (Js.values (sr_tests specData)))).
Proof.
  intros He Hx. apply in_concat. exists (st_samples (snd e)).
  split; [|exact Hx]. unfold Js.values. rewrite map_map.
  apply in_map_iff. now exists e.
Qed.

Lemma peak_le_aggregate (specData : SpecRecord) :
  (memory (findMaxMemoryTest specData) <= s_max (aggregateSpecStats specData))%Q.
Proof.
  rewrite aggregateSpecStats_all, findMaxMemoryTest_fold. cbv zeta. cbn [memory].
  destruct (peak_fold (Js.entries (sr_tests specData)) 0%Q "")
    as [[Hfold Hall] | (l1 & e & l2 & Hl & Hfold & Hlt & H1 & H2)];
    rewrite Hfold; cbn [fst].
  - apply s_max_nonneg.
  - unfold peakOf. apply s_max_incl. intros x Hx.
    apply in_or_app. left. apply (in_test_in_all specData e); [|exact Hx].
    rewrite Hl. apply in_elt.
Qed.

(** X3. The memory of the peak test never exceeds the [max] column of the
    spec: [findMaxMemoryTest(spec).memory <= aggregateSpecStats(spec).max]. *)
Theorem findMaxMemoryTest_le_aggregate (specData : SpecRecord) :
  (memory (findMaxMemoryTest specData) <= s_max (aggregateSpecStats specData))%Q.
Proof. exact (peak_le_aggregate specData). Qed.

(** X4. For a spec without direct samples, the memory of the peak test is the
    [max] column of the spec. *)
Theorem findMaxMemoryTest_is_aggregate_max (specData : SpecRecord) :
  sr_samples specData = [] ->
  (memory (findMaxMemoryTest specData) == s_max (aggregateSpecStats specData))%Q.
Proof.
  intros Hdirect. apply Qle_antisym; [apply peak_le_aggregate|].
  rewrite aggregateSpecStats_all, Hdirect, app_nil_r.
  set (all := List.concat (map st_samples (Js.values (sr_tests specData)))).
  destruct all as [|s rest] eqn:Hall.
  - cbn [calculateStats s_max zeroStats].
    rewrite findMaxMemoryTest_fold. cbv zeta. cbn [memory].
    destruct (peak_fold (Js.entries (sr_tests specData)) 0%Q "")
      as [[Hfold _] | (l1 & e & l2 & _ & Hfold & Hlt & _)];
      rewrite Hfold; cbn [fst]; lra.
  - assert (Hne : s :: rest <> []) by congruence.
    destruct (Math_max_spec (map heapOf (s :: rest))) as [Hin _];
      [simpl; congruence|].
    apply in_map_iff in Hin. destruct Hin as (x & Hx & Hxin).
    rewrite <- Hall in Hxin. subst all. apply in_concat in Hxin.
    destruct Hxin as (l & Hl & Hxl). unfold Js.values in Hl.
    rewrite map_map in Hl. apply in_map_iff in Hl.
    destruct Hl as (e & <- & He).
    apply Qle_trans with (peakOf e); [|now apply peakOf_le_memory].
    unfold peakOf.
    assert (Hne' : st_samples (snd e) <> []) by (intros E; rewrite E in Hxl; destruct Hxl).
    rewrite (calculateStats_nonempty _ Hne), (calculateStats_nonempty _ Hne').
    cbv zeta. cbn [s_max]. apply toMB_le; [apply num_nonneg|]. apply num_le.
    rewrite <- Hx.
    destruct (Math_max_spec (map heapOf (st_samples (snd e)))) as [_ Hmax].
    { destruct (st_samples (snd e)); [congruence|]. simpl. congruence. }
    rewrite Forall_forall in Hmax. apply Hmax. now apply in_map.
Qed.

Lemma findMaxMemoryTest_is_aggregate_max_witness :
  sr_samples (specOf3MiB) = [] /\
  (memory (findMaxMemoryTest (specOf3MiB))
   == s_max (aggregateSpecStats (specOf3MiB)))%Q.
Proof.
  split; [reflexivity|].
  apply findMaxMemoryTest_is_aggregate_max. reflexivity.
Defined.

(** ** Objects: keys *)

Section KeyFacts.

Context {V : Type}.
Implicit Types (o : obj V) (k : string) (v : V).

Lemma get_None_keys o k : get o k = None <-> ~ In k (keys o).
Proof.
  induction o as [|[k' v'] r IH]; simpl; [tauto|].
  destruct (String.eqb_spec k k') as [->|Hne].
  - split; [discriminate|]. intros H. exfalso. apply H. now left.
  - rewrite IH. split; [intros H [E|E]; [congruence|tauto] | tauto].
Qed.

Lemma get_Some_in o k v : get o k = Some v -> In (k, v) o.
Proof.
  induction o as [|[k' v'] r IH]; simpl; [discriminate|].
  destruct (String.eqb_spec k k') as [->|Hne].
  - intros [= ->]. now left.
  - intros H. right. now apply IH.
Qed.

Lemma keys_replace o k v : keys (replace k v o) = keys o.
Proof.
  induction o as [|[k' v'] r IH]; simpl; [reflexivity|].
  destruct (String.eqb_spec k k') as [->|Hne]; simpl; [reflexivity|].
  now rewrite IH.
Qed.

Lemma keys_insert_index i o k v :
  Permutation (keys (insert_index i k v o)) (k :: keys o).
Proof.
  induction o as [|[k' v'] r IH]; simpl; [reflexivity|].
  destruct (array_index k') as [j|]; [destruct (j <? i)%N|]; simpl;
    try reflexivity.
  rewrite IH. apply perm_swap.
Qed.

(** The keys after a write: the same, or one more. *)
Lemma keys_set o k v :
  (get o k <> None /\ keys (set o k v) = keys o) \/
  (get o k = None /\ Permutation (keys (set o k v)) (k :: keys o)).
Proof.
  unfold set. destruct (get o k) eqn:G.
  - left. split; [discriminate | apply keys_replace].
  - right. split; [reflexivity|]. destruct (array_index k).
    + apply keys_insert_index.
    + unfold keys. rewrite map_app. simpl.
      symmetry. apply Permutation_cons_append.
Qed.

Lemma NoDup_keys_set o k v : NoDup (keys o) -> NoDup (keys (set o k v)).
Proof.
  intros Hnd. destruct (keys_set o k v) as [[_ ->] | [G Hperm]]; [exact Hnd|].
  apply (Permutation_NoDup (Permutation_sym Hperm)).
  constructor; [now apply get_None_keys | exact Hnd].
Qed.

Lemma NoDup_keys_ensured o k v : NoDup (keys o) -> NoDup (keys (ensured o k v)).
Proof.
  intros Hnd. unfold ensured. destruct (read o k); try exact Hnd.
  now apply NoDup_keys_set.
Qed.

Lemma Forall_replace (P : string * V -> Prop) o k v :
  Forall P o -> P (k, v) -> Forall P (replace k v o).
Proof.
  intros Ho Hv. induction Ho as [|[k' v'] r Hx Hr IH]; simpl; [constructor|].
  destruct (String.eqb k k'); constructor; auto.
Qed.

Lemma Forall_insert_index (P : string * V -> Prop) i o k v :
  Forall P o -> P (k, v) -> Forall P (insert_index i k v o).
Proof.
  intros Ho Hv. induction Ho as [|[k' v'] r Hx Hr IH]; simpl.
  - now repeat constructor.
  - destruct (array_index k') as [j|]; [destruct (j <? i)%N|];
      repeat constructor; auto.
Qed.

Lemma Forall_set (P : string * V -> Prop) o k v :
  Forall P o -> P (k, v) -> Forall P (set o k v).
Proof.
  intros Ho Hv. unfold set. destruct (get o k).
  - now apply Forall_replace.
  - destruct (array_index k).
    + now apply Forall_insert_index.
    + apply Forall_app. split; [exact Ho | now repeat constructor].
Qed.

Lemma Forall_ensured (P : string * V -> Prop) o k v :
  Forall P o -> P (k, v) -> Forall P (ensured o k v).
Proof.
  intros Ho Hv. unfold ensured. destruct (read o k); try exact Ho.
  now apply Forall_set.
Qed.

(** What [o[k]] is once [if (!o[k]) o[k] = init] has run. *)
Lemma ensured_read_own o k init v :
  read (ensured o k init) k = Own v ->
  get o k = Some v \/ (get o k = None /\ v = init).
Proof.
  rewrite read_ensured. destruct (read o k) eqn:R; try discriminate.
  - intros [= <-]. left. now apply read_Own_get.
  - intros [= <-]. right. split; [now apply read_Undefined_get | reflexivity].
Qed.

End KeyFacts.

(** ** The store: what a write changes *)

Lemma testKey_cons (c : ascii) (r testTitle : string) :
  testKeyOf (String c r) testTitle = String c (testKeyOf r testTitle).
Proof. reflexivity. Qed.

Lemma testKey_nil (testTitle : string) :
  testKeyOf EmptyString testTitle = String ":" (String ":" testTitle).
Proof. reflexivity. Qed.

Lemma testKeyOf_colonFree (s s' t t' : string) :
  has_colon s = false -> has_colon s' = false ->
  testKeyOf s t = testKeyOf s' t' -> s = s' /\ t = t'.
Proof.
  revert s'. induction s as [|c r IH]; intros [|c' r'] Hs Hs' Heq.
  - rewrite !testKey_nil in Heq. injection Heq as ->. now split.
  - rewrite testKey_nil, testKey_cons in Heq. injection Heq as <- _.
    cbn in Hs'. discriminate.
  - rewrite testKey_nil, testKey_cons in Heq. injection Heq as -> _.
    cbn in Hs. discriminate.
  - rewrite !testKey_cons in Heq. injection Heq as -> Heq.
    cbn [has_colon] in Hs, Hs'. apply orb_false_iff in Hs, Hs'.
    destruct (IH r' (proj2 Hs) (proj2 Hs') Heq) as [-> ->]. now split.
Qed.

(** X5. For spec names without a colon the composite key [specName::testTitle]
    determines the spec name and the test title: two different tests never
    share a key. *)
Theorem testKey_reconstructible (specName specName' testTitle testTitle' : string) :
  has_colon specName = false -> has_colon specName' = false ->
  (specName ++ "::" ++ testTitle)%string
  = (specName' ++ "::" ++ testTitle')%string ->
  specName = specName' /\ testTitle = testTitle'.
Proof. exact (testKeyOf_colonFree specName specName' testTitle testTitle'). Qed.

Lemma testKey_reconstructible_witness :
  has_colon "login.cy.js" = false /\ has_colon "login.cy.js" = false /\
  ("login.cy.js" ++ "::" ++ "a::b")%string = ("login.cy.js" ++ "::" ++ "a::b")%string /\
  "login.cy.js" = "login.cy.js" /\ "a::b" = "a::b".
Proof.
  split; [reflexivity|]. split; [reflexivity|]. split; [reflexivity|].
  exact (testKey_reconstructible "login.cy.js" "login.cy.js" "a::b" "a::b"
           eq_refl eq_refl eq_refl).
Defined.

Lemma dualWrite_inv (created : option N) (specName testTitle : string)
    (s1 s2 : Sample) (data data' : RunSnapshot) :
  dualWrite created specName testTitle s1 s2 data = Normal data' ->
  let key := testKeyOf specName testTitle in
  let tests1 :=
    ensured (tests data) key
      {| specPath := specName; testTitle := testTitle;
         samples := []; startTime := created |} in
  let specs1 :=
    ensured (specs data) specName
      {| sr_samples := []; sr_tests := []; sr_startTime := None |} in
  exists tr sr st,
    read tests1 key = Own tr /\
    read specs1 specName = Own sr /\
    read (ensured (sr_tests sr) testTitle {| st_samples := [] |}) testTitle
    = Own st /\
    tests data' = set tests1 key (push_test tr s1) /\
    specs data' =
      set specs1 specName
        (with_sr_tests sr
           (set (ensured (sr_tests sr) testTitle {| st_samples := [] |})
              testTitle (push_specTest st s2))) /\
    runStartTime data' = runStartTime data /\ config data' = config data.
Proof.
  unfold dualWrite. cbv zeta.
  destruct (read (ensured (tests data) _ _) _) as [tr| |]; try discriminate.
  destruct (read (ensured (specs data) _ _) _) as [sr| |]; try discriminate.
  destruct (read (ensured (sr_tests sr) _ _) _) as [st| |] eqn:Rst;
    try discriminate.
  intros [= <-]. exists tr, sr, st. cbn. rewrite Rst. repeat split.
Qed.

(** What a dual write changes: one sample more at the end of the sequence
    under its key and of the sequence of its spec entry, nothing else. *)
Lemma dualWrite_effect (created : option N) (specName testTitle : string)
    (s1 s2 : Sample) (data data' : RunSnapshot) :
  dualWrite created specName testTitle s1 s2 data = Normal data' ->
  forall s t,
    testSamples data' s t
    = testSamples data s t
      ++ (if String.eqb (testKeyOf s t) (testKeyOf specName testTitle)
          then [s1] else []) /\
    specTestSamples data' s t
    = specTestSamples data s t
      ++ (if String.eqb s specName && String.eqb t testTitle
          then [s2] else []) /\
    specSamples data' s = specSamples data s.
Proof.
  intros H s t.
  destruct (dualWrite_inv _ _ _ _ _ _ _ H)
    as (tr & sr & st & Rt & Rs & Rst & Htests & Hspecs & _ & _).
  apply ensured_read_own in Rt, Rs, Rst.
  unfold testSamples, specTestSamples, specSamples. rewrite Htests, Hspecs.
  split; [|split].
  - destruct (String.eqb_spec (testKeyOf s t) (testKeyOf specName testTitle))
      as [->|Hne].
    + rewrite get_set_same.
      destruct Rt as [-> | [-> ->]]; reflexivity.
    + rewrite get_set_other, get_ensured_other by exact Hne.
      now rewrite app_nil_r.
  - destruct (String.eqb_spec s specName) as [->|Hne].
    + rewrite get_set_same. cbn [sr_tests with_sr_tests andb].
      destruct (String.eqb_spec t testTitle) as [->|Hne].
      * rewrite get_set_same. cbn [st_samples push_specTest].
        destruct Rs as [-> | [-> ->]].
        -- destruct Rst as [-> | [-> ->]]; reflexivity.
        -- cbn [sr_tests] in Rst. destruct Rst as [Rst | [_ ->]];
             [discriminate Rst | reflexivity].
      * rewrite get_set_other, get_ensured_other by exact Hne.
        rewrite app_nil_r.
        destruct Rs as [-> | [-> ->]]; reflexivity.
    + rewrite get_set_other, get_ensured_other by exact Hne.
      cbn [andb]. now rewrite app_nil_r.
  - destruct (String.eqb_spec s specName) as [->|Hne].
    + rewrite get_set_same. cbn [sr_samples with_sr_tests].
      destruct Rs as [-> | [-> ->]]; reflexivity.
    + now rewrite get_set_other, get_ensured_other by exact Hne.
Qed.

Lemma specWrite_inv (created : N) (specName : string) (s : Sample)
    (data data' : RunSnapshot) :
  specWrite created specName s data = Normal data' ->
  let specs1 :=
    ensured (specs data) specName
      {| sr_samples := []; sr_tests := []; sr_startTime := Some created |} in
  exists sr,
    read specs1 specName = Own sr /\
    specs data' = set specs1 specName (push_spec sr s) /\
    tests data' = tests data /\
    runStartTime data' = runStartTime data /\ config data' = config data.
Proof.
  unfold specWrite. cbv zeta.
  destruct (read (ensured (specs data) _ _) _) as [sr| |] eqn:R;
    try discriminate.
  intros [= <-]. exists sr. cbn. repeat split.
Qed.

(** What the write of [recordSpecMemory] changes: one sample more at the end
    of the direct samples of its spec, nothing else. *)
Lemma specWrite_effect (created : N) (specName : string) (smp : Sample)
    (data data' : RunSnapshot) :
  specWrite created specName smp data = Normal data' ->
  forall s t,
    testSamples data' s t = testSamples data s t /\
    specTestSamples data' s t = specTestSamples data s t /\
    specSamples data' s
    = specSamples data s ++ (if String.eqb s specName then [smp] else []).
Proof.
  intros H s t.
  destruct (specWrite_inv _ _ _ _ _ H) as (sr & Rs & Hspecs & Htests & _ & _).
  apply ensured_read_own in Rs.
  unfold testSamples, specTestSamples, specSamples. rewrite Htests, Hspecs.
  split; [reflexivity|].
  destruct (String.eqb_spec s specName) as [->|Hne].
  - rewrite get_set_same. cbn [sr_tests sr_samples push_spec].
    destruct Rs as [-> | [-> ->]]; split; reflexivity.
  - rewrite get_set_other, get_ensured_other by exact Hne.
    now rewrite app_nil_r.
Qed.

(** ** The store: invariants of the writes *)

Lemma extendedBy_app (l tail : list Sample) : extendedBy l (l ++ tail).
Proof. now exists tail. Qed.

Lemma extendedBy_refl (l : list Sample) : extendedBy l l.
Proof. exists []. now rewrite app_nil_r. Qed.

Lemma extendedBy_trans (l l' l'' : list Sample) :
  extendedBy l l' -> extendedBy l' l'' -> extendedBy l l''.
Proof.
  intros [t ->] [t' ->]. exists (t ++ t'). now rewrite app_assoc.
Qed.

Lemma grows_refl (data : RunSnapshot) : grows data data.
Proof. intros s t. repeat split; apply extendedBy_refl. Qed.

Lemma grows_trans (d d' d'' : RunSnapshot) :
  grows d d' -> grows d' d'' -> grows d d''.
Proof.
  intros H H' s t. destruct (H s t) as (A & B & C).
  destruct (H' s t) as (A' & B' & C').
  repeat split; eapply extendedBy_trans; eassumption.
Qed.

Lemma applyWrite_grows (wr : Write) (data data' : RunSnapshot) :
  applyWrite wr data = Normal data' -> grows data data'.
Proof.
  destruct wr as [created s0 t0 s1 s2 | created s0 smp]; cbn [applyWrite];
    intros H s t.
  - destruct (dualWrite_effect _ _ _ _ _ _ _ H s t) as (-> & -> & ->).
    repeat split; try apply extendedBy_app. apply extendedBy_refl.
  - destruct (specWrite_effect _ _ _ _ _ H s t) as (-> & -> & ->).
    repeat split; try apply extendedBy_app; apply extendedBy_refl.
Qed.

Lemma applyWrite_uniqueKeys (wr : Write) (data data' : RunSnapshot) :
  applyWrite wr data = Normal data' -> uniqueKeys data -> uniqueKeys data'.
Proof.
  intros H (Ht & Hs & Hst). unfold uniqueKeys.
  destruct wr as [created s0 t0 s1 s2 | created s0 smp]; cbn [applyWrite] in H.
  - destruct (dualWrite_inv _ _ _ _ _ _ _ H)
      as (tr & sr & st & _ & Rs & _ & -> & -> & _ & _).
    apply ensured_read_own in Rs.
    split; [now apply NoDup_keys_set, NoDup_keys_ensured|].
    split; [now apply NoDup_keys_set, NoDup_keys_ensured|].
    apply Forall_set.
    + apply Forall_ensured; [exact Hst|]. cbn. constructor.
    + cbn [snd sr_tests with_sr_tests].
      apply NoDup_keys_set, NoDup_keys_ensured.
      destruct Rs as [Rs | [_ ->]]; [|constructor].
      rewrite Forall_forall in Hst. exact (Hst _ (get_Some_in _ _ _ Rs)).
  - destruct (specWrite_inv _ _ _ _ _ H) as (sr & Rs & -> & -> & _ & _).
    apply ensured_read_own in Rs.
    split; [exact Ht|].
    split; [now apply NoDup_keys_set, NoDup_keys_ensured|].
    apply Forall_set.
    + apply Forall_ensured; [exact Hst|]. cbn. constructor.
    + cbn [snd sr_tests push_spec].
      destruct Rs as [Rs | [_ ->]]; [|constructor].
      rewrite Forall_forall in Hst. exact (Hst _ (get_Some_in _ _ _ Rs)).
Qed.

Lemma testKey_eqb_colonFree (s s' t t' : string) :
  has_colon s = false -> has_colon s' = false ->
  String.eqb (testKeyOf s t) (testKeyOf s' t')
  = String.eqb s s' && String.eqb t t'.
Proof.
  intros Hs Hs'.
  destruct (String.eqb_spec (testKeyOf s t) (testKeyOf s' t')) as [E|E].
  - destruct (testKeyOf_colonFree s s' t t' Hs Hs' E) as [-> ->].
    now rewrite !String.eqb_refl.
  - destruct (String.eqb_spec s s') as [->|Hne]; [|reflexivity].
    destruct (String.eqb_spec t t') as [->|Hne]; [congruence|reflexivity].
Qed.

(** A dual write of one sample for a spec name without colon keeps the two
    copies equal. *)
Lemma dualWrite_consistent (created : option N) (specName testTitle : string)
    (smp : Sample) (data data' : RunSnapshot) :
  has_colon specName = false ->
  dualWrite created specName testTitle smp smp data = Normal data' ->
  consistent data -> consistent data'.
Proof.
  intros Hs H Hc s t Hcolon.
  destruct (dualWrite_effect _ _ _ _ _ _ _ H s t) as (-> & -> & _).
  rewrite (Hc s t Hcolon).
  now rewrite (testKey_eqb_colonFree s specName t testTitle Hcolon Hs).
Qed.

Lemma applyWrite_consistent (c : Call) (wr : Write) (data data' : RunSnapshot) :
  plainCall c -> writeOf c wr ->
  applyWrite wr data = Normal data' -> consistent data -> consistent data'.
Proof.
  destruct c as [s0 m | s0 t0 m | bd];
    destruct wr as [created s' t' s1 s2 | created s' smp];
    cbn [plainCall writeOf applyWrite]; try tauto.
  - intros _ _ H Hc s t Hcolon.
    destruct (specWrite_effect _ _ _ _ _ H s t) as (-> & -> & _).
    now apply Hc.
  - intros [Hcolon Hts] (-> & -> & [n1 ->] & [n2 ->]).
    rewrite !(stampWith_truthy _ _ Hts). now apply dualWrite_consistent.
  - intros Hplain (-> & <- & items & Hb & Hin). rewrite Hb in Hplain.
    rewrite Forall_forall in Hplain.
    apply dualWrite_consistent. exact (Hplain _ Hin).
Qed.

Section Written.

Variable c : Call.

Lemma written_grows (d d' : RunSnapshot) : written c d d' -> grows d d'.
Proof.
  induction 1 as [d | d d' d'' wr _ Hw _ IH]; [apply grows_refl|].
  eapply grows_trans; [|exact IH]. now apply (applyWrite_grows wr).
Qed.

Lemma written_uniqueKeys (d d' : RunSnapshot) :
  written c d d' -> uniqueKeys d -> uniqueKeys d'.
Proof.
  induction 1 as [d | d d' d'' wr _ Hw _ IH]; [tauto|].
  intros Hu. apply IH. now apply (applyWrite_uniqueKeys wr d).
Qed.

Lemma written_consistent (d d' : RunSnapshot) :
  plainCall c -> written c d d' -> consistent d -> consistent d'.
Proof.
  intros Hplain. induction 1 as [d | d d' d'' wr Hof Hw _ IH]; [tauto|].
  intros Hc. apply IH. now apply (applyWrite_consistent c wr d).
Qed.

Lemma written_one (wr : Write) (d d' : RunSnapshot) :
  writeOf c wr -> applyWrite wr d = Normal d' -> written c d d'.
Proof.
  intros Hof Hw. eapply written_step; [exact Hof | exact Hw | apply written_refl].
Qed.

End Written.

(** ** The store: what a call does to the file *)

Lemma specMemoryWrite_specWrite (specName : string) (memoryData : Sample)
    (data : RunSnapshot) (w : World) :
  exists now w',
    specMemoryWrite specName memoryData data w
    = (specWrite (clock w (ticks w)) specName (stampWith now memoryData) data, w')
    /\ file w' = file w /\ journal w' = journal w.
Proof.
  unfold specMemoryWrite, specWrite, ensured, bind, ret, throw, Date_now.
  destruct (read (specs data) specName) as [sr| |] eqn:R;
    cbn beta iota; rewrite ?R, ?read_set_same; rewrite ?sampleOf_run.
  2: { exists 0%N. eexists. split; [reflexivity|]. now split. }
  all: eexists; eexists; (split; [reflexivity|]);
    destruct (truthy (timestamp memoryData)); now split.
Qed.

(** [specMemoryWrite] with the readings of the clock it takes: one for the
    [startTime] of a spec entry it creates, the next one for the sample. *)
Lemma specMemoryWrite_run (specName : string) (memoryData : Sample)
    (data : RunSnapshot) (w : World) :
  inherited specName = false ->
  exists w',
    specMemoryWrite specName memoryData data w
    = (specWrite (clock w (ticks w)) specName
         (stampWith (clock w (ticks w + specReadings specName data)) memoryData)
         data, w')
    /\ file w' = file w /\ journal w' = journal w /\ clock w' = clock w
    /\ ticks w' = (ticks w + specReadings specName data + stampReadings memoryData)%nat.
Proof.
  intros Hs.
  unfold specMemoryWrite, specWrite, ensured, specReadings, stampReadings,
    bind, ret, throw, Date_now.
  destruct (read (specs data) specName) as [sr| |] eqn:R;
    cbn beta iota; rewrite ?R, ?read_set_same; rewrite ?sampleOf_run.
  - rewrite Nat.add_0_r. eexists. split; [reflexivity|].
    destruct (truthy (timestamp memoryData)); cbn; repeat split; lia.
  - exfalso. unfold read in R. rewrite Hs in R. now destruct (get (specs data) specName).
  - cbn [clock ticks tick]. rewrite Nat.add_1_r. eexists. split; [reflexivity|].
    destruct (truthy (timestamp memoryData)); cbn; repeat split; lia.
Qed.

Lemma batchForEach_written (batchData : BatchData) (all : list BatchItem) :
  batch batchData = Some all ->
  forall (items : list BatchItem) (data : RunSnapshot) (modified : bool),
    incl items all ->
    match batchForEach items data modified with
    | Normal (data', modified') =>
        written (BatchCall batchData) data data' /\
        ((items = [] /\ data' = data /\ modified' = modified) \/ modified' = true)
    | Throw => True
    end.
Proof.
  intros Hb. induction items as [|item rest IH]; intros data modified Hincl.
  - cbn. split; [apply written_refl | now left].
  - cbn [batchForEach].
    destruct (batchItemWrite item data) as [data'|] eqn:Hw; [|exact I].
    assert (Hrest : incl rest all) by (intros x Hx; apply Hincl; now right).
    specialize (IH data' true Hrest).
    destruct (batchForEach rest data' true) as [[data'' modified']|]; [|exact I].
    destruct IH as [Hwr Hm]. split.
    + eapply (written_step _ _ _ _
                (WDual None (bi_specName item) (bi_testTitle item)
                   (bi_memory item) (bi_memory item))); [|exact Hw|exact Hwr].
      cbn. split; [reflexivity|]. split; [reflexivity|].
      exists all. split; [exact Hb|]. destruct item. apply Hincl. now left.
    + right. destruct Hm as [(_ & _ & ->) | ->]; reflexivity.
Qed.

(** A call leaves the file as it is, or replaces the snapshot by one that
    its own writes produce from it. *)
Lemma runCall_written (this : MemoryTracker) (c : Call) (w : World) :
  exists r w',
    runCall this c w = (r, w') /\
    (file w' = file w \/
     exists data data',
       file w = Some data /\ file w' = Some data' /\ written c data data').
Proof.
  destruct c as [s m | s t m | bd]; cbn [runCall].
  - unfold recordSpecMemory.
    destruct (isEnabled this); cbn [negb]; [|do 2 eexists; split; [reflexivity | now left]].
    unfold bind at 1. unfold loadData.
    destruct (file w) as [data|] eqn:Hf;
      [|do 2 eexists; split; [reflexivity | cbn; now left]].
    unfold bind.
    destruct (specMemoryWrite_specWrite s m data (logged Load w))
      as (now & w1 & -> & Hf1 & _).
    destruct (specWrite _ s _ data) as [data'|] eqn:Hw.
    + do 2 eexists. split; [reflexivity|]. right. exists data, data'.
      split; [reflexivity|]. split; [reflexivity|].
      apply (written_one _ (WSpec (clock (logged Load w) (ticks (logged Load w)))
                              s (stampWith now m))); [|exact Hw].
      cbn. split; [reflexivity | now exists now].
    + do 2 eexists. split; [reflexivity|]. left. cbn in Hf1. congruence.
  - unfold recordTestMemory.
    destruct (isEnabled this); cbn [negb]; [|do 2 eexists; split; [reflexivity | now left]].
    unfold bind at 1. unfold loadData.
    destruct (file w) as [data|] eqn:Hf;
      [|do 2 eexists; split; [reflexivity | cbn; now left]].
    unfold bind.
    destruct (testMemoryWrite_dualWrite s t m data (logged Load w))
      as (w1 & -> & Hf1 & _).
    match goal with
    | |- context [dualWrite ?cr s t ?a ?b data] =>
        destruct (dualWrite cr s t a b data) as [data'|] eqn:Hw
    end.
    + do 2 eexists. split; [reflexivity|]. right. exists data, data'.
      split; [reflexivity|]. split; [reflexivity|].
      match type of Hw with
      | dualWrite ?cr _ _ ?a ?b _ = _ =>
          apply (written_one _ (WDual cr s t a b)); [|exact Hw]
      end.
      cbn. repeat split; eexists; reflexivity.
    + do 2 eexists. split; [reflexivity|]. left. cbn in Hf1. congruence.
  - destruct (isEnabled this) eqn:He;
      [|do 2 eexists; split;
        [unfold recordMemoryBatch; rewrite He; reflexivity | now left]].
    destruct (batch bd) as [items|] eqn:Hb;
      [|do 2 eexists; split;
        [unfold recordMemoryBatch; rewrite He, Hb; reflexivity | now left]].
    destruct (file w) as [data|] eqn:Hf.
    + rewrite (recordMemoryBatch_run this bd items data w He Hb Hf).
      pose proof (batchForEach_written bd items Hb items data false
                    (incl_refl items)) as Hloop.
      destruct (batchForEach items data false) as [[data' [|]]|].
      * do 2 eexists. split; [reflexivity|]. right. exists data, data'.
        split; [reflexivity|]. split; [reflexivity | apply Hloop].
      * do 2 eexists. split; [reflexivity|]. left. exact Hf.
      * do 2 eexists. split; [reflexivity|]. left. exact Hf.
    + exists (Normal tt), (logged Load w). split; [|now left].
      unfold recordMemoryBatch. rewrite He, Hb. unfold bind, loadData.
      now rewrite Hf.
Qed.

(** X6. A batch item that is written adds its sample at the end of the
    samples of the test record under its key and at the end of the samples of
    the spec's entry for its test, and changes no other sequence of the
    snapshot. *)
Theorem batchItemWrite_effect (item : BatchItem) (data data' : RunSnapshot) :
  batchItemWrite item data = Normal data' ->
  forall specName testTitle,
    testSamples data' specName testTitle
    = testSamples data specName testTitle
      ++ (if String.eqb (testKeyOf specName testTitle)
                        (testKeyOf (bi_specName item) (bi_testTitle item))
          then [bi_memory item] else []) /\
    specTestSamples data' specName testTitle
    = specTestSamples data specName testTitle
      ++ (if String.eqb specName (bi_specName item)
             && String.eqb testTitle (bi_testTitle item)
          then [bi_memory item] else []) /\
    specSamples data' specName = specSamples data specName.
Proof.
  rewrite batchItemWrite_dualWrite. apply dualWrite_effect.
Qed.

Lemma batchItemWrite_effect_witness :
  exists data' : RunSnapshot,
    batchItemWrite item1 emptySnapshot = Normal data' /\
    testSamples data' "login.cy.js" "logs in" = [loopMemory] /\
    testSamples data' "login.cy.js" "logs out" = [].
Proof.
  destruct (batchItemWrite item1 emptySnapshot) as [data'|] eqn:H;
    [|discriminate H].
  exists data'. split; [reflexivity|]. split.
  - exact (proj1 (batchItemWrite_effect item1 emptySnapshot data' H
                    "login.cy.js" "logs in")).
  - exact (proj1 (batchItemWrite_effect item1 emptySnapshot data' H
                    "login.cy.js" "logs out")).
Defined.

(** X7. No call of the ingest API removes a sample or the snapshot: when a
    snapshot is present before a call of [recordSpecMemory],
    [recordTestMemory] or [recordMemoryBatch], one is present after it, and
    each of its sample sequences is the sequence before the call with samples
    appended, also when the call throws. *)
Theorem ingest_append_only (this : MemoryTracker) (c : Call) (w : World)
    (data : RunSnapshot) :
  file w = Some data ->
  exists data' : RunSnapshot,
    file (snd (runCall this c w)) = Some data' /\ grows data data'.
Proof.
  intros Hf.
  destruct (runCall_written this c w)
    as (r & w' & -> & [Hsame | (d & d' & Hd & Hd' & Hw)]); cbn [snd].
  - exists data. split; [congruence | apply grows_refl].
  - exists d'. split; [exact Hd'|].
    assert (d = data) by congruence. subst d. now apply (written_grows c).
Qed.

Lemma ingest_append_only_witness :
  file world1 = Some emptySnapshot /\
  exists data' : RunSnapshot,
    file (snd (runCall trackerOn (BatchCall batch1) world1)) = Some data' /\
    grows emptySnapshot data'.
Proof.
  split; [reflexivity|].
  exact (ingest_append_only trackerOn (BatchCall batch1) world1 emptySnapshot
           eq_refl).
Defined.

Lemma runCalls_invariant (P : RunSnapshot -> Prop) (Q : Call -> Prop)
    (this : MemoryTracker) :
  (forall c d d', Q c -> written c d d' -> P d -> P d') ->
  forall (calls : list Call) (w : World),
    Forall Q calls -> onFile P w -> onFile P (runCalls this calls w).
Proof.
  intros Hstep. induction calls as [|c calls IH]; intros w Hq Hp; [exact Hp|].
  inversion Hq as [|? ? Hc Hcalls]; subst.
  cbn [runCalls fold_left]. apply IH; [exact Hcalls|].
  destruct (runCall_written this c w)
    as (r & w' & -> & [Hsame | (d & d' & Hd & Hd' & Hw)]); cbn [snd].
  - unfold onFile in *. now rewrite Hsame.
  - unfold onFile in *. rewrite Hd in Hp. rewrite Hd'.
    now apply (Hstep c d d').
Qed.

(** X8. The two copies of the samples of every test stay equal: if the
    snapshot on file holds, for every spec name without a colon and every
    test title, the same samples in the test record and in the spec's entry
    for the test, it still does after any sequence of calls whose spec names
    contain no colon and whose [recordTestMemory] samples carry a timestamp
    other than 0. *)
Theorem ingest_keeps_copies_equal (this : MemoryTracker) (calls : list Call)
    (w : World) :
  Forall plainCall calls ->
  onFile consistent w ->
  onFile consistent (runCalls this calls w).
Proof.
  apply runCalls_invariant. intros c d d' Hc Hw. now apply (written_consistent c).
Qed.

Lemma emptySnapshot_consistent : consistent emptySnapshot.
Proof. intros s t _. reflexivity. Qed.

Lemma ingest_keeps_copies_equal_witness :
  Forall plainCall calls1 /\
  onFile consistent world1 /\
  onFile consistent (runCalls trackerOn calls1 world1).
Proof.
  assert (Hcalls : Forall plainCall calls1).
  { repeat constructor. }
  split; [exact Hcalls|]. split; [exact emptySnapshot_consistent|].
  exact (ingest_keeps_copies_equal trackerOn calls1 world1 Hcalls
           emptySnapshot_consistent).
Defined.

(** The lists that stand for the objects stay well formed: if no key occurs
    twice in [tests], in [specs] and in the tests of each spec of the snapshot
    on file, the same holds after any sequence of calls of the ingest API. *)
Lemma runCalls_uniqueKeys (this : MemoryTracker) (calls : list Call)
    (w : World) :
  onFile uniqueKeys w ->
  onFile uniqueKeys (runCalls this calls w).
Proof.
  apply (runCalls_invariant uniqueKeys (fun _ => True)).
  - intros c d d' _ Hw. now apply (written_uniqueKeys c).
  - apply Forall_forall. intros; exact I.
Qed.

Lemma emptySnapshot_uniqueKeys : uniqueKeys emptySnapshot.
Proof. repeat split; constructor. Qed.

(** ** Life cycle *)

(** X10. With tracking enabled, [initializeData] replaces whatever the file
    held, without reading it, by a snapshot that holds no sample at all and in
    which the invariants of the store hold; it is the one write it performs. *)
Theorem initializeData_resets (this : MemoryTracker) (w : World) :
  isEnabled this = true ->
  exists data : RunSnapshot,
    fst (initializeData this w) = Normal tt /\
    file (snd (initializeData this w)) = Some data /\
    journal (snd (initializeData this w)) = journal w ++ [Save] /\
    specs data = [] /\ tests data = [] /\
    (forall specName testTitle,
        testSamples data specName testTitle = [] /\
        specTestSamples data specName testTitle = [] /\
        specSamples data specName = []) /\
    consistent data /\ uniqueKeys data.
Proof.
  intros He. unfold initializeData. rewrite He. cbn [negb].
  eexists. split; [reflexivity|]. split; [reflexivity|].
  split; [reflexivity|]. split; [reflexivity|]. split; [reflexivity|].
  split; [intros s t; repeat split|].
  split; [intros s t _; reflexivity | repeat split; constructor].
Qed.

Lemma initializeData_resets_witness :
  isEnabled trackerOn = true /\
  exists data : RunSnapshot,
    file (snd (initializeData trackerOn
                 (runCalls trackerOn calls1 world1))) = Some data /\
    tests data = [].
Proof.
  split; [reflexivity|].
  destruct (initializeData_resets trackerOn (runCalls trackerOn calls1 world1)
              eq_refl) as (data & _ & Hf & _ & _ & Ht & _).
  exists data. split; [exact Hf | exact Ht].
Defined.

Lemma runCall_no_file (this : MemoryTracker) (c : Call) (w : World) :
  file w = None ->
  fst (runCall this c w) = Normal tt /\ file (snd (runCall this c w)) = None.
Proof.
  intros Hf. destruct c as [s m | s t m | bd]; cbn [runCall];
    unfold recordSpecMemory, recordTestMemory, recordMemoryBatch.
  1, 2: destruct (isEnabled this); cbn [negb];
    [unfold bind, loadData; rewrite Hf; split; [reflexivity | exact Hf]
    | split; [reflexivity | exact Hf]].
  destruct (isEnabled this); [|split; [reflexivity | exact Hf]].
  destruct (batch bd); [|split; [reflexivity | exact Hf]].
  unfold bind, loadData. rewrite Hf. split; [reflexivity | exact Hf].
Qed.

(** X11. [cleanup] leaves no snapshot, and a second [cleanup] changes
    nothing; until the next [initializeData], every call of the ingest API
    completes without recording anything. *)
Theorem cleanup_idempotent (this : MemoryTracker) (w : World) (calls : list Call) :
  fst (cleanup w) = Normal tt /\
  file (snd (cleanup w)) = None /\
  cleanup (snd (cleanup w)) = (Normal tt, snd (cleanup w)) /\
  file (runCalls this calls (snd (cleanup w))) = None.
Proof.
  assert (Hnone : file (snd (cleanup w)) = None).
  { unfold cleanup. now destruct (file w) eqn:Hf. }
  split; [unfold cleanup; now destruct (file w)|].
  split; [exact Hnone|]. split.
  - unfold cleanup at 1. now rewrite Hnone.
  - revert Hnone. generalize (snd (cleanup w)). clear w.
    induction calls as [|c calls IH]; intros w Hf; [exact Hf|].
    cbn [runCalls fold_left]. apply IH. now apply runCall_no_file.
Qed.

(** X12. Tracking is enabled only by [memoryTracking.enabled === true]: with
    no [memoryTracking], or with any other value of [enabled], the tracker
    [configure] yields does nothing, neither on [initializeData] nor on a
    call of the ingest API, and its report is the one line that says so. *)
Theorem configure_disabled (this : MemoryTracker)
    (memoryTracking : option MemoryConfig) (w : World) :
  match memoryTracking with
  | Some cfg => mc_enabled cfg <> JBoolean true
  | None => True
  end ->
  let this' := configure this memoryTracking in
  isEnabled this' = false /\
  initializeData this' w = (Normal tt, w) /\
  (forall c : Call, runCall this' c w = (Normal tt, w)) /\
  generateReport this' w
  = (Normal [Log "Memory tracking was disabled for this run"], w).
Proof.
  intros Hcfg this'.
  assert (He : isEnabled this' = false).
  { subst this'. unfold configure. cbn [isEnabled].
    destruct memoryTracking as [cfg|]; [|reflexivity].
    destruct (mc_enabled cfg) as [|[|]|]; try reflexivity. congruence. }
  split; [exact He|].
  unfold initializeData, generateReport. rewrite He. cbn [negb].
  split; [reflexivity|]. split; [|reflexivity].
  intros [s m | s t m | bd]; cbn [runCall];
    unfold recordSpecMemory, recordTestMemory, recordMemoryBatch;
    rewrite He; reflexivity.
Qed.

Lemma configure_disabled_witness :
  mc_enabled {| mc_enabled := JOther; mc_trackSpecOnly := JBoolean true;
                mc_debug := JUndefined |} <> JBoolean true /\
  runCall (configure trackerOn
             (Some {| mc_enabled := JOther; mc_trackSpecOnly := JBoolean true;
                      mc_debug := JUndefined |}))
          (BatchCall batch1) world1
  = (Normal tt, world1).
Proof.
  split; [discriminate|].
  assert (H : mc_enabled {| mc_enabled := JOther;
                            mc_trackSpecOnly := JBoolean true;
                            mc_debug := JUndefined |} <> JBoolean true)
    by discriminate.
  exact (proj1 (proj2 (proj2
           (configure_disabled trackerOn
              (Some {| mc_enabled := JOther; mc_trackSpecOnly := JBoolean true;
                       mc_debug := JUndefined |}) world1 H)))
           (BatchCall batch1)).
Defined.

(** ** Single samples *)

Lemma specWrite_normal (created : N) (specName : string) (s : Sample)
    (data : RunSnapshot) :
  inherited specName = false ->
  exists data', specWrite created specName s data = Normal data'.
Proof.
  intros Hs. unfold specWrite. cbv zeta. rewrite read_ensured.
  pose proof (read_not_inherited (specs data) _ Hs) as H.
  destruct (read (specs data) specName); try congruence; eexists; reflexivity.
Qed.

(** X13. With tracking enabled and a snapshot present, [recordSpecMemory] for
    a spec name that is no property of [Object.prototype] loads once, saves
    once, and the snapshot saved differs from the one loaded by one sample at
    the end of the direct samples of that spec (and by the spec entry, if it
    was missing): the test records and the samples of every test are
    untouched.  The sample is the given one, its timestamp, when it is
    missing or 0, being the reading of the clock that follows the one taken
    for the [startTime] of a spec entry that had to be created, and the first
    reading of the call otherwise; the call takes no other reading. *)
Theorem recordSpecMemory_effect (this : MemoryTracker) (specName : string)
    (memoryData : Sample) (w : World) (data : RunSnapshot) :
  isEnabled this = true -> file w = Some data -> inherited specName = false ->
  exists (data' : RunSnapshot) (w' : World),
    recordSpecMemory this specName memoryData w = (Normal tt, w') /\
    journal w' = journal w ++ [Load; Save] /\
    file w' = Some data' /\
    clock w' = clock w /\
    ticks w' = (ticks w + specReadings specName data + stampReadings memoryData)%nat /\
    tests data' = tests data /\
    forall s t,
      specTestSamples data' s t = specTestSamples data s t /\
      specSamples data' s
      = specSamples data s
        ++ (if String.eqb s specName
            then [stampWith (clock w (ticks w + specReadings specName data))
                    memoryData]
            else []).
Proof.
  intros He Hf Hs. unfold recordSpecMemory. rewrite He. cbn [negb].
  unfold bind at 1. unfold loadData. rewrite Hf. unfold bind.
  destruct (specMemoryWrite_run specName memoryData data (logged Load w) Hs)
    as (w1 & -> & Hf1 & Hj1 & Hc1 & Ht1).
  cbn [clock ticks logged] in *.
  match goal with
  | |- context [specWrite ?cr specName ?smp data] =>
      destruct (specWrite_normal cr specName smp data Hs) as [data' Hw]
  end.
  rewrite Hw. exists data'. eexists. split; [reflexivity|].
  cbn [journal file clock ticks logged saveData snd]. rewrite Hj1. cbn [journal logged].
  split; [now rewrite <- app_assoc|]. split; [reflexivity|].
  split; [exact Hc1|]. split; [exact Ht1|].
  destruct (specWrite_inv _ _ _ _ _ Hw) as (_ & _ & _ & Ht & _).
  split; [exact Ht|]. intros s t.
  destruct (specWrite_effect _ _ _ _ _ Hw s t) as (_ & A & B). now split.
Qed.

Lemma recordSpecMemory_effect_witness :
  isEnabled trackerOn = true /\ file world1 = Some emptySnapshot /\
  inherited "login.cy.js" = false /\
  exists data' : RunSnapshot,
    file (snd (recordSpecMemory trackerOn "login.cy.js" startMemory world1))
    = Some data' /\
    ticks (snd (recordSpecMemory trackerOn "login.cy.js" startMemory world1)) = 2%nat /\
    specSamples data' "login.cy.js" = [stampWith (clock1 1) startMemory].
Proof.
  split; [reflexivity|]. split; [reflexivity|]. split; [reflexivity|].
  destruct (recordSpecMemory_effect trackerOn "login.cy.js" startMemory world1
              emptySnapshot eq_refl eq_refl eq_refl)
    as (data' & w' & Hrun & _ & Hf & _ & Ht & _ & Heff).
  exists data'. rewrite Hrun. split; [exact Hf|]. split; [exact Ht|].
  exact (proj2 (Heff "login.cy.js" "")).
Defined.

(** X14. A spec name that is a property of [Object.prototype] and has no
    entry in [specs] makes [recordSpecMemory] and [recordTestMemory] throw
    after the load: nothing is saved, the file keeps the snapshot. *)
Theorem ingest_throws_on_inherited_spec (this : MemoryTracker)
    (specName testTitle : string) (memoryData : Sample) (w : World)
    (data : RunSnapshot) :
  isEnabled this = true -> file w = Some data ->
  inherited specName = true -> get (specs data) specName = None ->
  recordSpecMemory this specName memoryData w = (Throw, logged Load w) /\
  fst (recordTestMemory this specName testTitle memoryData None w) = Throw /\
  file (snd (recordTestMemory this specName testTitle memoryData None w))
  = Some data.
Proof.
  intros He Hf Hs Hg.
  assert (R : read (specs data) specName = Inherited)
    by (unfold read; now rewrite Hg, Hs).
  split.
  - unfold recordSpecMemory. rewrite He. cbn [negb].
    unfold bind at 1. unfold loadData. rewrite Hf.
    unfold bind, specMemoryWrite, bind, ret, throw. now rewrite !R.
  - assert (Hrun : exists w1,
               recordTestMemory this specName testTitle memoryData None w
               = (Throw, w1) /\ file w1 = Some data).
    { unfold recordTestMemory. rewrite He. cbn [negb].
      unfold bind at 1. unfold loadData. rewrite Hf. unfold bind.
      destruct (testMemoryWrite_dualWrite specName testTitle memoryData data
                  (logged Load w)) as (w1 & -> & Hf1 & _).
      match goal with
      | |- context [dualWrite ?cr ?s ?t ?a ?b data] =>
          assert (Hw : dualWrite cr s t a b data = Throw)
      end.
      { unfold dualWrite. cbv zeta. rewrite !read_ensured, R.
        now destruct (read (tests data) (testKeyOf specName testTitle)). }
      rewrite Hw. exists w1. split; [reflexivity|]. rewrite Hf1. exact Hf. }
    destruct Hrun as (w1 & -> & Hf1). now split.
Qed.

Lemma ingest_throws_on_inherited_spec_witness :
  isEnabled trackerOn = true /\ file world1 = Some emptySnapshot /\
  inherited "constructor" = true /\
  get (specs emptySnapshot) "constructor" = None /\
  recordSpecMemory trackerOn "constructor" loopMemory world1
  = (Throw, logged Load world1).
Proof.
  do 4 (split; [reflexivity|]).
  exact (proj1 (ingest_throws_on_inherited_spec trackerOn "constructor" ""
                  loopMemory world1 emptySnapshot
                  eq_refl eq_refl eq_refl eq_refl)).
Defined.

(** ** Measurement counts *)

Lemma s_count_length (l : list Sample) :
  s_count (calculateStats (Some l)) = List.length l.
Proof.
  destruct l as [|s rest]; [reflexivity|].
  rewrite calculateStats_cons. cbv zeta. cbn [s_count]. apply length_map.
Qed.

Lemma s_count_aggregate (sr : SpecRecord) :
  s_count (aggregateSpecStats sr)
  = (sampleCount (sr_tests sr) + List.length (sr_samples sr))%nat.
Proof.
  rewrite aggregateSpecStats_all, s_count_length, length_app. reflexivity.
Qed.

Lemma sampleCount_cons (k : string) (v : SpecTest) (o : obj SpecTest) :
  sampleCount ((k, v) :: o) = (List.length (st_samples v) + sampleCount o)%nat.
Proof. unfold sampleCount. cbn. now rewrite length_app. Qed.

Lemma sampleCount_set (o : obj SpecTest) (k : string) (v : SpecTest) :
  (sampleCount (set o k v)
   + match get o k with
     | Some old => List.length (st_samples old)
     | None => 0
     end
   = sampleCount o + List.length (st_samples v))%nat.
Proof.
  unfold set. destruct (get o k) as [old|] eqn:G.
  - induction o as [|[k' v'] r IH]; [discriminate G|].
    cbn [get replace] in *. destruct (String.eqb k k').
    + injection G as ->. rewrite !sampleCount_cons. lia.
    + rewrite !sampleCount_cons. specialize (IH G). lia.
  - destruct (array_index k) as [i|].
    + clear G. induction o as [|[k' v'] r IH]; cbn [insert_index].
      * rewrite sampleCount_cons. unfold sampleCount. cbn. lia.
      * destruct (array_index k') as [j|]; [destruct (j <? i)%N|];
          rewrite !sampleCount_cons; try rewrite sampleCount_cons; lia.
    + unfold sampleCount, values. rewrite map_app, map_app, concat_app, length_app.
      cbn. rewrite app_nil_r. lia.
Qed.

Lemma sampleCount_ensured (o : obj SpecTest) (k : string) :
  sampleCount (ensured o k {| st_samples := [] |}) = sampleCount o.
Proof.
  unfold ensured. destruct (read o k) eqn:R; try reflexivity.
  pose proof (sampleCount_set o k {| st_samples := [] |}) as H.
  rewrite (read_Undefined_get _ _ R) in H. cbn in H. lia.
Qed.

(** X15. Every batch item that is written raises the number of measurements
    of its spec, the [count] of [aggregateSpecStats], by exactly one, and
    leaves the one of every other spec as it was. *)
Theorem batchItemWrite_counts (item : BatchItem) (data data' : RunSnapshot) :
  batchItemWrite item data = Normal data' ->
  forall specName,
    specCount data' specName
    = (specCount data specName
       + (if String.eqb specName (bi_specName item) then 1 else 0))%nat.
Proof.
  rewrite batchItemWrite_dualWrite. intros H s.
  destruct (dualWrite_inv _ _ _ _ _ _ _ H)
    as (tr & sr & st & _ & Rs & Rst & _ & Hspecs & _ & _).
  unfold specCount. rewrite Hspecs.
  destruct (String.eqb_spec s (bi_specName item)) as [->|Hne].
  - rewrite get_set_same, s_count_aggregate.
    cbn [sr_tests sr_samples with_sr_tests].
    pose proof (sampleCount_set
                  (ensured (sr_tests sr) (bi_testTitle item) {| st_samples := [] |})
                  (bi_testTitle item)
                  (push_specTest st (bi_memory item))) as Hset.
    rewrite (read_Own_get _ _ _ Rst), sampleCount_ensured in Hset.
    cbn [st_samples push_specTest] in Hset. rewrite length_app in Hset.
    cbn [List.length] in Hset.
    apply ensured_read_own in Rs. destruct Rs as [-> | [-> ->]].
    + rewrite s_count_aggregate. lia.
    + cbn [sr_tests sr_samples] in *. unfold sampleCount in Hset at 2.
      cbn in Hset. cbn. lia.
  - rewrite get_set_other, get_ensured_other by exact Hne. lia.
Qed.

Lemma batchItemWrite_counts_witness :
  exists data' : RunSnapshot,
    batchItemWrite item1 emptySnapshot = Normal data' /\
    specCount data' "login.cy.js" = 1%nat.
Proof.
  destruct (batchItemWrite item1 emptySnapshot) as [data'|] eqn:H;
    [|discriminate H].
  exists data'. split; [reflexivity|].
  exact (batchItemWrite_counts item1 emptySnapshot data' H "login.cy.js").
Defined.

(** ** Batches that throw *)

Lemma spec_entry_titleUnused (title specName : string) (data : RunSnapshot)
    (sr : SpecRecord) :
  titleUnused title data ->
  get (specs data) specName = Some sr
  \/ (get (specs data) specName = None
      /\ sr = {| sr_samples := []; sr_tests := []; sr_startTime := None |}) ->
  get (sr_tests sr) title = None.
Proof.
  intros Hq [Hg | [_ ->]]; [|reflexivity].
  unfold titleUnused in Hq. rewrite Forall_forall in Hq.
  exact (Hq _ (get_Some_in _ _ _ Hg)).
Qed.

Lemma batchItemWrite_inherited_title (item : BatchItem) (data : RunSnapshot) :
  inherited (bi_testTitle item) = true ->
  titleUnused (bi_testTitle item) data ->
  batchItemWrite item data = Throw.
Proof.
  intros Ht Hq. rewrite batchItemWrite_dualWrite.
  destruct (dualWrite None (bi_specName item) (bi_testTitle item)
              (bi_memory item) (bi_memory item) data) as [data'|] eqn:H;
    [|reflexivity].
  destruct (dualWrite_inv _ _ _ _ _ _ _ H)
    as (tr & sr & st & _ & Rs & Rst & _).
  apply ensured_read_own in Rs.
  pose proof (spec_entry_titleUnused _ _ _ _ Hq Rs) as Hg.
  rewrite read_ensured in Rst. unfold read in Rst.
  rewrite Hg, Ht in Rst. discriminate Rst.
Qed.

Lemma batchItemWrite_titleUnused (title : string) (item : BatchItem)
    (data data' : RunSnapshot) :
  inherited title = true ->
  titleUnused title data ->
  batchItemWrite item data = Normal data' ->
  titleUnused title data'.
Proof.
  intros Ht Hq H.
  destruct (String.eqb_spec (bi_testTitle item) title) as [E|Hne].
  - rewrite batchItemWrite_inherited_title in H by (rewrite E; assumption).
    discriminate H.
  - rewrite batchItemWrite_dualWrite in H.
    destruct (dualWrite_inv _ _ _ _ _ _ _ H)
      as (tr & sr & st & _ & Rs & _ & _ & Hspecs & _).
    apply ensured_read_own in Rs.
    pose proof (spec_entry_titleUnused _ _ _ _ Hq Rs) as Hg.
    unfold titleUnused. rewrite Hspecs. apply Forall_set.
    + apply Forall_ensured; [exact Hq | reflexivity].
    + cbn [snd sr_tests with_sr_tests].
      rewrite get_set_other, get_ensured_other by congruence. exact Hg.
Qed.

Lemma batchForEach_inherited_title (item : BatchItem) (items : list BatchItem) :
  inherited (bi_testTitle item) = true ->
  In item items ->
  forall (data : RunSnapshot) (modified : bool),
    titleUnused (bi_testTitle item) data ->
    batchForEach items data modified = Throw.
Proof.
  intros Ht. induction items as [|i rest IH]; intros Hin data modified Hq;
    [destruct Hin|].
  cbn [batchForEach].
  destruct (batchItemWrite i data) as [data'|] eqn:Hw; [|reflexivity].
  destruct Hin as [-> | Hin].
  - rewrite batchItemWrite_inherited_title in Hw by assumption. discriminate Hw.
  - apply IH; [exact Hin|].
    exact (batchItemWrite_titleUnused _ i data data' Ht Hq Hw).
Qed.

(** X16. One bad item loses the whole batch: when an item of the batch has
    a test title that is a property of [Object.prototype] (and no spec on
    file has an entry under that title), [recordMemoryBatch] throws after the
    load and saves nothing, not even the items that precede the bad one. *)
Theorem recordMemoryBatch_lost_on_inherited_title (this : MemoryTracker)
    (batchData : BatchData) (items : list BatchItem) (item : BatchItem)
    (w : World) (data : RunSnapshot) :
  isEnabled this = true ->
  batch batchData = Some items ->
  file w = Some data ->
  In item items ->
  inherited (bi_testTitle item) = true ->
  titleUnused (bi_testTitle item) data ->
  recordMemoryBatch this batchData w = (Throw, logged Load w) /\
  file (logged Load w) = Some data.
Proof.
  intros He Hb Hf Hin Ht Hq.
  rewrite (recordMemoryBatch_run this batchData items data w He Hb Hf).
  rewrite (batchForEach_inherited_title item items Ht Hin data false Hq).
  split; [reflexivity | exact Hf].
Qed.

Lemma recordMemoryBatch_lost_on_inherited_title_witness :
  isEnabled trackerOn = true /\
  file world1 = Some emptySnapshot /\
  inherited "toString" = true /\
  titleUnused "toString" emptySnapshot /\
  recordMemoryBatch trackerOn poisonedBatch world1 = (Throw, logged Load world1).
Proof.
  assert (Hq : titleUnused "toString" emptySnapshot) by constructor.
  split; [reflexivity|]. split; [reflexivity|]. split; [reflexivity|].
  split; [exact Hq|].
  refine (proj1 (recordMemoryBatch_lost_on_inherited_title trackerOn
                   poisonedBatch _
                   {| bi_specName := "login.cy.js"; bi_testTitle := "toString";
                      bi_memory := loopMemory |}
                   world1 emptySnapshot eq_refl eq_refl eq_refl _ eq_refl Hq)).
  right. left. reflexivity.
Defined.

(** ** The flush of the sampling buffer *)

Section SplitLoop.

Context {A : Type} (batchSize : nat) (Hsize : (0 < batchSize)%nat).

Lemma Array_slice_step (buffer : list A) (i : nat) :
  Array_slice buffer i (i + batchSize) = firstn batchSize (skipn i buffer).
Proof.
  unfold Array_slice. now rewrite Nat.add_comm, Nat.add_sub.
Qed.

(** More fuel than the loop needs does not change what it computes. *)
Lemma splitLoop_fuel (buffer : list A) (fuel : nat) :
  forall (fuel' i : nat) (batches : list (list A)),
    (List.length buffer - i <= fuel)%nat ->
    (List.length buffer - i <= fuel')%nat ->
    splitLoop fuel batchSize buffer i batches
    = splitLoop fuel' batchSize buffer i batches.
Proof.
  induction fuel as [|fuel IH]; intros fuel' i batches Hf Hf'.
  - destruct fuel' as [|fuel']; [reflexivity|]. cbn [splitLoop].
    destruct (Nat.ltb_spec i (List.length buffer)); [lia | reflexivity].
  - destruct fuel' as [|fuel']; cbn [splitLoop];
      destruct (Nat.ltb_spec i (List.length buffer)); try reflexivity; try lia.
    apply IH; lia.
Qed.

Lemma splitLoop_spec (buffer : list A) (fuel : nat) :
  forall (i : nat) (batches : list (list A)),
    (List.length buffer - i <= fuel)%nat ->
    List.concat (splitLoop fuel batchSize buffer i batches)
    = List.concat batches ++ skipn i buffer /\
    (Forall (fun b => 1 <= List.length b <= batchSize)%nat batches ->
     Forall (fun b => 1 <= List.length b <= batchSize)%nat
       (splitLoop fuel batchSize buffer i batches)) /\
    List.length (splitLoop fuel batchSize buffer i batches)
    = (List.length batches
       + (List.length buffer - i + (batchSize - 1)) / batchSize)%nat.
Proof.
  induction fuel as [|fuel IH]; intros i batches Hf.
  - cbn [splitLoop]. rewrite skipn_all2 by lia.
    replace (List.length buffer - i)%nat with 0%nat by lia.
    rewrite app_nil_r, Nat.add_0_l, Nat.div_small by lia.
    rewrite Nat.add_0_r. auto.
  - cbn [splitLoop]. destruct (Nat.ltb_spec i (List.length buffer)) as [Hlt|Hge].
    + destruct (IH (i + batchSize)%nat
                  (batches ++ [Array_slice buffer i (i + batchSize)]))
        as (Hc & Hs & Hl); [lia|].
      rewrite Array_slice_step in *. split; [|split].
      * rewrite Hc, concat_app. cbn [List.concat]. rewrite app_nil_r, <- app_assoc.
        f_equal. rewrite Nat.add_comm, <- skipn_skipn. apply firstn_skipn.
      * intros Hb. apply Hs. apply Forall_app. split; [exact Hb|].
        constructor; [|constructor].
        rewrite length_firstn, length_skipn. lia.
      * rewrite Hl, length_app. cbn [List.length].
        rewrite <- Nat.add_assoc. f_equal.
        set (m := (List.length buffer - i)%nat).
        assert (Hm : (1 <= m)%nat) by (subst m; lia).
        replace (List.length buffer - (i + batchSize))%nat
          with (m - batchSize)%nat by (subst m; lia).
        replace (m + (batchSize - 1))%nat with ((m - 1) + 1 * batchSize)%nat by lia.
        rewrite Nat.div_add by lia.
        destruct (Nat.le_gt_cases batchSize m) as [Hle|Hgt].
        -- replace (m - batchSize + (batchSize - 1))%nat with (m - 1)%nat by lia.
           lia.
        -- rewrite (Nat.div_small (m - 1)) by lia.
           rewrite Nat.div_small by lia. lia.
    + rewrite skipn_all2 by lia.
      replace (List.length buffer - i)%nat with 0%nat by lia.
      rewrite app_nil_r, Nat.add_0_l, Nat.div_small by lia.
      rewrite Nat.add_0_r. auto.
Qed.

End SplitLoop.

Lemma splitBatches_parts {A : Type} (buffer : list A) :
  List.concat (splitBatches buffer) = buffer /\
  Forall batchSized (splitBatches buffer) /\
  List.length (splitBatches buffer) = ((List.length buffer + 49) / 50)%nat.
Proof.
  assert (H50 : (0 < 50)%nat) by lia.
  destruct (splitLoop_spec 50 H50 buffer (List.length buffer) 0 [])
    as (Hc & Hs & Hl); [lia|].
  unfold splitBatches. split; [exact Hc|]. split; [now apply Hs|].
  rewrite Hl. cbn [List.length]. now rewrite Nat.sub_0_r.
Qed.

(** X17. The flush cuts the buffer into batches that, put end to end, are the
    buffer: none is empty, none holds more than 50 entries, and their number
    is the length of the buffer divided by 50, rounded up.  The loop ends
    within [buffer.length] turns. *)
Theorem splitBatches_spec {A : Type} (buffer : list A) :
  List.concat (splitBatches buffer) = buffer /\
  Forall batchSized (splitBatches buffer) /\
  List.length (splitBatches buffer) = ((List.length buffer + 49) / 50)%nat /\
  forall fuel : nat,
    (List.length buffer <= fuel)%nat ->
    splitLoop fuel 50 buffer 0 [] = splitBatches buffer.
Proof.
  destruct (splitBatches_parts buffer) as (Hc & Hs & Hl).
  split; [exact Hc|]. split; [exact Hs|]. split; [exact Hl|].
  intros fuel Hf. apply (splitLoop_fuel 50); lia.
Qed.

Lemma batchForEach_batchFold (items : list BatchItem) :
  forall (data : RunSnapshot) (modified : bool),
    batchForEach items data modified =
    match batchFold items data with
    | Normal data' =>
        Normal (data', match items with [] => modified | _ => true end)
    | Throw => Throw
    end.
Proof.
  induction items as [|item rest IH]; intros data modified; [reflexivity|].
  cbn [batchForEach batchFold].
  destruct (batchItemWrite item data) as [data'|]; [|reflexivity].
  rewrite IH. destruct (batchFold rest data'); [|reflexivity].
  now destruct rest.
Qed.

Lemma batchFold_app (l1 l2 : list BatchItem) :
  forall data : RunSnapshot,
    batchFold (l1 ++ l2) data =
    match batchFold l1 data with
    | Normal data' => batchFold l2 data'
    | Throw => Throw
    end.
Proof.
  induction l1 as [|item rest IH]; intros data; [reflexivity|].
  cbn [app batchFold]. destruct (batchItemWrite item data); [apply IH | reflexivity].
Qed.

Lemma batchFold_normal (items : list BatchItem) :
  Forall plainItem items ->
  forall data : RunSnapshot, exists data', batchFold items data = Normal data'.
Proof.
  induction 1 as [|item rest [Hs Ht] _ IH]; intros data; [now exists data|].
  cbn [batchFold]. rewrite batchItemWrite_dualWrite.
  destruct (dualWrite_normal None (bi_specName item) (bi_testTitle item)
              (bi_memory item) (bi_memory item) data Hs Ht) as [data' ->].
  apply IH.
Qed.

(** What [recordMemoryBatch] leaves when the writes of its items complete. *)
Lemma recordMemoryBatch_batchFold (this : MemoryTracker) (batchData : BatchData)
    (items : list BatchItem) (data data' : RunSnapshot) (w : World) :
  isEnabled this = true -> batch batchData = Some items -> file w = Some data ->
  batchFold items data = Normal data' ->
  exists w',
    recordMemoryBatch this batchData w = (Normal tt, w') /\
    file w' = Some data' /\
    journal w' = journal w ++ match items with
                              | [] => [Load]
                              | _ => [Load; Save]
                              end.
Proof.
  intros He Hb Hf Hfold.
  rewrite (recordMemoryBatch_run this batchData items data w He Hb Hf).
  rewrite batchForEach_batchFold, Hfold.
  destruct items as [|item rest].
  - injection Hfold as <-. eexists. split; [reflexivity|]. now split.
  - eexists. split; [reflexivity|]. cbn. split; [reflexivity|].
    now rewrite <- app_assoc.
Qed.

Lemma runBatchTasks_batchFold (this : MemoryTracker) (total : nat)
    (batches : list (list BatchItem)) :
  isEnabled this = true ->
  Forall batchSized batches ->
  forall (index : nat) (data data' : RunSnapshot) (w : World),
    file w = Some data ->
    batchFold (List.concat batches) data = Normal data' ->
    exists w',
      runBatchTasks this (batchMessagesFrom index total batches) w
      = (Normal tt, w') /\
      file w' = Some data' /\
      journal w'
      = journal w ++ List.concat (repeat [Load; Save] (List.length batches)).
Proof.
  intros He. induction 1 as [|b rest Hb _ IH]; intros index data data' w Hf Hfold.
  - cbn in Hfold. injection Hfold as <-. exists w. cbn.
    rewrite app_nil_r. auto.
  - cbn [List.concat] in Hfold. rewrite batchFold_app in Hfold.
    destruct (batchFold b data) as [data1|] eqn:Hb1; [|discriminate Hfold].
    cbn [batchMessagesFrom runBatchTasks]. unfold bind.
    destruct (recordMemoryBatch_batchFold this
                {| batch := Some b; batchIndex := N.of_nat index;
                   totalBatches := N.of_nat total |} b data data1 w
                He eq_refl Hf Hb1) as (w1 & -> & Hf1 & Hj1).
    destruct (IH (S index) data1 data' w1 Hf1 Hfold) as (w' & Hrun & Hf' & Hj').
    exists w'. split; [exact Hrun|]. split; [exact Hf'|].
    rewrite Hj', Hj1. cbn [List.length repeat List.concat].
    destruct b as [|x b]; [unfold batchSized in Hb; cbn in Hb; lia|].
    now rewrite <- app_assoc.
Qed.

(** X18. Flushing the buffer in batches stores what one batch holding the
    whole buffer would store: when no name of the buffer is a property of
    [Object.prototype], the tasks of the flush, run in order, all complete
    and leave on file the snapshot that [recordMemoryBatch] leaves for the
    whole buffer, after one load and one save per batch. *)
Theorem flush_in_batches (this : MemoryTracker) (buffer : list BatchItem)
    (w : World) (data : RunSnapshot) :
  isEnabled this = true ->
  file w = Some data ->
  Forall plainItem buffer ->
  fst (runBatchTasks this (batchMessages buffer) w) = Normal tt /\
  file (snd (runBatchTasks this (batchMessages buffer) w))
  = file (snd (recordMemoryBatch this
                 {| batch := Some buffer; batchIndex := 0; totalBatches := 1 |}
                 w)) /\
  journal (snd (runBatchTasks this (batchMessages buffer) w))
  = journal w
    ++ List.concat (repeat [Load; Save] ((List.length buffer + 49) / 50)).
Proof.
  intros He Hf Hplain.
  destruct (batchFold_normal buffer Hplain data) as [data' Hfold].
  destruct (splitBatches_parts buffer) as (Hc & Hs & Hl).
  destruct (runBatchTasks_batchFold this (List.length (splitBatches buffer))
              (splitBatches buffer) He Hs 0 data data' w Hf)
    as (w' & Hrun & Hf' & Hj'); [now rewrite Hc|].
  destruct (recordMemoryBatch_batchFold this
              {| batch := Some buffer; batchIndex := 0; totalBatches := 1 |}
              buffer data data' w He eq_refl Hf Hfold) as (w1 & Hrun1 & Hf1 & _).
  unfold batchMessages. cbv zeta. rewrite Hrun, Hrun1. cbn [fst snd].
  split; [reflexivity|]. split; [congruence|]. now rewrite Hj', Hl.
Qed.

Lemma flush_in_batches_witness :
  isEnabled trackerOn = true /\
  file world1 = Some emptySnapshot /\
  Forall plainItem items1 /\
  file (snd (runBatchTasks trackerOn (batchMessages items1) world1))
  = file (snd (recordMemoryBatch trackerOn
                 {| batch := Some items1; batchIndex := 0; totalBatches := 1 |}
                 world1)).
Proof.
  assert (Hplain : Forall plainItem items1) by (repeat constructor).
  split; [reflexivity|]. split; [reflexivity|]. split; [exact Hplain|].
  exact (proj1 (proj2 (flush_in_batches trackerOn items1 world1 emptySnapshot
                         eq_refl eq_refl Hplain))).
Defined.

(** ** Reports *)

Lemma length_append (s1 s2 : string) :
  String.length (s1 ++ s2) = (String.length s1 + String.length s2)%nat.
Proof. induction s1 as [|c r IH]; cbn; [reflexivity | now rewrite IH]. Qed.

Lemma length_blanks (n : nat) : String.length (repeat_string " " n) = n.
Proof. induction n as [|n IH]; cbn; [reflexivity | now rewrite IH]. Qed.

Lemma length_padEnd (s : string) (n : nat) :
  String.length (padEnd s n) = Nat.max n (String.length s).
Proof. unfold padEnd. rewrite length_append, length_blanks. lia. Qed.

Lemma length_substring0 (n : nat) (s : string) :
  String.length (substring 0 n s) = Nat.min n (String.length s).
Proof.
  revert s. induction n as [|n IH]; intros [|c r]; cbn; try reflexivity.
  now rewrite IH.
Qed.

(** X19. The columns of text have a fixed width only where the text is cut:
    the title cell of a row of the test report is always 48 characters wide
    and the peak-test cell of a row of the spec report always 20, while the
    spec cell of the test report and the name cell of the spec report are 24
    and 48 wide or, for a longer text, as long as the text. *)
Theorem row_cell_widths :
  (forall td : TestRecord,
     map String.length (textCells (testRow td))
     = [48%nat; Nat.max 24 (String.length (specPath td))]) /\
  (forall entry : string * SpecRecord,
     map String.length (textCells (specRow entry))
     = [Nat.max 48 (String.length (fst entry)); 20%nat]).
Proof.
  split.
  - intros td. unfold testRow. cbn [textCells map].
    rewrite !length_padEnd. f_equal.
    destruct (Nat.ltb_spec 40 (String.length (testTitle td))) as [Hlt|Hle].
    + rewrite length_append, length_substring0. cbn [String.length]. lia.
    + lia.
  - intros [name data]. unfold specRow. cbn [textCells map fst].
    rewrite !length_padEnd, length_substring0. f_equal. f_equal. lia.
Qed.

Lemma filter_isSpecRow_rows (l : list (string * SpecRecord)) :
  filter isSpecRow (map specRow l) = map specRow l.
Proof.
  induction l as [|[name data] l IH]; [reflexivity|].
  cbn [map filter]. unfold specRow at 1. cbn [isSpecRow]. now rewrite IH.
Qed.

Lemma filter_isTestRow_specRows (l : list (string * SpecRecord)) :
  filter isTestRow (map specRow l) = [].
Proof.
  induction l as [|[name data] l IH]; [reflexivity|].
  cbn [map filter]. unfold specRow at 1. cbn [isTestRow]. exact IH.
Qed.

Lemma filter_isSpecRow_testRows (l : list TestRecord) :
  filter isSpecRow (map testRow l) = [].
Proof.
  induction l as [|td l IH]; [reflexivity|].
  cbn [map filter]. unfold testRow at 1. cbn [isSpecRow]. exact IH.
Qed.

Lemma specReport_counts (specs : obj SpecRecord) :
  List.length (filter isSpecRow (generateSpecReport specs)) = List.length specs /\
  filter isTestRow (generateSpecReport specs) = [].
Proof.
  rewrite generateSpecReport_rows, !filter_app.
  rewrite filter_isSpecRow_rows, filter_isTestRow_specRows.
  replace (filter isSpecRow specReportHead) with (@nil Line) by reflexivity.
  replace (filter isTestRow specReportHead) with (@nil Line) by reflexivity.
  cbn [filter rule isSpecRow isTestRow app]. rewrite app_nil_r, length_map.
  split; [|reflexivity].
  exact (Permutation_length (Array_sort_perm specMax (Js.entries specs))).
Qed.

Lemma testReport_counts (tests : obj TestRecord) :
  List.length (filter isTestRow (generateTestReport tests))
  = Nat.min 50 (List.length tests) /\
  filter isSpecRow (generateTestReport tests) = [].
Proof.
  rewrite generateTestReport_rows, !filter_app.
  rewrite filter_isTestRow_rows, filter_isSpecRow_testRows.
  replace (filter isSpecRow testReportHead) with (@nil Line) by reflexivity.
  replace (filter isTestRow testReportHead) with (@nil Line) by reflexivity.
  destruct (50 <? List.length (keys tests))%nat;
    cbn [filter rule isSpecRow isTestRow app]; rewrite ?app_nil_r;
    (split; [|reflexivity]); rewrite length_map, length_firstn;
    rewrite (Permutation_length (Array_sort_perm testMax (Js.values tests)));
    unfold Js.values; now rewrite length_map.
Qed.

(** X20. The spec report is not capped: it prints one row for every entry of
    [specs], each entry has its row, and that makes five lines more than
    there are specs. *)
Theorem generateSpecReport_uncapped (specs : obj SpecRecord) :
  List.length (filter isSpecRow (generateSpecReport specs)) = List.length specs /\
  List.length (generateSpecReport specs) = (List.length specs + 5)%nat /\
  forall entry, In entry (Js.entries specs) ->
                In (specRow entry) (generateSpecReport specs).
Proof.
  split; [apply specReport_counts|].
  rewrite generateSpecReport_rows. split.
  - rewrite !length_app, length_map.
    rewrite (Permutation_length (Array_sort_perm specMax (Js.entries specs))).
    unfold Js.entries. cbn. lia.
  - intros entry Hin. apply in_or_app. right. apply in_or_app. left.
    apply in_map.
    apply (Permutation_in _ (Permutation_sym (Array_sort_perm specMax _))).
    exact Hin.
Qed.

(** X21. [generateReport] only reads: it completes, performs one load when
    tracking is enabled and none otherwise, and never writes.  With a
    snapshot present it prints the totals of specs and of tests, one row per
    spec, and the rows of at most 50 tests, or no test row at all when
    [trackSpecOnly] is set; without one, or disabled, it prints one line. *)
Theorem generateReport_spec (this : MemoryTracker) (w : World) :
  exists out : list Line,
    generateReport this w
    = (Normal out, if isEnabled this then logged Load w else w) /\
    match isEnabled this, file w with
    | true, Some data =>
        In (Totals (List.length (specs data)) (List.length (tests data))) out /\
        List.length (filter isSpecRow out) = List.length (specs data) /\
        List.length (filter isTestRow out)
        = (if trackSpecOnly this then 0%nat
           else Nat.min 50 (List.length (tests data)))
    | _, _ => List.length out = 1%nat
    end.
Proof.
  unfold generateReport. destruct (isEnabled this); cbn [negb].
  2: { eexists. split; [reflexivity|]. reflexivity. }
  unfold bind, loadData. destruct (file w) as [data|].
  2: { eexists. split; [reflexivity|]. reflexivity. }
  eexists. split; [reflexivity|].
  destruct (specReport_counts (specs data)) as [Hs Hst].
  destruct (testReport_counts (tests data)) as [Ht Hts].
  split; [|split].
  - right. right. right. left. unfold keys. now rewrite !length_map.
  - rewrite !filter_app. cbn [filter isSpecRow banner app].
    rewrite !length_app, Hs.
    destruct (trackSpecOnly this); cbn [negb]; [|rewrite Hts]; cbn; lia.
  - rewrite !filter_app. cbn [filter isTestRow banner app].
    rewrite Hst. cbn [app].
    destruct (trackSpecOnly this); cbn [negb]; [reflexivity|].
    now rewrite !length_app, Ht.
Qed.

Lemma afterCreate_readings (specName testTitle : string) (data : RunSnapshot)
    (w : World) :
  clock (afterCreate specName testTitle data w) = clock w /\
  ticks (afterCreate specName testTitle data w)
  = (ticks w + testReadings specName testTitle data)%nat.
Proof.
  unfold afterCreate, testReadings.
  destruct (read (tests data) (testKeyOf specName testTitle)); cbn; split; lia || reflexivity.
Qed.

Lemma afterFirst_readings (specName testTitle : string) (memoryData : Sample)
    (data : RunSnapshot) (w : World) :
  clock (afterFirst specName testTitle memoryData data w) = clock w /\
  ticks (afterFirst specName testTitle memoryData data w)
  = (ticks w + testReadings specName testTitle data + stampReadings memoryData)%nat.
Proof.
  unfold afterFirst, stampReadings.
  destruct (afterCreate_readings specName testTitle data w) as [Hc Ht].
  destruct (truthy (timestamp memoryData)); cbn [clock ticks tick];
    rewrite Hc, Ht; split; lia || reflexivity.
Qed.

(** X22. With tracking enabled and a snapshot present, [recordTestMemory] for
    names that are no properties of [Object.prototype] loads once, saves once,
    and the snapshot saved differs from the one loaded by one sample at the
    end of the samples of the test record under its key and one at the end of
    the samples of the spec's entry for the test, no other sequence being
    changed.  Both samples are the given one when it carries a timestamp
    other than 0.  Otherwise each is stamped with a reading of its own: the
    first with the reading that follows the one taken for the [startTime] of
    a test record that had to be created (the first reading of the call when
    the record was there), the second with the reading after that. *)
Theorem recordTestMemory_effect (this : MemoryTracker)
    (specName testTitle : string) (memoryData : Sample) (w : World)
    (data : RunSnapshot) :
  isEnabled this = true -> file w = Some data ->
  inherited specName = false -> inherited testTitle = false ->
  let first := (ticks w + testReadings specName testTitle data)%nat in
  let second := (first + stampReadings memoryData)%nat in
  exists (data' : RunSnapshot) (w' : World),
    recordTestMemory this specName testTitle memoryData None w = (Normal tt, w') /\
    journal w' = journal w ++ [Load; Save] /\
    file w' = Some data' /\
    (truthy (timestamp memoryData) = true ->
     stampWith (clock w first) memoryData = memoryData /\
     stampWith (clock w second) memoryData = memoryData) /\
    forall s t,
      testSamples data' s t
      = testSamples data s t
        ++ (if String.eqb (testKeyOf s t) (testKeyOf specName testTitle)
            then [stampWith (clock w first) memoryData] else []) /\
      specTestSamples data' s t
      = specTestSamples data s t
        ++ (if String.eqb s specName && String.eqb t testTitle
            then [stampWith (clock w second) memoryData] else []) /\
      specSamples data' s = specSamples data s.
Proof.
  intros He Hf Hs Ht first second. unfold recordTestMemory. rewrite He. cbn [negb].
  unfold bind at 1. unfold loadData. rewrite Hf. unfold bind.
  destruct (testMemoryWrite_dualWrite specName testTitle memoryData data
              (logged Load w)) as (w1 & -> & Hf1 & Hj1).
  destruct (afterCreate_readings specName testTitle data (logged Load w)) as [-> ->].
  destruct (afterFirst_readings specName testTitle memoryData data (logged Load w))
    as [-> ->].
  cbn [clock ticks logged]. fold first. fold second.
  destruct (dualWrite_normal (Some (clock w (ticks w))) specName testTitle
              (stampWith (clock w first) memoryData)
              (stampWith (clock w second) memoryData) data Hs Ht) as [data' Hw].
  exists data'.
  rewrite Hw. eexists. split; [reflexivity|].
  cbn [journal file logged saveData snd]. rewrite Hj1. cbn [journal logged].
  split; [now rewrite <- app_assoc|]. split; [reflexivity|].
  split; [intros Hts; split; now apply stampWith_truthy|].
  exact (dualWrite_effect _ _ _ _ _ _ _ Hw).
Qed.

Lemma recordTestMemory_effect_witness :
  isEnabled trackerOn = true /\ file world1 = Some emptySnapshot /\
  inherited "login.cy.js" = false /\ inherited "logs in" = false /\
  exists data' : RunSnapshot,
    file (snd (recordTestMemory trackerOn "login.cy.js" "logs in" startMemory
                 None world1)) = Some data' /\
    testSamples data' "login.cy.js" "logs in"
    = [stampWith 1700000000123 startMemory] /\
    specTestSamples data' "login.cy.js" "logs in"
    = [stampWith 1700000000124 startMemory].
Proof.
  do 4 (split; [reflexivity|]).
  destruct (recordTestMemory_effect trackerOn "login.cy.js" "logs in" startMemory
              world1 emptySnapshot eq_refl eq_refl eq_refl eq_refl)
    as (data' & w' & Hrun & _ & Hf & _ & Heff).
  exists data'. rewrite Hrun. split; [exact Hf|].
  destruct (Heff "login.cy.js" "logs in") as (A & B & _).
  split; [exact A | exact B].
Defined.
